(** * Las Vegas Live: hand evaluation and round settlement

    A shallow embedding of the game logic of [src/pages/Home.tsx]
    (scoring, silent discard, betting, declaration and settlement) and the
    properties the specification states about it.

    Conventions of the embedding.
    - JavaScript numbers that carry money are rationals ([Q]): the exact
      value of the number. The definitions of this first part compute with
      them exactly, and [toFixed2] is there the exact rounding to two
      decimals, ties away from zero; that is what the theorems about
      guards, turns, cards, declarations and the history are stated over.
      The handlers that compute an amount ([handleBet], the bot's move,
      [calculateWinners], [resetHand]) are embedded once more in the
      module [Binary64], where every operation rounds to the nearest
      binary64 number as JavaScript does; the theorems about the amounts
      these handlers write are stated over that module.
    - JavaScript numbers that carry scores are integers or [NaN]
      ([number]).
    - The shared document is a [Store]: the table state, the players in
      the order [Object.values] lists them, and the history list.
    - A multi-path [db.ref().update(updates)] is a list of [Update]s applied
      in order.
    - [Math.random()] and [Date.now()] are arguments of the functions that
      call them; a callback handed to [setTimeout] is a function on the
      document of the time it fires. *)

From Stdlib Require Import ZArith QArith Qround Qabs List String Ascii Bool Lia Lqa.
From Stdlib Require Import Permutation.
From Stdlib Require Import DecimalString.
From Stdlib Require Import Qpower Sorted.
Import ListNotations.

Local Open Scope string_scope.
Local Open Scope Z_scope.

(** ** Cards *)

Record CardObj := mkCard { value : string; suit : string; color : string }.

Record Suit := mkSuit { symbol : string; suitColor : string; suitName : string }.

Definition SUITS : list Suit :=
  [ mkSuit "♥" "red" "hearts";
    mkSuit "♦" "red" "diamonds";
    mkSuit "♣" "black" "clubs";
    mkSuit "♠" "black" "spades" ].

Definition VALUES : list string :=
  ["A"; "2"; "3"; "4"; "5"; "6"; "7"; "8"; "9"; "10"; "J"; "Q"; "K"].

Definition buildDeck : list CardObj :=
  flat_map (fun v => map (fun s => mkCard v (symbol s) (suitColor s)) SUITS) VALUES.

Inductive Choice := Cmin | Cmax.

Definition Choice_eqb (a b : Choice) : bool :=
  match a, b with
  | Cmin, Cmin | Cmax, Cmax => true
  | _, _ => false
  end.

(** ** Score numbers and [parseInt] *)

Inductive number := NaN | Num (z : Z).

(** [a + b] on numbers: [NaN] is absorbing. *)
Definition plus (a b : number) : number :=
  match a, b with
  | Num x, Num y => Num (x + y)
  | _, _ => NaN
  end.

(** [a === b] on numbers: [NaN] equals nothing. *)
Definition strict_eq (a b : number) : bool :=
  match a, b with
  | Num x, Num y => x =? y
  | _, _ => false
  end.

Definition isNaN (a : number) : bool :=
  match a with NaN => true | Num _ => false end.

Definition is_ws (a : ascii) : bool :=
  match nat_of_ascii a with
  | 9%nat | 10%nat | 11%nat | 12%nat | 13%nat | 32%nat => true
  | _ => false
  end.

Fixpoint trimStart (s : string) : string :=
  match s with
  | String a r => if is_ws a then trimStart r else s
  | EmptyString => s
  end.

Definition digit_of (radix : Z) (a : ascii) : option Z :=
  let n := Z.of_nat (nat_of_ascii a) in
  let d :=
    if (48 <=? n) && (n <=? 57) then Some (n - 48)
    else if (97 <=? n) && (n <=? 122) then Some (n - 87)
    else if (65 <=? n) && (n <=? 90) then Some (n - 55)
    else None in
  match d with
  | Some v => if v <? radix then Some v else None
  | None => None
  end.

(** The longest prefix of radix digits, read as a numeral; [acc] is [NaN]
    until a first digit is seen. *)
Fixpoint digits (radix : Z) (s : string) (acc : number) : number :=
  match s with
  | String a r =>
      match digit_of radix a with
      | Some d =>
          digits radix r (Num (radix * (match acc with Num z => z | NaN => 0 end) + d))
      | None => acc
      end
  | EmptyString => acc
  end.

Definition negate (sign : bool) (a : number) : number :=
  match a with
  | Num z => Num (if sign then - z else z)
  | NaN => NaN
  end.

(** [parseInt(s)] without a radix argument: leading white space, an optional
    sign, an optional [0x] prefix, then the longest run of digits. *)
Definition parseInt (s : string) : number :=
  let s1 := trimStart s in
  let '(sign, s2) :=
    match s1 with
    | String "-" r => (true, r)
    | String "+" r => (false, r)
    | _ => (false, s1)
    end in
  match s2 with
  | String "0" (String "x" r) | String "0" (String "X" r) => negate sign (digits 16 r NaN)
  | _ => negate sign (digits 10 s2 NaN)
  end.

(** ** Deck and scoring *)

Definition cardScore (choice : Choice) (card : CardObj) : number :=
  if (value card =? "A")%string then
    match choice with Cmax => Num 11 | Cmin => Num 1 end
  else if existsb (String.eqb (value card)) ["J"; "Q"; "K"] then Num 10
  else parseInt (value card).

Definition calculateHandScore (hand : list CardObj) (choice : Choice) : number :=
  match hand with
  | [] => Num 0
  | _ => fold_left (fun total card => plus total (cardScore choice card)) hand (Num 0)
  end.

Definition includes (x : string) (l : list string) : bool :=
  existsb (String.eqb x) l.

Definition getFilteredHand (playerHand : option (list CardObj))
    (revealedCards : list CardObj) : list CardObj :=
  match playerHand with
  | None | Some [] => []
  | Some hand =>
      match revealedCards with
      | [] => hand
      | _ =>
          let revealedValues := map value revealedCards in
          filter (fun card => negb (includes (value card) revealedValues)) hand
      end
  end.

(** ** Money *)

Local Open Scope Q_scope.

Definition Qlt_bool (a b : Q) : bool := negb (Qle_bool b a).

(** [Math.max(0, x)] *)
Definition max0 (x : Q) : Q := if Qle_bool x 0 then 0 else x.

(** [a || b] on amounts: [0] is the falsy amount. *)
Definition orElse (a b : Q) : Q := if Qeq_bool a 0 then b else a.

(** Nearest integer, ties away from zero: the digit choice of [toFixed]. *)
Definition round_half_away (x : Q) : Z :=
  if Qle_bool 0 x then Qfloor (x + (1 # 2)) else (- Qfloor (- x + (1 # 2)))%Z.

(** [parseFloat(x.toFixed(2))] *)
Definition toFixed2 (x : Q) : Q := round_half_away (x * 100) # 100.

(** An amount with at most two decimals. *)
Definition is_cents (x : Q) : Prop := exists n : Z, x == n # 100.

(** ** The shared document *)

Inductive Phase := lobby | betting | revealing | final | results.

(** The table ([game/state]). [lastAction], a display text, is left out;
    an absent [revealedCards] is the empty list, an absent
    [currentPlayerTurn] the empty string and an absent flag [false]. *)
Record GameState := mkGameState {
  phase : Phase;
  pot : Q;
  currentBet : Q;
  revealedCards : list CardObj;
  totalCards : Z;
  handSize : option Z;
  adminId : string;
  dealerIndex : Z;
  currentPlayerTurn : string;
  waitingForDealer : bool;
  isFirstHand : bool
}.

(** A seat ([game/players/<id>]). [None] is [null] or [undefined]. Every
    seat is created with all its fields, so [folded] and the amounts are
    always there. *)
Record Player := mkPlayer {
  id : string;
  username : string;
  balance : Q;
  isAdmin : bool;
  isBot : bool;
  lastBet : Q;
  finalScore : option Z;
  choice : option Choice;
  position : Z;
  hasActed : bool;
  folded : bool;
  hand : option (list CardObj);
  totalBetThisHand : Q;
  originalHand : option (list CardObj);
  discardedCards : list CardObj
}.

Inductive WinTag := LasVegas | TagMin (tie : bool) | TagMax (tie : bool).

(** One entry of [winnersInfo], before it is rendered as text. *)
Record WinnerInfo := mkWinnerInfo {
  w_username : string;
  w_amount : Q;
  w_tag : WinTag
}.

(** A child of [game/history]. *)
Record HistoryEntry := mkHistoryEntry {
  winners : list WinnerInfo;
  h_pot : Q;
  timestamp : Z
}.

Record Store := mkStore {
  gameState : option GameState;
  players : list Player;
  history : list HistoryEntry
}.

(** ** Partial updates *)

Inductive StateField :=
| S_phase (p : Phase)
| S_pot (q : Q)
| S_currentBet (q : Q)
| S_revealedCards (l : list CardObj)
| S_currentPlayerTurn (s : string)
| S_waitingForDealer (b : bool)
| S_isFirstHand (b : bool).

Definition set_state_field (f : StateField) (g : GameState) : GameState :=
  match g with
  | mkGameState ph po cb rc tc hs ad di tu wd fh =>
      match f with
      | S_phase x => mkGameState x po cb rc tc hs ad di tu wd fh
      | S_pot x => mkGameState ph x cb rc tc hs ad di tu wd fh
      | S_currentBet x => mkGameState ph po x rc tc hs ad di tu wd fh
      | S_revealedCards x => mkGameState ph po cb x tc hs ad di tu wd fh
      | S_currentPlayerTurn x => mkGameState ph po cb rc tc hs ad di x wd fh
      | S_waitingForDealer x => mkGameState ph po cb rc tc hs ad di tu x fh
      | S_isFirstHand x => mkGameState ph po cb rc tc hs ad di tu wd x
      end
  end.

(** [db.ref("game/state").update({...})] on an existing table. *)
Definition state_update (fs : list StateField) (db : Store) : Store :=
  mkStore (option_map (fun g => fold_left (fun g f => set_state_field f g) fs g) (gameState db))
          (players db) (history db).

Inductive PlayerField :=
| F_balance (q : Q)
| F_lastBet (q : Q)
| F_hasActed (b : bool)
| F_folded (b : bool)
| F_totalBetThisHand (q : Q)
| F_hand (h : list CardObj)
| F_discardedCards (l : list CardObj)
| F_choice (c : Choice)
| F_finalScore (z : Z).

Definition set_player_field (f : PlayerField) (p : Player) : Player :=
  match p with
  | mkPlayer i un ba ad bo lb fs ch po ha fo hd tb oh dc =>
      match f with
      | F_balance x => mkPlayer i un x ad bo lb fs ch po ha fo hd tb oh dc
      | F_lastBet x => mkPlayer i un ba ad bo x fs ch po ha fo hd tb oh dc
      | F_hasActed x => mkPlayer i un ba ad bo lb fs ch po x fo hd tb oh dc
      | F_folded x => mkPlayer i un ba ad bo lb fs ch po ha x hd tb oh dc
      | F_totalBetThisHand x => mkPlayer i un ba ad bo lb fs ch po ha fo hd x oh dc
      | F_hand x => mkPlayer i un ba ad bo lb fs ch po ha fo (Some x) tb oh dc
      | F_discardedCards x => mkPlayer i un ba ad bo lb fs ch po ha fo hd tb oh x
      | F_choice x => mkPlayer i un ba ad bo lb fs (Some x) po ha fo hd tb oh dc
      | F_finalScore x => mkPlayer i un ba ad bo lb (Some x) ch po ha fo hd tb oh dc
      end
  end.

(** One key of an [updates] object: the path [game/players/<id>/<field>]
    and its new value. *)
Definition Update : Type := string * PlayerField.

Definition apply_update (u : Update) (p : Player) : Player :=
  if (id p =? fst u)%string then set_player_field (snd u) p else p.

(** [db.ref().update(updates)]: every path is written, in key order. *)
Definition db_update (updates : list Update) (db : Store) : Store :=
  mkStore (gameState db)
          (fold_left (fun ps u => map (apply_update u) ps) updates (players db))
          (history db).

(** All the updates of a list, as they touch one player. *)
Definition apply_updates (us : list Update) (p : Player) : Player :=
  fold_left (fun q u => apply_update u q) us p.

(** [players[id]] *)
Definition lookup (i : string) (ps : list Player) : option Player :=
  find (fun p => (id p =? i)%string) ps.

(** [Object.keys(players)] *)
Definition keys (ps : list Player) : list string := map id ps.

Fixpoint unique (l : list string) : bool :=
  match l with
  | [] => true
  | x :: r => negb (includes x r) && unique r
  end.

(** The keys of the players object are pairwise different. *)
Definition unique_ids (ps : list Player) : bool := unique (keys ps).

(** ** The client *)

Inductive ValidationError :=
| NoError
| EnterValidScore
| WrongScore (c : Choice) (correctScore : number).

(** The component state of one browser that the handlers read. *)
Record Client := mkClient {
  localPlayerId : option string;
  isAdminMode : bool;
  isConnected : bool;
  betAmount : Q;
  finalScoreInput : string;
  validationError : ValidationError
}.

Record Toast := mkToast { title : string; destructive : bool }.

(** What a handler leaves behind: the component state, the shared document,
    the toasts it raised, and whether it reached its database writes. *)
Record Result := mkResult {
  r_client : Client;
  r_store : Store;
  r_toasts : list Toast;
  r_written : bool
}.

Definition refuse (c : Client) (db : Store) (ts : list Toast) : Result :=
  mkResult c db ts false.

(** A truthy [localPlayerId]. *)
Definition localId (c : Client) : option string :=
  match localPlayerId c with
  | Some "" | None => None
  | Some i => Some i
  end.

Definition currentUser (c : Client) (db : Store) : option Player :=
  match localId c with
  | Some i => lookup i (players db)
  | None => None
  end.

(** ** Turn order *)

Fixpoint insertByPosition (p : Player) (l : list Player) : list Player :=
  match l with
  | [] => [p]
  | q :: r => if (position p <=? position q)%Z then p :: l else q :: insertByPosition p r
  end.

(** [.sort((a, b) => a.position - b.position)], a stable sort. *)
Definition sortByPosition (l : list Player) : list Player :=
  fold_right insertByPosition [] l.

Fixpoint findIndex {A : Type} (f : A -> bool) (l : list A) : option nat :=
  match l with
  | [] => None
  | x :: r => if f x then Some 0%nat else option_map S (findIndex f r)
  end.

Definition getNextActivePlayerId (g : option GameState) (ps : list Player) : option string :=
  match g with
  | None => None
  | Some gs =>
      let playerList :=
        sortByPosition (filter (fun p => negb (folded p) && Qlt_bool 0 (balance p)) ps) in
      if (List.length playerList <=? 1)%nat then None
      else
        match findIndex (fun p => (id p =? currentPlayerTurn gs)%string) playerList with
        | None => option_map id (nth_error playerList 0)
        | Some currentIndex =>
            option_map id (nth_error playerList (Nat.modulo (currentIndex + 1) (List.length playerList)))
        end
  end.

(** [x || ""] on an optional id *)
Definition orEmpty (o : option string) : string :=
  match o with Some s => s | None => "" end.

(** ** Betting *)

Definition handleBet (c : Client) (db : Store) : Result :=
  match gameState db, currentUser c db, localId c with
  | Some gs, Some me, Some lid =>
      if waitingForDealer gs then
        refuse c db [mkToast "Azione bloccata" true]
      else if negb (isAdminMode c) && negb (currentPlayerTurn gs =? lid)%string then
        refuse c db [mkToast "Non è il tuo turno" true]
      else
        let betVal0 := toFixed2 (betAmount c) in
        let over := Qlt_bool 2 betVal0 in
        let betVal := if over then 2 else betVal0 in
        let c1 :=
          if over then
            mkClient (localPlayerId c) (isAdminMode c) (isConnected c) 2
                     (finalScoreInput c) (validationError c)
          else c in
        let ts := if over then [mkToast "Limite di puntata" false] else [] in
        let minBet := orElse (currentBet gs) (1 # 10) in
        if Qlt_bool betVal minBet then
          refuse c1 db (ts ++ [mkToast "Puntata non valida" true])%list
        else
          let last := orElse (lastBet me) 0 in
          let diff := max0 (toFixed2 (betVal - last)) in
          if Qlt_bool (balance me) diff then
            refuse c1 db (ts ++ [mkToast "Saldo insufficiente" true])%list
          else
            let raise :=
              if Qlt_bool (currentBet gs) betVal then
                map (fun i => (i, F_hasActed false))
                    (filter (fun i => negb (i =? lid)%string) (keys (players db)))
              else [] in
            let updates :=
              (raise ++
               [ (lid, F_balance (toFixed2 (balance me - diff)));
                 (lid, F_lastBet betVal);
                 (lid, F_hasActed true);
                 (lid, F_totalBetThisHand (orElse (totalBetThisHand me) 0 + diff)) ])%list in
            let nextPlayerId := getNextActivePlayerId (gameState db) (players db) in
            let db1 :=
              state_update
                [ S_pot (toFixed2 (orElse (pot gs) 0 + diff));
                  S_currentBet betVal;
                  S_currentPlayerTurn (orEmpty nextPlayerId) ] db in
            mkResult c1 (db_update updates db1) ts true
  | _, _, _ => refuse c db [mkToast "Azione bloccata" true]
  end.

Definition handleCheck (c : Client) (db : Store) : Result :=
  match gameState db, currentUser c db, localId c with
  | Some gs, Some me, Some lid =>
      if waitingForDealer gs then
        refuse c db [mkToast "Azione bloccata" true]
      else if negb (isAdminMode c) && negb (currentPlayerTurn gs =? lid)%string then
        refuse c db [mkToast "Non è il tuo turno" true]
      else if Qeq_bool (lastBet me) (currentBet gs) then
        let nextPlayerId := getNextActivePlayerId (gameState db) (players db) in
        let db1 := db_update [(lid, F_hasActed true)] db in
        mkResult c (state_update [S_currentPlayerTurn (orEmpty nextPlayerId)] db1) [] true
      else
        refuse c db [mkToast "Check non consentito" true]
  | _, _, _ => refuse c db [mkToast "Azione bloccata" true]
  end.

Definition handleFold (c : Client) (db : Store) : Result :=
  match gameState db, currentUser c db, localId c with
  | Some gs, Some me, Some lid =>
      if waitingForDealer gs then
        refuse c db [mkToast "Azione bloccata" true]
      else if negb (isAdminMode c) && negb (currentPlayerTurn gs =? lid)%string then
        refuse c db [mkToast "Non è il tuo turno" true]
      else
        let nextPlayerId := getNextActivePlayerId (gameState db) (players db) in
        let db1 := db_update [(lid, F_folded true); (lid, F_hasActed true)] db in
        mkResult c (state_update [S_currentPlayerTurn (orEmpty nextPlayerId)] db1) [] true
  | _, _, _ => refuse c db [mkToast "Azione bloccata" true]
  end.

(** The delayed action of the bot effect, for the bot whose turn it is. *)
Definition botTurn (c : Client) (db : Store) : Store :=
  match gameState db with
  | None => db
  | Some gs =>
      if negb (isConnected c) || negb (match phase gs with betting => true | _ => false end)
         || waitingForDealer gs
      then db
      else
        let currentTurnId := currentPlayerTurn gs in
        if (currentTurnId =? "")%string then db
        else
          match lookup currentTurnId (players db) with
          | None => db
          | Some currentPlayer =>
              if negb (isBot currentPlayer) then db
              else
                let cb := orElse (currentBet gs) 0 in
                let last := orElse (lastBet currentPlayer) 0 in
                let bal := orElse (balance currentPlayer) 0 in
                let diff := max0 (toFixed2 (cb - last)) in
                let next := orEmpty (getNextActivePlayerId (gameState db) (players db)) in
                if Qeq_bool cb 0 || Qle_bool cb last then
                  state_update [S_currentPlayerTurn next]
                    (db_update [(currentTurnId, F_hasActed true); (currentTurnId, F_lastBet cb)] db)
                else if Qlt_bool bal diff then
                  state_update [S_currentPlayerTurn next]
                    (db_update [(currentTurnId, F_folded true); (currentTurnId, F_hasActed true)] db)
                else
                  db_update
                    [ (currentTurnId, F_balance (toFixed2 (bal - diff)));
                      (currentTurnId, F_lastBet cb);
                      (currentTurnId, F_hasActed true);
                      (currentTurnId,
                       F_totalBetThisHand (orElse (totalBetThisHand currentPlayer) 0 + diff)) ]
                    (state_update
                       [ S_pot (toFixed2 (orElse (pot gs) 0 + diff));
                         S_currentPlayerTurn next ] db)
          end
  end.

(** ** Silent discard *)

Definition sameCard (a b : CardObj) : bool :=
  (value a =? value b)%string && (suit a =? suit b)%string.

(** [self.filter((card, index) => index === self.findIndex(sameCard))] *)
Definition uniqueDiscarded (self : list CardObj) : list CardObj :=
  map snd
    (filter
       (fun ic =>
          match findIndex (fun c => sameCard c (snd ic)) self with
          | Some i => Nat.eqb (fst ic) i
          | None => false
          end)
       (combine (seq 0 (List.length self)) self)).

(** [l[l.length - 1]] *)
Definition lastOf {A : Type} (l : list A) : option A :=
  nth_error l (List.length l - 1).

(** The body of the [forEach] of [applySilentDiscard]: the keys it adds to
    [updates] for the player [i]. *)
Definition discardPaths (lastRevealedCard : CardObj) (ps : list Player) (i : string)
  : list Update :=
  match lookup i ps with
  | None => []
  | Some player =>
      match hand player with
      | None | Some [] => []
      | Some h =>
          let cardsToDiscard :=
            filter (fun card => (value card =? value lastRevealedCard)%string) h in
          match cardsToDiscard with
          | [] => []
          | _ =>
              let newHand :=
                filter (fun card => negb (value card =? value lastRevealedCard)%string) h in
              [ (i, F_hand newHand);
                (i, F_discardedCards
                      (uniqueDiscarded (discardedCards player ++ cardsToDiscard)%list)) ]
          end
      end
  end.

(** The [updates] object that [applySilentDiscard] builds from the table and
    the players it reads. *)
Definition silentDiscardUpdates (g : option GameState) (ps : list Player) : list Update :=
  match g with
  | None => []
  | Some gs =>
      match lastOf (revealedCards gs) with
      | None => []
      | Some lastRevealedCard => flat_map (discardPaths lastRevealedCard ps) (keys ps)
      end
  end.

(** [applySilentDiscard()]: [g] and [ps] are the [gameState] and [players]
    of the render the function belongs to, [db] the document it writes. *)
Definition applySilentDiscard (g : option GameState) (ps : list Player) (db : Store) : Store :=
  db_update (silentDiscardUpdates g ps) db.

(** ** Revealing a shared card *)

Definition setBetAmount (q : Q) (c : Client) : Client :=
  mkClient (localPlayerId c) (isAdminMode c) (isConnected c) q
           (finalScoreInput c) (validationError c).

(** [revealNextCard()]. [rv] and [rs] are the two random draws
    ([Math.floor(Math.random() * n)] is [r mod n]). The second component is
    the callback handed to [setTimeout], if any: it runs the
    [applySilentDiscard] of the calling render, which reads that render's
    [gameState] and [players], and writes to the document of its own time. *)
Definition revealNextCard (rv rs : nat) (c : Client) (db : Store)
  : Result * option (Store -> Store) :=
  match gameState db with
  | None => (refuse c db [], None)
  | Some gs =>
      let revealedValues := map value (revealedCards gs) in
      let availableValues := filter (fun v => negb (includes v revealedValues)) VALUES in
      match
        nth_error availableValues (Nat.modulo rv (List.length availableValues)),
        nth_error SUITS (Nat.modulo rs (List.length SUITS))
      with
      | Some v, Some s =>
          let nextCard := mkCard v (symbol s) (suitColor s) in
          let nextRevealed := (revealedCards gs ++ [nextCard])%list in
          let updates :=
            flat_map (fun i => [(i, F_lastBet 0); (i, F_hasActed false)]) (keys (players db)) in
          if (totalCards gs <=? Z.of_nat (List.length nextRevealed))%Z then
            (mkResult (setBetAmount (1 # 10) c)
               (db_update updates
                  (state_update
                     [ S_revealedCards nextRevealed; S_phase final; S_currentBet 0;
                       S_currentPlayerTurn ""; S_waitingForDealer false; S_isFirstHand false ]
                     db))
               [] true,
             None)
          else
            (mkResult (setBetAmount (1 # 10) c)
               (db_update updates (state_update [S_revealedCards nextRevealed] db))
               [] true,
             Some (fun later =>
                     state_update
                       [ S_phase betting; S_currentBet 0; S_currentPlayerTurn "";
                         S_waitingForDealer true; S_isFirstHand false ]
                       (applySilentDiscard (gameState db) (players db) later)))
      | _, _ => (refuse c db [mkToast "Errore" true], None)
      end
  end.

(** The reveal with its timer fired on the document the reveal left. *)
Definition revealAndSettle (rv rs : nat) (c : Client) (db : Store) : Store :=
  match revealNextCard rv rs c db with
  | (r, Some timer) => timer (r_store r)
  | (r, None) => r_store r
  end.

(** ** Declaration *)

Definition setValidationError (e : ValidationError) (c : Client) : Client :=
  mkClient (localPlayerId c) (isAdminMode c) (isConnected c) (betAmount c)
           (finalScoreInput c) e.

Definition submitFinal (ch : Choice) (c : Client) (db : Store) : Result :=
  match currentUser c db, gameState db with
  | Some me, Some gs =>
      if (finalScoreInput c =? "")%string then refuse c db []
      else
        let declaredScore := parseInt (finalScoreInput c) in
        match declaredScore with
        | NaN => refuse (setValidationError EnterValidScore c) db []
        | Num d =>
            let filteredHand := getFilteredHand (hand me) (revealedCards gs) in
            let correctScore := calculateHandScore filteredHand ch in
            if negb (strict_eq declaredScore correctScore) then
              refuse (setValidationError (WrongScore ch correctScore) c) db
                     [mkToast "Errore di dichiarazione" true]
            else
              mkResult (setValidationError NoError c)
                       (db_update [(id me, F_choice ch); (id me, F_finalScore d)] db)
                       [mkToast "Dichiarazione registrata" false] true
        end
  | _, _ => refuse c db []
  end.

Definition isSome {A : Type} (o : option A) : bool :=
  match o with Some _ => true | None => false end.

(** The bot branch of the admin effect in phase [final], with its timer
    fired. [flips k] is the coin of the [k]-th bot ([true] is "max"). The
    store refuses a value that is [NaN]: the multi-path write then throws
    and nothing is written. *)
Definition botAutoDeclare (flips : nat -> bool) (c : Client) (db : Store) : Store :=
  match gameState db with
  | None => db
  | Some gs =>
      if negb (isConnected c) || negb (isAdminMode c) || waitingForDealer gs then db
      else
        let playerList := sortByPosition (filter (fun p => negb (folded p)) (players db)) in
        match playerList, phase gs with
        | _ :: _, final =>
            let activePlayers := filter (fun p => negb (username p =? "")%string) playerList in
            let botsWithoutChoice :=
              filter (fun p => isBot p && negb (isSome (choice p))) activePlayers in
            let declarations :=
              map (fun kb =>
                     let ch := if flips (fst kb) then Cmax else Cmin in
                     let filteredHand := getFilteredHand (hand (snd kb)) (revealedCards gs) in
                     (id (snd kb), ch, calculateHandScore filteredHand ch))
                  (combine (seq 0 (List.length botsWithoutChoice)) botsWithoutChoice) in
            if existsb (fun d => isNaN (snd d)) declarations then db
            else
              db_update
                (flat_map
                   (fun d =>
                      match snd d with
                      | Num z => [(fst (fst d), F_choice (snd (fst d))); (fst (fst d), F_finalScore z)]
                      | NaN => []
                      end)
                   declarations)
                db
        | _, _ => db
        end
  end.

(** ** Settlement *)

Definition handleNextHand (c : Client) (db : Store) : Store :=
  if negb (isAdminMode c) then db
  else
    state_update
      [ S_phase lobby; S_pot 0; S_currentBet 0; S_revealedCards [];
        S_waitingForDealer true; S_isFirstHand false ] db.

(** [p.finalScore!] *)
Definition scoreOf (p : Player) : Z :=
  match finalScore p with Some z => z | None => 0%Z end.

(** [Math.min(...l)] and [Math.max(...l)] on a list that is not empty (both
    calls are guarded by a length test). *)
Definition Math_min (l : list Z) : Z :=
  match l with [] => 0%Z | x :: r => fold_left Z.min r x end.

Definition Math_max (l : list Z) : Z :=
  match l with [] => 0%Z | x :: r => fold_left Z.max r x end.

Definition hasChoice (ch : Choice) (p : Player) : bool :=
  match choice p with Some c => Choice_eqb c ch | None => false end.

(** The players a normal settlement looks at. *)
Definition declaredPlayers (ps : list Player) : list Player :=
  filter (fun p => negb (folded p) && isSome (choice p) && isSome (finalScore p)) ps.

Definition nonEmpty {A : Type} (l : list A) : bool :=
  match l with [] => false | _ => true end.

Definition lengthQ {A : Type} (l : list A) : Q := inject_Z (Z.of_nat (List.length l)).

(** One of the two category blocks of [calculateWinners]: the balance
    updates and the [winnersInfo] lines of a group, given the best score
    function and the tag of the group. *)
Definition settleGroup (best : list Z -> Z) (tag : bool -> WinTag) (share : Q)
    (group : list Player) : list Update * list WinnerInfo :=
  match group with
  | [] => ([], [])
  | _ =>
      let scores := map scoreOf group in
      let bestScore := best scores in
      let groupWinners := filter (fun p => (scoreOf p =? bestScore)%Z) group in
      let splitAmount := toFixed2 (share / lengthQ groupWinners) in
      (map (fun w => (id w, F_balance (toFixed2 (balance w + splitAmount)))) groupWinners,
       map (fun w => mkWinnerInfo (username w) splitAmount
                       (tag (1 <? List.length groupWinners)%nat)) groupWinners)
  end.

(** [calculateWinners(specialWinnerId)]; [now] is [Date.now()]. *)
Definition calculateWinners (specialWinnerId : option string) (now : Z) (db : Store)
  : Store * list Toast :=
  match gameState db with
  | None => (db, [])
  | Some gs =>
      let thePot := orElse (pot gs) 0 in
      let finish (updates : list Update) (winnersInfo : list WinnerInfo) :=
        let db1 := db_update updates db in
        let db2 :=
          match winnersInfo with
          | [] => db1
          | _ =>
              mkStore (gameState db1) (players db1)
                      (history db1 ++ [mkHistoryEntry winnersInfo thePot now])%list
          end in
        state_update [S_phase results; S_isFirstHand false] db2 in
      match specialWinnerId with
      | Some (String a r) =>
          match lookup (String a r) (players db) with
          | Some winnerObj =>
              (finish [(id winnerObj, F_balance (toFixed2 (balance winnerObj + thePot)))]
                      [mkWinnerInfo (username winnerObj) thePot LasVegas], [])
          | None => (finish [] [], [])
          end
      | _ =>
          let playerList := declaredPlayers (players db) in
          match playerList with
          | [] => (db, [mkToast "Nessun vincitore" true])
          | _ =>
              let minPlayers := filter (hasChoice Cmin) playerList in
              let maxPlayers := filter (hasChoice Cmax) playerList in
              let share :=
                if nonEmpty minPlayers && nonEmpty maxPlayers then thePot / 2 else thePot in
              let mins := settleGroup Math_min TagMin share minPlayers in
              let maxs := settleGroup Math_max TagMax share maxPlayers in
              (finish (fst mins ++ fst maxs)%list (snd mins ++ snd maxs)%list, [])
          end
      end
  end.

(** ** The scoring rule as the specification words it *)

Definition numerals : list (string * Z) :=
  [ ("2", 2); ("3", 3); ("4", 4); ("5", 5); ("6", 6);
    ("7", 7); ("8", 8); ("9", 9); ("10", 10) ]%Z.

Fixpoint faceValue (table : list (string * Z)) (v : string) : Z :=
  match table with
  | [] => 0%Z
  | (k, n) :: r => if (v =? k)%string then n else faceValue r v
  end.

(** Numeral cards count their face value, J, Q and K count 10, an Ace
    counts 1 under "min" and 11 under "max". *)
Definition spec_cardValue (rule : Choice) (v : string) : Z :=
  if (v =? "A")%string then match rule with Cmin => 1%Z | Cmax => 11%Z end
  else if includes v ["J"; "Q"; "K"] then 10%Z
  else faceValue numerals v.

Definition spec_scoreHand (hand : list CardObj) (rule : Choice) : Z :=
  fold_right (fun card s => (spec_cardValue rule (value card) + s)%Z) 0%Z hand.

(** A card of the deck: its value is one of [VALUES]. *)
Definition validCard (card : CardObj) : bool := includes (value card) VALUES.

Definition isAce (card : CardObj) : bool := (value card =? "A")%string.

Definition countAces (hand : list CardObj) : Z :=
  Z.of_nat (List.length (filter isAce hand)).

(** ** Sample data *)

Definition card (v s : string) : CardObj :=
  mkCard v s (if includes s ["♥"; "♦"] then "red" else "black").

Definition hand_AK7 : list CardObj := [card "A" "♥"; card "K" "♠"; card "7" "♦"].

(** The hand without the cards whose value lies on the table. *)
Definition survivingHand (h : option (list CardObj)) (revealed : list CardObj) : list CardObj :=
  filter (fun c => negb (includes (value c) (map value revealed)))
         (match h with Some l => l | None => [] end).

Definition seat (i name : string) (bal : Q) (bot : bool) (pos : Z)
    (h : option (list CardObj)) : Player :=
  mkPlayer i name bal false bot 0 None None pos false false h 0 h [].

Definition table (ph : Phase) (thePot : Q) (bet : Q) (revealed : list CardObj)
    (total : Z) (turn : string) : GameState :=
  mkGameState ph thePot bet revealed total (Some 3%Z) "p1" 0 turn false false.

Definition browser (i : string) (admin : bool) (bet : Q) (input : string) : Client :=
  mkClient (Some i) admin true bet input NoError.

(** Anna holds [A, K, 7] and a 5 that the table has already shown. *)
Definition db_final : Store :=
  mkStore
    (Some (table final 3 0 [card "5" "♣"; card "9" "♥"] 2 ""))
    [ seat "p1" "anna" 10 false 0 (Some (hand_AK7 ++ [card "5" "♦"])%list);
      seat "p2" "Bot_Alpha" 100 true 1 (Some [card "9" "♠"; card "Q" "♥"; card "A" "♣"]) ]
    [].

(** Every hand on the table is made of deck cards. *)
Definition deckHands (ps : list Player) : bool :=
  forallb (fun p => match hand p with Some h => forallb validCard h | None => true end) ps.

(** The conditions under which the admin effect schedules the bots'
    declarations. *)
Definition adminInFinal (c : Client) (gs : GameState) : bool :=
  isConnected c && isAdminMode c && negb (waitingForDealer gs)
  && match phase gs with final => true | _ => false end.

(** A bot the admin effect declares for. *)
Definition undeclaredBot (p : Player) : bool :=
  negb (folded p) && negb (username p =? "")%string && isBot p && negb (isSome (choice p)).

(** No two cards of the list agree on value and suit. *)
Fixpoint distinctCards (l : list CardObj) : bool :=
  match l with
  | [] => true
  | c :: r => negb (existsb (fun x => sameCard x c) r) && distinctCards r
  end.

Definition handOf (p : Player) : list CardObj :=
  match hand p with Some h => h | None => [] end.

(** What the discard leaves of a player, given the revealed card it works
    from. *)
Definition discarded (r : CardObj) (p : Player) : Player :=
  match filter (fun c => (value c =? value r)%string) (handOf p) with
  | [] => p
  | removed =>
      set_player_field
        (F_discardedCards (uniqueDiscarded (discardedCards p ++ removed)%list))
        (set_player_field (F_hand (filter (fun c => negb (value c =? value r)%string) (handOf p))) p)
  end.

(** The table shows a 5; Carla holds two 5s and a 9. *)
Definition db_discard : Store :=
  mkStore
    (Some (table betting 0 0 [card "K" "♥"; card "5" "♣"] 4 ""))
    [ seat "p1" "carla" 10 false 0 (Some [card "5" "♥"; card "5" "♠"; card "9" "♦"]);
      seat "p2" "dario" 10 false 1 (Some [card "2" "♥"; card "3" "♠"]) ]
    [].

(** One card is still to come, and it will be a 5 (draw 4 of the values that
    are left once the 9 is out); Elio holds a 5. *)
Definition db_last_reveal : Store :=
  mkStore
    (Some (table revealing 3 (1 # 2) [card "9" "♥"] 2 "p1"))
    [ mkPlayer "p1" "elio" 10 false false (1 # 2) None None 0 true false
               (Some [card "5" "♦"; card "K" "♠"]) (1 # 2)
               (Some [card "5" "♦"; card "K" "♠"]) [] ]
    [].

(** A player after the reset that every reveal performs. *)
Definition afterReveal (p : Player) : Player :=
  set_player_field (F_hasActed false) (set_player_field (F_lastBet 0) p).

(** The values a reveal may still draw. *)
Definition availableValues (gs : GameState) : list string :=
  filter (fun v => negb (includes v (map value (revealedCards gs)))) VALUES.

(** The amount a bet is placed at: two decimals, at most 2.00. *)
Definition effectiveBet (c : Client) : Q :=
  if Qlt_bool 2 (toFixed2 (betAmount c)) then 2 else toFixed2 (betAmount c).

(** What the bettor still has to pay for it. *)
Definition betDiff (c : Client) (me : Player) : Q :=
  max0 (toFixed2 (effectiveBet c - orElse (lastBet me) 0)).

(** The least amount the table takes. *)
Definition minBet (gs : GameState) : Q := orElse (currentBet gs) (1 # 10).

(** The [updates] object and the table fields of a bet that goes through. *)
Definition betUpdates (c : Client) (db : Store) (gs : GameState) (me : Player)
  : list Update :=
  ((if Qlt_bool (currentBet gs) (effectiveBet c) then
      map (fun i => (i, F_hasActed false))
          (filter (fun i => negb (i =? id me)%string) (keys (players db)))
    else []) ++
   [ (id me, F_balance (toFixed2 (balance me - betDiff c me)));
     (id me, F_lastBet (effectiveBet c));
     (id me, F_hasActed true);
     (id me, F_totalBetThisHand (orElse (totalBetThisHand me) 0 + betDiff c me)) ])%list.

Definition betFields (c : Client) (db : Store) (gs : GameState) (me : Player)
  : list StateField :=
  [ S_pot (toFixed2 (orElse (pot gs) 0 + betDiff c me));
    S_currentBet (effectiveBet c);
    S_currentPlayerTurn (orEmpty (getNextActivePlayerId (gameState db) (players db))) ].

(** What can happen inside one betting segment, each with the browser that
    does it. *)
Inductive Action :=
| Bet (c : Client)
| Check (c : Client)
| Fold (c : Client)
| BotTurn (c : Client).

Definition step (a : Action) (db : Store) : Store :=
  match a with
  | Bet c => r_store (handleBet c db)
  | Check c => r_store (handleCheck c db)
  | Fold c => r_store (handleFold c db)
  | BotTurn c => botTurn c db
  end.

Definition run (acts : list Action) (db : Store) : Store :=
  fold_left (fun s a => step a s) acts db.



(** Bruno has staked 0.50 of the 1.00 the table asks; it is his turn. *)
Definition db_betting : Store :=
  mkStore
    (Some (table betting 3 1 [card "9" "♥"] 4 "p2"))
    [ mkPlayer "p1" "anna" 9 true false 1 None None 0 true false
               (Some hand_AK7) 1 (Some hand_AK7) [];
      mkPlayer "p2" "bruno" (19 # 2) false false (1 # 2) None None 1 true false
               (Some [card "2" "♥"; card "3" "♠"]) (1 # 2)
               (Some [card "2" "♥"; card "3" "♠"]) [];
      mkPlayer "p3" "carla" 9 false false 1 None None 2 true false
               (Some [card "4" "♥"; card "6" "♠"]) 1
               (Some [card "4" "♥"; card "6" "♠"]) [] ]
    [].

(** ** The split as the specification words it *)

Definition minGroup (ps : list Player) : list Player :=
  filter (hasChoice Cmin) (declaredPlayers ps).

Definition maxGroup (ps : list Player) : list Player :=
  filter (hasChoice Cmax) (declaredPlayers ps).

(** [p] holds the numeric minimum (maximum) of the group. *)
Definition lowest (group : list Player) (p : Player) : bool :=
  forallb (fun q => (scoreOf p <=? scoreOf q)%Z) group.

Definition highest (group : list Player) (p : Player) : bool :=
  forallb (fun q => (scoreOf q <=? scoreOf p)%Z) group.

Definition minWinnersOf (ps : list Player) : list Player :=
  filter (lowest (minGroup ps)) (minGroup ps).

Definition maxWinnersOf (ps : list Player) : list Player :=
  filter (highest (maxGroup ps)) (maxGroup ps).

(** Half the pot for each group when both have players, else all of it. *)
Definition groupShare (thePot : Q) (ps : list Player) : Q :=
  if nonEmpty (minGroup ps) && nonEmpty (maxGroup ps) then thePot / 2 else thePot.

Definition withBalance (q : Q) (p : Player) : Player := set_player_field (F_balance q) p.

(** A winner's balance after the split of [share] among [n] winners. *)
Definition paid (share : Q) (n : nat) (p : Player) : Player :=
  withBalance (toFixed2 (balance p + toFixed2 (share / inject_Z (Z.of_nat n)))) p.

Definition declaredSeat (i name : string) (bal : Q) (ch : Choice) (score : Z) : Player :=
  mkPlayer i name bal false false 0 (Some score) (Some ch) 0 true false None 0 None [].

(** Pot 10.00; A and B declare 5 under "min", C declares 20 under "max". *)
Definition db_settle : Store :=
  mkStore
    (Some (table final 10 0 [card "9" "♥"; card "5" "♣"] 2 ""))
    [ declaredSeat "a" "A" 1 Cmin 5;
      declaredSeat "b" "B" 2 Cmin 5;
      declaredSeat "c" "C" 3 Cmax 20 ]
    [].

(** A settlement that pays: the override names a seated player, or some
    player has declared. *)
Definition settles (specialWinnerId : option string) (db : Store) : bool :=
  match specialWinnerId with
  | Some (String a r) => isSome (lookup (String a r) (players db))
  | _ => nonEmpty (declaredPlayers (players db))
  end.

(** Three cards are still to come; the table shows a 9 and Fabio still holds
    one. *)
Definition db_mid_reveal : Store :=
  mkStore
    (Some (table revealing 3 (1 # 2) [card "9" "♥"] 4 "p1"))
    [ mkPlayer "p1" "fabio" 10 false false (1 # 2) None None 0 true false
               (Some [card "9" "♠"; card "5" "♦"; card "K" "♠"]) (1 # 2)
               (Some [card "9" "♠"; card "5" "♦"; card "K" "♠"]) [] ]
    [].

(** * The rest of the round engine *)

(** Every value of [VALUES] lies on the table. *)
Definition tableFull (gs : GameState) : bool :=
  forallb (fun v => includes v (map value (revealedCards gs))) VALUES.

(** The players a turn can go to: not folded, with money left. *)
Definition activePlayers (ps : list Player) : list Player :=
  filter (fun p => negb (folded p) && Qlt_bool 0 (balance p)) ps.

(** A, B and C sit in this order; B has folded and it is A's turn. *)
Definition db_three : Store :=
  mkStore
    (Some (table betting 3 1 [card "9" "♥"] 4 "a"))
    [ mkPlayer "a" "A" 9 true false 1 None None 0 true false None 1 None [];
      mkPlayer "b" "B" 9 false false 1 None None 1 true true None 1 None [];
      mkPlayer "c" "C" 9 false false 0 None None 2 false false None 0 None [] ]
    [].

(** ** Money on the table *)

Fixpoint sumQ (f : Player -> Q) (ps : list Player) : Q :=
  match ps with
  | [] => 0
  | p :: r => f p + sumQ f r
  end.

Definition tablePot (db : Store) : Q :=
  match gameState db with Some gs => pot gs | None => 0 end.

(** All the money in play: the balances and the pot. *)
Definition chips (db : Store) : Q := sumQ balance (players db) + tablePot db.

Definition touchesMoney (u : Update) : bool :=
  match snd u with
  | F_balance _ | F_totalBetThisHand _ => true
  | _ => false
  end.

(** The conditions under which the bot effect acts for the turn holder. *)
Definition botMayAct (c : Client) (gs : GameState) : bool :=
  isConnected c && match phase gs with betting => true | _ => false end
  && negb (waitingForDealer gs).

(** What the bot whose turn it is still owes. *)
Definition botDiff (gs : GameState) (bot : Player) : Q :=
  max0 (toFixed2 (orElse (currentBet gs) 0 - orElse (lastBet bot) 0)).

(** Dora the bot owes 0.50 of the 1.00 the table asks; it is her turn. *)
Definition db_bot : Store :=
  mkStore
    (Some (table betting 3 1 [card "9" "♥"] 4 "p2"))
    [ mkPlayer "p1" "anna" 9 true false 1 None None 0 true false
               (Some hand_AK7) 1 (Some hand_AK7) [];
      mkPlayer "p2" "Bot_Alpha" (19 # 2) false true (1 # 2) None None 1 false false
               (Some [card "2" "♥"; card "3" "♠"]) (1 # 2)
               (Some [card "2" "♥"; card "3" "♠"]) [] ]
    [].

(** ** Shuffling and dealing *)

(** [a[n] = x] on an index of the array. *)
Fixpoint upd {A : Type} (l : list A) (n : nat) (x : A) : list A :=
  match l, n with
  | [], _ => []
  | _ :: r, O => x :: r
  | a :: r, S n' => a :: upd r n' x
  end.

(** [[a[i], a[j]] = [a[j], a[i]]] *)
Definition swap {A : Type} (a : list A) (i j : nat) : list A :=
  match nth_error a i, nth_error a j with
  | Some x, Some y => upd (upd a i y) j x
  | _, _ => a
  end.

(** The loop of [shuffle] from index [i] down to 1; [rand i] is the draw of
    step [i], so that [Math.floor(Math.random() * (i + 1))] is
    [rand i mod (i + 1)]. *)
Fixpoint shuffleFrom {A : Type} (rand : nat -> nat) (i : nat) (a : list A) : list A :=
  match i with
  | O => a
  | S i' => shuffleFrom rand i' (swap a i (Nat.modulo (rand i) (i + 1)))
  end.

Definition shuffle {A : Type} (rand : nat -> nat) (arr : list A) : list A :=
  shuffleFrom rand (List.length arr - 1) arr.

(** The inner loop of [dealHands]: [n] cards from [deckIndex] on, going back
    to the top of the deck when it runs out; the hand and the index after
    it. *)
Fixpoint drawCards (deck : list CardObj) (n : nat) (deckIndex : nat)
  : list CardObj * nat :=
  match n with
  | O => ([], deckIndex)
  | S n' =>
      let k := if (List.length deck <=? deckIndex)%nat then O else deckIndex in
      let rest := drawCards deck n' (S k) in
      (match nth_error deck k with Some c => c :: fst rest | None => fst rest end, snd rest)
  end.

(** A write of several fields of one seat at once, or of a field that
    [PlayerField] does not list: the key and what becomes of the seat. *)
Definition Patch : Type := string * (Player -> Player).

Definition apply_patch (u : Patch) (p : Player) : Player :=
  if (id p =? fst u)%string then snd u p else p.

Definition db_patch (patches : list Patch) (db : Store) : Store :=
  mkStore (gameState db)
          (fold_left (fun ps u => map (apply_patch u) ps) patches (players db))
          (history db).

(** [hand], [originalHand] and [discardedCards] as [dealHands] writes
    them. *)
Definition dealt (h : list CardObj) (p : Player) : Player :=
  mkPlayer (id p) (username p) (balance p) (isAdmin p) (isBot p) (lastBet p)
           (finalScore p) (choice p) (position p) (hasActed p) (folded p)
           (Some h) (totalBetThisHand p) (Some h) [].

(** The [forEach] of [dealHands] over the named players. *)
Fixpoint dealAll (deck : list CardObj) (n : nat) (allPlayers : list Player)
    (deckIndex : nat) : list Patch :=
  match allPlayers with
  | [] => []
  | p :: r =>
      let h := drawCards deck n deckIndex in
      (id p, dealt (fst h)) :: dealAll deck n r (snd h)
  end.

Definition setHandSizeField (n : Z) (g : GameState) : GameState :=
  mkGameState (phase g) (pot g) (currentBet g) (revealedCards g) (totalCards g) (Some n)
              (adminId g) (dealerIndex g) (currentPlayerTurn g) (waitingForDealer g)
              (isFirstHand g).

(** [dealHands(handSize)]; [ps] is the [players] of the render it belongs
    to, [rand] feeds the shuffle. *)
Definition dealHands (rand : nat -> nat) (handSize : Z) (ps : list Player) (db : Store)
  : Store :=
  let allPlayers := filter (fun p => negb (username p =? "")%string) ps in
  match allPlayers with
  | [] => db
  | _ =>
      let deck := shuffle rand buildDeck in
      let db1 := db_patch (dealAll deck (Z.to_nat handSize) allPlayers 0) db in
      mkStore (option_map (setHandSizeField handSize) (gameState db1))
              (players db1) (history db1)
  end.

Definition cardKey (c : CardObj) : string * string := (value c, suit c).

Definition apply_patches (us : list Patch) (p : Player) : Player :=
  fold_left (fun q u => apply_patch u q) us p.

(** Anna and a bot are seated; a third seat has no name yet. *)
Definition db_lobby : Store :=
  mkStore
    (Some (mkGameState lobby 0 0 [] 5 (Some 3%Z) "p1" 0 "" true true))
    [ seat "p1" "diro" 10 false 0 None;
      seat "p2" "Bot_Alpha" 100 true 1 None;
      seat "p3" "" 5 false 2 None ]
    [].

(** ** Starting, resetting and the dealer gate *)

(** A truthy number. *)
Definition truthyZ (o : option Z) : option Z :=
  match o with
  | Some z => if (z =? 0)%Z then None else Some z
  | None => None
  end.

(** The nine round fields as [startGame] writes them for every key. *)
Definition clearRound (p : Player) : Player :=
  mkPlayer (id p) (username p) (balance p) (isAdmin p) (isBot p) 0 None None
           (position p) false false None 0 None [].

(** [localPlayerId || "admin"] *)
Definition adminIdOf (c : Client) : string :=
  match localId c with Some i => i | None => "admin" end.

(** The dealer [startGame] proposes: the admin's position, else the lowest
    position, else 0. *)
Definition defaultDealer (ps : list Player) : Z :=
  match find isAdmin ps with
  | Some adminPlayer => position adminPlayer
  | None =>
      match sortByPosition ps with
      | firstPlayer :: _ => position firstPlayer
      | [] => 0%Z
      end
  end.

(** [startGame(totalCards)]; [handSizeSelection] is the component state of
    that name, [rand] feeds the shuffle of the deal that the 500 ms timer
    runs. *)
(** [gameState?.handSize], when it is truthy. *)
Definition tableHandSize (db : Store) : option Z :=
  truthyZ (match gameState db with Some gs => handSize gs | None => None end).

(** The patches of [startGame] over the keys of the render's players. *)
Definition startPatches (ps : list Player) : list Patch :=
  map (fun i => (i, clearRound)) (keys ps).

Definition startGame (rand : nat -> nat) (handSizeSelection : option Z) (totalCards : Z)
    (c : Client) (db : Store) : Result * option (Store -> Store) :=
  let fromState := tableHandSize db in
  match truthyZ handSizeSelection, fromState with
  | None, None => (refuse c db [mkToast "Selezione incompleta" true], None)
  | sel, _ =>
      if (totalCards =? 0)%Z then (refuse c db [mkToast "Selezione incompleta" true], None)
      else
        let theHandSize :=
          match sel, fromState with
          | Some n, _ => n
          | None, Some n => n
          | None, None => 5%Z
          end in
        let theTable :=
          mkGameState betting 0 0 [] totalCards (Some theHandSize) (adminIdOf c)
                      (defaultDealer (players db)) "" true true in
        let db1 := mkStore (Some theTable) (players db) (history db) in
        let db2 := db_patch (startPatches (players db)) db1 in
        (mkResult c db2 [mkToast "Partita pronta" false] true,
         Some (dealHands rand theHandSize (players db)))
  end.

(** The start with its timer fired on the document the start left. *)
Definition startAndDeal (rand : nat -> nat) (handSizeSelection : option Z) (totalCards : Z)
    (c : Client) (db : Store) : Store :=
  match startGame rand handSizeSelection totalCards c db with
  | (r, Some timer) => timer (r_store r)
  | (r, None) => r_store r
  end.

Definition confirmDealerAndContinue (db : Store) : Store * list Toast :=
  match gameState db with
  | None => (db, [])
  | Some gs =>
      match find (fun p => (position p =? dealerIndex gs)%Z) (players db) with
      | None => (db, [mkToast "Errore" true])
      | Some dealerPlayer =>
          (state_update
             [ S_waitingForDealer false; S_currentPlayerTurn (id dealerPlayer);
               S_isFirstHand false ] db,
           [mkToast "Dealer confermato" false])
      end
  end.

Definition setDealerIndexField (n : Z) (g : GameState) : GameState :=
  mkGameState (phase g) (pot g) (currentBet g) (revealedCards g) (totalCards g) (handSize g)
              (adminId g) n (currentPlayerTurn g) (waitingForDealer g) (isFirstHand g).

Definition setManualDealer (i : string) (db : Store) : Store :=
  match lookup i (players db) with
  | Some p =>
      mkStore (option_map (setDealerIndexField (position p)) (gameState db))
              (players db) (history db)
  | None => db
  end.

(** ** The admin effect *)

(** The players that have not folded, in position order. *)
Definition seated (ps : list Player) : list Player :=
  sortByPosition (filter (fun p => negb (folded p)) ps).

(** Everybody still in has acted and has matched the table's bet. *)
Definition bettingComplete (gs : GameState) (ps : list Player) : bool :=
  forallb hasActed (seated ps)
  && forallb (fun p => Qeq_bool (lastBet p) (currentBet gs)) (seated ps).

(** One run of the admin effect, with the timer it sets fired: [rv], [rs]
    feed a reveal, [flips] the bots' declarations, [now] the settlement. *)
Definition adminEffect (rv rs : nat) (flips : nat -> bool) (now : Z) (c : Client)
    (db : Store) : Store :=
  match gameState db with
  | None => db
  | Some gs =>
      if negb (isConnected c) || negb (isAdminMode c) then db
      else if waitingForDealer gs then db
      else
        match seated (players db) with
        | [] => db
        | firstSeated :: _ =>
            match phase gs with
            | betting =>
                if bettingComplete gs (players db) then state_update [S_phase revealing] db
                else if (currentPlayerTurn gs =? "")%string then
                  let dealerPlayer :=
                    match find (fun p => (position p =? dealerIndex gs)%Z)
                               (seated (players db)) with
                    | Some p => p
                    | None => firstSeated
                    end in
                  state_update [S_currentPlayerTurn (id dealerPlayer)] db
                else db
            | revealing => revealAndSettle rv rs c db
            | final =>
                let activePlayers :=
                  filter (fun p => negb (username p =? "")%string) (seated (players db)) in
                let declarations :=
                  filter (fun p => isSome (choice p) && isSome (finalScore p)) activePlayers in
                let botsWithoutChoice :=
                  filter (fun p => isBot p && negb (isSome (choice p))) activePlayers in
                match botsWithoutChoice with
                | _ :: _ => botAutoDeclare flips c db
                | [] =>
                    if (List.length declarations =? List.length activePlayers)%nat
                       && (0 <? List.length activePlayers)%nat
                    then fst (calculateWinners None now db)
                    else db
                end
            | _ => db
            end
        end
  end.

(** Anna and Bruno have staked 1 and 0.50 in a hand whose pot is 1.50. *)
Definition db_staked : Store :=
  mkStore
    (Some (mkGameState betting (3 # 2) 1 [card "9" "♥"] 4 (Some 2%Z) "p1" 1 "p2" false false))
    [ mkPlayer "p1" "anna" 9 true false 1 None None 0 true false
               (Some [card "A" "♥"; card "K" "♠"]) 1
               (Some [card "A" "♥"; card "K" "♠"]) [];
      mkPlayer "p2" "bruno" (19 # 2) false false (1 # 2) None None 1 true true
               (Some [card "2" "♥"; card "3" "♠"]) (1 # 2)
               (Some [card "2" "♥"; card "3" "♠"]) [] ]
    [].



(** ** Seats: bots are added, humans are removed *)

(** The record that [joinGame], [handleAdminLogin] and [handleAddBot] set
    for a new seat. *)
Definition newSeat (i name : string) (bal : Q) (admin bot : bool) (pos : Z) : Player :=
  mkPlayer i name bal admin bot 0 None None pos false false None 0 None [].

(** [db.ref(`game/players/${id}`).set(p)]: the seat of that key is
    replaced; a new key comes last. *)
Definition db_set_player (p : Player) (db : Store) : Store :=
  mkStore (gameState db)
          (if includes (id p) (keys (players db))
           then map (fun q => if (id q =? id p)%string then p else q) (players db)
           else (players db ++ [p])%list)
          (history db).

Definition botNames : list string :=
  ["Bot_Alpha"; "Bot_Beta"; "Bot_Gamma"; "Bot_Delta"; "Bot_Epsilon"].

(** [handleAddBot]; [botId] is the key that [push()] hands out, [rnd] the
    random draw of the fallback name. *)
Definition handleAddBot (botId : string) (rnd : nat) (db : Store) : Store * list Toast :=
  let usedNames := map username (players db) in
  let availableNames := filter (fun name => negb (includes name usedNames)) botNames in
  let name :=
    match availableNames with
    | first :: _ => first
    | [] => ("Bot_" ++ NilEmpty.string_of_uint (Nat.to_uint (Nat.modulo rnd 1000)))%string
    end in
  let pos := Z.of_nat (List.length (keys (players db))) in
  (db_set_player (newSeat botId name 100 false true pos) db,
   [mkToast "Bot aggiunto" false]).

(** The record [deletePlayersSoft] writes for a seat that stays. *)
Definition softReset (pos : Z) (bal : Q) (player : Player) : Player :=
  mkPlayer (id player) (username player) bal (isAdmin player) (isBot player) 0 None None
           pos false false None 0 None [].

(** The [updates] object of [deletePlayersSoft]: for every key of the
    snapshot the new record, or [None] for a seat that is removed. *)
Fixpoint softUpdates (lid : string) (allPlayers : list Player) (ks : list string)
    (positionIndex : Z) : list (string * option Player) :=
  match ks with
  | [] => []
  | i :: r =>
      match lookup i allPlayers with
      | None => softUpdates lid allPlayers r positionIndex
      | Some player =>
          if (i =? lid)%string then
            (i, Some (softReset positionIndex (balance player) player))
              :: softUpdates lid allPlayers r (positionIndex + 1)
          else if isBot player then
            (i, Some (softReset positionIndex 100 player))
              :: softUpdates lid allPlayers r (positionIndex + 1)
          else (i, None) :: softUpdates lid allPlayers r positionIndex
      end
  end.

Definition assoc {A : Type} (i : string) (l : list (string * A)) : option A :=
  option_map snd (find (fun u => (fst u =? i)%string) l).

(** [playersRef.update(updates)] with whole records and [null]s. *)
Definition db_players_update (us : list (string * option Player)) (db : Store) : Store :=
  mkStore (gameState db)
          (flat_map (fun q => match assoc (id q) us with
                              | Some (Some q') => [q']
                              | Some None => []
                              | None => [q]
                              end) (players db))
          (history db).

(** The table fields [deletePlayersSoft] writes. *)
Definition lobbyTable (g : GameState) : GameState :=
  mkGameState lobby 0 0 [] 5 (Some 5%Z) (adminId g) 0 "" true true.

Definition deletePlayersSoft (c : Client) (db : Store) : Store * list Toast :=
  match localId c with
  | None => (db, [])
  | Some lid =>
      let updates := softUpdates lid (players db) (keys (players db)) 0 in
      let db1 := db_players_update updates db in
      (mkStore (option_map lobbyTable (gameState db1)) (players db1) [],
       [mkToast "Giocatori eliminati" false])
  end.

(** The positions are 0, 1, 2, ... in the order of the keys. *)
Definition densePositions (ps : list Player) : Prop :=
  map position ps = map Z.of_nat (seq 0 (List.length ps)).

(** The seats [deletePlayersSoft] keeps. *)
Definition keptSeat (lid : string) (p : Player) : bool :=
  (id p =? lid)%string || isBot p.

(** A table after a hand: Anna is the admin, Bruno a guest, two bots. *)
Definition db_crowd : Store :=
  mkStore
    (Some (mkGameState results 3 1 [card "9" "♥"] 4 (Some 2%Z) "p1" 1 "p2" false false))
    [ mkPlayer "p0" "bruno" 4 false false 1 None None 0 true false None 1 None [];
      mkPlayer "p1" "diro" 9 true false 1 None None 0 true false None 1 None [];
      mkPlayer "p2" "Bot_Alpha" 80 false true 1 None None 2 true true None 1 None [];
      mkPlayer "p3" "Bot_Beta" 120 false true 0 None None 3 false false None 0 None [] ]
    [].

(** The seats that are left, read off the players in key order. *)
Fixpoint softPlayers (lid : string) (l : list Player) (positionIndex : Z) : list Player :=
  match l with
  | [] => []
  | player :: r =>
      if (id player =? lid)%string then
        softReset positionIndex (balance player) player
          :: softPlayers lid r (positionIndex + 1)
      else if isBot player then
        softReset positionIndex 100 player :: softPlayers lid r (positionIndex + 1)
      else softPlayers lid r positionIndex
  end.


(** * Amounts as binary64 numbers

    The definitions above take an amount as the exact rational it stands
    for; that is all the theorems about guards, turns, cards and
    declarations need. What the code writes into a balance, a stake or the
    pot is a JavaScript number, a binary64 floating-point number. The
    module below embeds the handlers that compute amounts once more, with
    the arithmetic of binary64: a number is represented by the rational
    that is its exact value, every [+], [-] and [/] rounds its exact result
    to the nearest binary64 number (ties to even), and
    [parseFloat(x.toFixed(2))] picks the integer [n] nearest to [100 x]
    (the larger in magnitude of two) and reads the decimal [n / 100] back
    as the nearest binary64 number. Numbers at or beyond 2^1024 (where the
    code would produce [Infinity]) are outside the embedding; the theorems
    that depend on it bound the amounts. *)

Module Binary64.

(** [floor (log2 y)] for a positive [y]. *)
Definition ilog2 (y : Q) : Z :=
  if Qle_bool 1 y then Z.log2 (Qfloor y) else (- Z.log2_up (Qceiling (/ y)))%Z.

(** The nearest integer, ties to the even one. *)
Definition round_even (y : Q) : Z :=
  let f := Qfloor y in
  let r := y - inject_Z f in
  if Qlt_bool r (1 # 2) then f
  else if Qlt_bool (1 # 2) r then (f + 1)%Z
  else if Z.even f then f else (f + 1)%Z.

(** The binary64 number nearest to [x], ties to even: 53 significant bits,
    least exponent -1022 (subnormal numbers included). *)
Definition round64 (x : Q) : Q :=
  let y := Qred x in
  if Qeq_bool y 0 then 0
  else
    let e := Z.max (ilog2 (Qabs y)) (-1022) in
    let ulp := 2 ^ (e - 52) in
    inject_Z (round_even (y / ulp)) * ulp.

Definition add (x y : Q) : Q := round64 (x + y).
Definition sub (x y : Q) : Q := round64 (x - y).
Definition div (x y : Q) : Q := round64 (x / y).

(** [parseFloat(x.toFixed(2))]: from 10^21 on, [toFixed] prints the number
    itself. *)
Definition toFixed2 (x : Q) : Q :=
  if Qle_bool (10 ^ 21) (Qabs x) then x
  else round64 (round_half_away (x * 100) # 100).

(** The binary64 number that the decimal [n / 100] denotes. *)
Definition cent (n : Z) : Q := round64 (n # 100).

(** [x] is the amount of [n] cents, up to a tenth of a cent, and below a
    million millions. *)
Definition near (x : Q) (n : Z) : Prop :=
  Qabs (x - (n # 100)) <= 1 # 1000 /\ (Z.abs n <= 10 ^ 14)%Z.

(** The amount is far from the overflow of binary64. *)
Definition inRange (x : Q) : Prop := Qabs x <= 2 ^ 1000.

(** ** Betting *)

Definition handleBet (c : Client) (db : Store) : Result :=
  match gameState db, currentUser c db, localId c with
  | Some gs, Some me, Some lid =>
      if waitingForDealer gs then
        refuse c db [mkToast "Azione bloccata" true]
      else if negb (isAdminMode c) && negb (currentPlayerTurn gs =? lid)%string then
        refuse c db [mkToast "Non è il tuo turno" true]
      else
        let betVal0 := toFixed2 (betAmount c) in
        let over := Qlt_bool 2 betVal0 in
        let betVal := if over then 2 else betVal0 in
        let c1 :=
          if over then
            mkClient (localPlayerId c) (isAdminMode c) (isConnected c) 2
                     (finalScoreInput c) (validationError c)
          else c in
        let ts := if over then [mkToast "Limite di puntata" false] else [] in
        let minBet := orElse (currentBet gs) (round64 (1 # 10)) in
        if Qlt_bool betVal minBet then
          refuse c1 db (ts ++ [mkToast "Puntata non valida" true])%list
        else
          let last := orElse (lastBet me) 0 in
          let diff := max0 (toFixed2 (sub betVal last)) in
          if Qlt_bool (balance me) diff then
            refuse c1 db (ts ++ [mkToast "Saldo insufficiente" true])%list
          else
            let raise :=
              if Qlt_bool (currentBet gs) betVal then
                map (fun i => (i, F_hasActed false))
                    (filter (fun i => negb (i =? lid)%string) (keys (players db)))
              else [] in
            let updates :=
              (raise ++
               [ (lid, F_balance (toFixed2 (sub (balance me) diff)));
                 (lid, F_lastBet betVal);
                 (lid, F_hasActed true);
                 (lid, F_totalBetThisHand (add (orElse (totalBetThisHand me) 0) diff)) ])%list in
            let nextPlayerId := getNextActivePlayerId (gameState db) (players db) in
            let db1 :=
              state_update
                [ S_pot (toFixed2 (add (orElse (pot gs) 0) diff));
                  S_currentBet betVal;
                  S_currentPlayerTurn (orEmpty nextPlayerId) ] db in
            mkResult c1 (db_update updates db1) ts true
  | _, _, _ => refuse c db [mkToast "Azione bloccata" true]
  end.

(** The delayed action of the bot effect, for the bot whose turn it is. *)
Definition botTurn (c : Client) (db : Store) : Store :=
  match gameState db with
  | None => db
  | Some gs =>
      if negb (isConnected c) || negb (match phase gs with betting => true | _ => false end)
         || waitingForDealer gs
      then db
      else
        let currentTurnId := currentPlayerTurn gs in
        if (currentTurnId =? "")%string then db
        else
          match lookup currentTurnId (players db) with
          | None => db
          | Some currentPlayer =>
              if negb (isBot currentPlayer) then db
              else
                let cb := orElse (currentBet gs) 0 in
                let last := orElse (lastBet currentPlayer) 0 in
                let bal := orElse (balance currentPlayer) 0 in
                let diff := max0 (toFixed2 (sub cb last)) in
                let next := orEmpty (getNextActivePlayerId (gameState db) (players db)) in
                if Qeq_bool cb 0 || Qle_bool cb last then
                  state_update [S_currentPlayerTurn next]
                    (db_update [(currentTurnId, F_hasActed true); (currentTurnId, F_lastBet cb)] db)
                else if Qlt_bool bal diff then
                  state_update [S_currentPlayerTurn next]
                    (db_update [(currentTurnId, F_folded true); (currentTurnId, F_hasActed true)] db)
                else
                  db_update
                    [ (currentTurnId, F_balance (toFixed2 (sub bal diff)));
                      (currentTurnId, F_lastBet cb);
                      (currentTurnId, F_hasActed true);
                      (currentTurnId,
                       F_totalBetThisHand (add (orElse (totalBetThisHand currentPlayer) 0) diff)) ]
                    (state_update
                       [ S_pot (toFixed2 (add (orElse (pot gs) 0) diff));
                         S_currentPlayerTurn next ] db)
          end
  end.

(** ** Settlement *)

Definition settleGroup (best : list Z -> Z) (tag : bool -> WinTag) (share : Q)
    (group : list Player) : list Update * list WinnerInfo :=
  match group with
  | [] => ([], [])
  | _ =>
      let scores := map scoreOf group in
      let bestScore := best scores in
      let groupWinners := filter (fun p => (scoreOf p =? bestScore)%Z) group in
      let splitAmount := toFixed2 (div share (lengthQ groupWinners)) in
      (map (fun w => (id w, F_balance (toFixed2 (add (balance w) splitAmount)))) groupWinners,
       map (fun w => mkWinnerInfo (username w) splitAmount
                       (tag (1 <? List.length groupWinners)%nat)) groupWinners)
  end.

(** [calculateWinners(specialWinnerId)]; [now] is [Date.now()]. *)
Definition calculateWinners (specialWinnerId : option string) (now : Z) (db : Store)
  : Store * list Toast :=
  match gameState db with
  | None => (db, [])
  | Some gs =>
      let thePot := orElse (pot gs) 0 in
      let finish (updates : list Update) (winnersInfo : list WinnerInfo) :=
        let db1 := db_update updates db in
        let db2 :=
          match winnersInfo with
          | [] => db1
          | _ =>
              mkStore (gameState db1) (players db1)
                      (history db1 ++ [mkHistoryEntry winnersInfo thePot now])%list
          end in
        state_update [S_phase results; S_isFirstHand false] db2 in
      match specialWinnerId with
      | Some (String a r) =>
          match lookup (String a r) (players db) with
          | Some winnerObj =>
              (finish [(id winnerObj, F_balance (toFixed2 (add (balance winnerObj) thePot)))]
                      [mkWinnerInfo (username winnerObj) thePot LasVegas], [])
          | None => (finish [] [], [])
          end
      | _ =>
          let playerList := declaredPlayers (players db) in
          match playerList with
          | [] => (db, [mkToast "Nessun vincitore" true])
          | _ =>
              let minPlayers := filter (hasChoice Cmin) playerList in
              let maxPlayers := filter (hasChoice Cmax) playerList in
              let share :=
                if nonEmpty minPlayers && nonEmpty maxPlayers then div thePot 2 else thePot in
              let mins := settleGroup Math_min TagMin share minPlayers in
              let maxs := settleGroup Math_max TagMax share maxPlayers in
              (finish (fst mins ++ fst maxs)%list (snd mins ++ snd maxs)%list, [])
          end
      end
  end.

(** ** Resetting a hand *)

(** What [resetHand] writes for a key whose seat reads [player]. *)
Definition refunded (player : Player) (q : Player) : Player :=
  let betThisHand := orElse (totalBetThisHand player) 0 in
  mkPlayer (id q) (username q)
           (if Qlt_bool 0 betThisHand then toFixed2 (add (balance player) betThisHand)
            else balance q)
           (isAdmin q) (isBot q) 0 None None (position q) false false None 0 None [].

Definition resetPatches (ps : list Player) : list Patch :=
  flat_map (fun i => match lookup i ps with
                     | Some player => [(i, refunded player)]
                     | None => []
                     end)
           (keys ps).

Definition resetHand (db : Store) : Store * list Toast :=
  match gameState db with
  | None => (db, [])
  | Some gs =>
      let updates := resetPatches (players db) in
      (state_update
         [ S_phase betting; S_pot 0; S_currentBet 0; S_revealedCards [];
           S_currentPlayerTurn ""; S_waitingForDealer true; S_isFirstHand false ]
         (db_patch updates db),
       [mkToast "Mano resettata" false])
  end.

(** ** Names for the statements *)

(** The amount of a bet: the input at two decimals, capped at 2.00. *)
Definition effectiveBet (c : Client) : Q :=
  if Qlt_bool 2 (toFixed2 (betAmount c)) then 2 else toFixed2 (betAmount c).

(** What the bettor still has to pay for it. *)
Definition betDiff (c : Client) (me : Player) : Q :=
  max0 (toFixed2 (sub (effectiveBet c) (orElse (lastBet me) 0))).

Definition betUpdates (c : Client) (db : Store) (gs : GameState) (me : Player)
  : list Update :=
  ((if Qlt_bool (currentBet gs) (effectiveBet c) then
      map (fun i => (i, F_hasActed false))
          (filter (fun i => negb (i =? id me)%string) (keys (players db)))
    else []) ++
   [ (id me, F_balance (toFixed2 (sub (balance me) (betDiff c me))));
     (id me, F_lastBet (effectiveBet c));
     (id me, F_hasActed true);
     (id me, F_totalBetThisHand (add (orElse (totalBetThisHand me) 0) (betDiff c me))) ])%list.

Definition betFields (c : Client) (db : Store) (gs : GameState) (me : Player)
  : list StateField :=
  [ S_pot (toFixed2 (add (orElse (pot gs) 0) (betDiff c me)));
    S_currentBet (effectiveBet c);
    S_currentPlayerTurn (orEmpty (getNextActivePlayerId (gameState db) (players db))) ].

(** What the bot still owes. *)
Definition botDiff (gs : GameState) (bot : Player) : Q :=
  max0 (toFixed2 (sub (orElse (currentBet gs) 0) (orElse (lastBet bot) 0))).

(** Half the pot for each group when both have players, else all of it. *)
Definition groupShare (thePot : Q) (ps : list Player) : Q :=
  if nonEmpty (minGroup ps) && nonEmpty (maxGroup ps) then div thePot 2 else thePot.

(** The split of [share] among [n] winners. *)
Definition splitOf (share : Q) (n : nat) : Q :=
  toFixed2 (div share (inject_Z (Z.of_nat n))).

(** A winner's balance after the split of [share] among [n] winners. *)
Definition paid (share : Q) (n : nat) (p : Player) : Player :=
  withBalance (toFixed2 (add (balance p) (splitOf share n))) p.

(** ** A betting segment *)

(** [handleCheck] and [handleFold] compare amounts and compute none. *)
Definition step (a : Action) (db : Store) : Store :=
  match a with
  | Bet c => r_store (handleBet c db)
  | Check c => r_store (handleCheck c db)
  | Fold c => r_store (handleFold c db)
  | BotTurn c => botTurn c db
  end.

Definition run (acts : list Action) (db : Store) : Store :=
  fold_left (fun s a => step a s) acts db.

End Binary64.

(** ** Money in whole cents *)

(** The whole cents nearest to an amount. *)
Definition centsOf (x : Q) : Z := round_half_away (x * 100).

(** An amount that is not negative and a whole number of cents, up to a
    tenth of a cent, below a million millions. *)
Definition wholeCents (x : Q) : Prop :=
  Binary64.near x (centsOf x) /\ (0 <= centsOf x)%Z.

Definition sumZ (F : Player -> Z) (ps : list Player) : Z :=
  fold_right (fun p s => (F p + s)%Z) 0%Z ps.

(** All the money in play, in cents: the balances and the pot. *)
Definition totalCents (db : Store) : Z :=
  (sumZ (fun p => centsOf (balance p)) (players db) + centsOf (tablePot db))%Z.

(** Balances, last bets, the pot and the table's bet are whole cents. *)
Definition tableInCents (db : Store) : Prop :=
  Forall (fun p => wholeCents (balance p) /\ wholeCents (lastBet p)) (players db)
  /\ match gameState db with
     | Some gs => wholeCents (pot gs) /\ wholeCents (currentBet gs)
     | None => True
     end.

Definition touchesAmount (u : Update) : bool :=
  match snd u with
  | F_balance _ | F_lastBet _ => true
  | _ => false
  end.

(** Pot 0.30; A and B declare 5 under "min", C declares 20 under "max". *)
Definition db_thirty : Store :=
  mkStore
    (Some (table final (Binary64.cent 30) 0 [card "9" "♥"; card "5" "♣"] 2 ""))
    [ declaredSeat "a" "A" 1 Cmin 5;
      declaredSeat "b" "B" 2 Cmin 5;
      declaredSeat "c" "C" 3 Cmax 20 ]
    [].

(** A guest who joined with a budget of 1.005 is to act on a fresh table. *)
Definition db_odd : Store :=
  mkStore
    (Some (table betting 0 0 [] 4 "p1"))
    [ mkPlayer "p1" "guest" (Binary64.round64 (1005 # 1000)) false false 0 None None 0
               false false None 0 None [];
      mkPlayer "p2" "anna" 9 false false 0 None None 1 false false None 0 None [] ]
    [].

(** ** The seat order, in the words of the rules

    [nxt] is the player the turn goes to after [turn]: a player who can
    still act (not folded, with money left), other than the turn holder;
    when the turn holder can act, nobody who can act sits between the two,
    and if [nxt] sits before the turn holder then the turn holder is the
    last and [nxt] the first of those who can act; when the turn holder
    cannot act (or there is none), [nxt] is the first of those who can. *)
Definition canAct (p : Player) : Prop := folded p = false /\ 0 < balance p.

Definition nextInSeatOrder (ps : list Player) (turn : string) (nxt : Player) : Prop :=
  In nxt ps /\ canAct nxt /\ id nxt <> turn
  /\ (forall cur, In cur ps -> canAct cur -> id cur = turn ->
        ((position cur < position nxt)%Z ->
         forall q, In q ps -> canAct q ->
           ~ (position cur < position q /\ position q < position nxt)%Z)
        /\ ((position nxt < position cur)%Z ->
            forall q, In q ps -> canAct q ->
              (position nxt <= position q /\ position q <= position cur)%Z))
  /\ ((forall q, In q ps -> canAct q -> id q <> turn) ->
      forall q, In q ps -> canAct q -> (position nxt <= position q)%Z).

(** * Properties *)

(** ** Scoring *)

Lemma validCard_cases (c : CardObj) :
  validCard c = true -> In (value c) VALUES.
Proof.
  unfold validCard, includes. rewrite existsb_exists.
  intros [v [Hin Heq]]. apply String.eqb_eq in Heq. now subst.
Qed.

Lemma cardScore_valid (rule : Choice) (c : CardObj) :
  validCard c = true -> cardScore rule c = Num (spec_cardValue rule (value c)).
Proof.
  intros H. apply validCard_cases in H. unfold cardScore, spec_cardValue.
  simpl in H.
  repeat (destruct H as [H | H]; [rewrite <- H; destruct rule; reflexivity | ]).
  contradiction.
Qed.

Lemma fold_score_valid (rule : Choice) (hand : list CardObj) (a : Z) :
  forallb validCard hand = true ->
  fold_left (fun total card => plus total (cardScore rule card)) hand (Num a)
  = Num (a + spec_scoreHand hand rule).
Proof.
  revert a. induction hand as [| c hand IH]; intros a H; simpl.
  - f_equal. lia.
  - simpl in H. apply andb_true_iff in H as [Hc Hh].
    rewrite (cardScore_valid rule c Hc). simpl. rewrite IH by assumption.
    f_equal. lia.
Qed.

Lemma calculateHandScore_valid (rule : Choice) (hand : list CardObj) :
  forallb validCard hand = true ->
  calculateHandScore hand rule = Num (spec_scoreHand hand rule).
Proof.
  intros H. destruct hand as [| c hand]; [reflexivity |].
  unfold calculateHandScore. now rewrite (fold_score_valid rule (c :: hand) 0 H).
Qed.

Lemma spec_score_aces (hand : list CardObj) :
  spec_scoreHand hand Cmax = (spec_scoreHand hand Cmin + 10 * countAces hand)%Z.
Proof.
  unfold countAces. induction hand as [| c hand IH]; [reflexivity |].
  simpl spec_scoreHand. rewrite IH. simpl filter.
  unfold spec_cardValue. fold (isAce c).
  destruct (isAce c); simpl List.length; lia.
Qed.

(** C6. On every hand of deck cards [calculateHandScore] is the sum of the
    card values of the rule: numerals 2-10 their face value, J, Q, K ten, an
    Ace 1 under "min" and 11 under "max"; the empty hand scores 0, and
    [A, K, 7] scores 18 under "min" and 28 under "max". *)
Theorem calculateHandScore_sums_card_values (hand : list CardObj) (rule : Choice)
    (Hdeck : forallb validCard hand = true) :
  calculateHandScore hand rule = Num (spec_scoreHand hand rule)
  /\ calculateHandScore [] rule = Num 0
  /\ calculateHandScore hand_AK7 Cmin = Num 18
  /\ calculateHandScore hand_AK7 Cmax = Num 28.
Proof.
  split; [now apply calculateHandScore_valid |].
  repeat split; reflexivity.
Qed.

Lemma calculateHandScore_sums_card_values_witness :
  forallb validCard hand_AK7 = true
  /\ calculateHandScore hand_AK7 Cmax = Num (spec_scoreHand hand_AK7 Cmax).
Proof.
  split; [reflexivity |].
  exact (proj1 (calculateHandScore_sums_card_values hand_AK7 Cmax eq_refl)).
Defined.

(** C7. On every hand of deck cards the "min" score is at most the "max"
    score; the gap is ten per Ace, so the two are equal when the hand holds
    no Ace. *)
Theorem min_score_le_max_score (hand : list CardObj)
    (Hdeck : forallb validCard hand = true) :
  exists lo hi : Z,
    calculateHandScore hand Cmin = Num lo
    /\ calculateHandScore hand Cmax = Num hi
    /\ (lo <= hi)%Z
    /\ hi = (lo + 10 * countAces hand)%Z
    /\ (existsb isAce hand = false -> lo = hi).
Proof.
  exists (spec_scoreHand hand Cmin), (spec_scoreHand hand Cmax).
  split; [now apply calculateHandScore_valid |].
  split; [now apply calculateHandScore_valid |].
  pose proof (spec_score_aces hand) as Hgap.
  assert (Hnn : (0 <= countAces hand)%Z) by (unfold countAces; lia).
  split; [lia |]. split; [exact Hgap |].
  intros Hno. rewrite Hgap.
  assert (Hz : countAces hand = 0%Z).
  { unfold countAces. clear -Hno. induction hand as [| c hand IH]; [reflexivity |].
    simpl in Hno. apply orb_false_iff in Hno as [Hc Hh].
    simpl. rewrite Hc. now apply IH. }
  lia.
Qed.

Lemma min_score_le_max_score_witness :
  forallb validCard hand_AK7 = true
  /\ exists lo hi : Z,
       calculateHandScore hand_AK7 Cmin = Num lo
       /\ calculateHandScore hand_AK7 Cmax = Num hi
       /\ (lo <= hi)%Z
       /\ hi = (lo + 10 * countAces hand_AK7)%Z
       /\ (existsb isAce hand_AK7 = false -> lo = hi).
Proof.
  split; [reflexivity |].
  exact (min_score_le_max_score hand_AK7 eq_refl).
Defined.

(** ** Multi-path updates, player by player *)

Lemma set_player_field_id (f : PlayerField) (p : Player) :
  id (set_player_field f p) = id p.
Proof. destruct p, f; reflexivity. Qed.

Lemma apply_update_id (u : Update) (p : Player) : id (apply_update u p) = id p.
Proof.
  unfold apply_update. destruct (id p =? fst u)%string;
    [apply set_player_field_id | reflexivity].
Qed.

Lemma apply_updates_id (us : list Update) (p : Player) : id (apply_updates us p) = id p.
Proof.
  revert p. induction us as [| u us IH]; intros p; [reflexivity |].
  simpl. unfold apply_updates in IH. rewrite IH. apply apply_update_id.
Qed.

Lemma apply_updates_app (us vs : list Update) (p : Player) :
  apply_updates (us ++ vs) p = apply_updates vs (apply_updates us p).
Proof. unfold apply_updates. apply fold_left_app. Qed.

Lemma players_db_update (us : list Update) (db : Store) :
  players (db_update us db) = map (apply_updates us) (players db).
Proof.
  unfold db_update. simpl. generalize (players db) as ps.
  induction us as [| u us IH]; intros ps; simpl.
  - symmetry. apply map_id.
  - rewrite IH, map_map. reflexivity.
Qed.

Lemma gameState_db_update (us : list Update) (db : Store) :
  gameState (db_update us db) = gameState db.
Proof. reflexivity. Qed.

Lemma history_db_update (us : list Update) (db : Store) :
  history (db_update us db) = history db.
Proof. reflexivity. Qed.

Lemma players_state_update (fs : list StateField) (db : Store) :
  players (state_update fs db) = players db.
Proof. reflexivity. Qed.

Lemma lookup_map (f : Player -> Player) (i : string) (ps : list Player) :
  (forall p, id (f p) = id p) ->
  lookup i (map f ps) = option_map f (lookup i ps).
Proof.
  intros Hid. unfold lookup. induction ps as [| p ps IH]; [reflexivity |].
  simpl. rewrite Hid. destruct (id p =? i)%string; [reflexivity | exact IH].
Qed.

Lemma lookup_db_update (us : list Update) (i : string) (db : Store) :
  lookup i (players (db_update us db)) = option_map (apply_updates us) (lookup i (players db)).
Proof.
  rewrite players_db_update. apply lookup_map. intros p. apply apply_updates_id.
Qed.

Lemma lookup_id (i : string) (ps : list Player) (p : Player) :
  lookup i ps = Some p -> id p = i.
Proof.
  unfold lookup. intros H. apply find_some in H as [_ H]. now apply String.eqb_eq.
Qed.

Lemma lookup_In (i : string) (ps : list Player) (p : Player) :
  lookup i ps = Some p -> In p ps.
Proof. unfold lookup. intros H. now apply find_some in H. Qed.

Lemma includes_In (x : string) (l : list string) : includes x l = true <-> In x l.
Proof.
  unfold includes. rewrite existsb_exists. split.
  - intros [y [Hin Heq]]. apply String.eqb_eq in Heq. now subst.
  - intros Hin. exists x. split; [assumption | apply String.eqb_refl].
Qed.

Lemma unique_lookup (ps : list Player) (p : Player) :
  unique_ids ps = true -> In p ps -> lookup (id p) ps = Some p.
Proof.
  unfold unique_ids, keys, lookup. induction ps as [| q ps IH]; intros Hu Hin; [contradiction |].
  simpl in Hu. apply andb_true_iff in Hu as [Hq Hu]. simpl.
  destruct Hin as [-> | Hin].
  - now rewrite String.eqb_refl.
  - destruct (id q =? id p)%string eqn:E; [| now apply IH].
    apply String.eqb_eq in E. apply negb_true_iff in Hq.
    assert (Hc : includes (id q) (map id ps) = true).
    { apply includes_In. rewrite E. now apply in_map. }
    congruence.
Qed.

Lemma unique_same_id (ps : list Player) (p q : Player) :
  unique_ids ps = true -> In p ps -> In q ps -> id p = id q -> p = q.
Proof.
  intros Hu Hp Hq Heq.
  pose proof (unique_lookup ps p Hu Hp) as H1.
  pose proof (unique_lookup ps q Hu Hq) as H2.
  rewrite Heq in H1. congruence.
Qed.

(** An update list that never names [p] leaves it alone. *)
Lemma apply_updates_other (us : list Update) (p : Player) :
  (forall u, In u us -> fst u <> id p) -> apply_updates us p = p.
Proof.
  revert p. induction us as [| u us IH]; intros p H; [reflexivity |].
  simpl. unfold apply_update at 1.
  destruct (id p =? fst u)%string eqn:E.
  - apply String.eqb_eq in E. exfalso. apply (H u); [now left | now symmetry].
  - apply IH. intros v Hv. apply H. now right.
Qed.

(** ** Declaration *)

Lemma getFilteredHand_surviving (h : option (list CardObj)) (revealed : list CardObj) :
  getFilteredHand h revealed = survivingHand h revealed.
Proof.
  unfold getFilteredHand, survivingHand.
  destruct h as [[| c l] |]; try reflexivity.
  destruct revealed as [| r revealed]; [| reflexivity].
  simpl map. symmetry.
  change (filter (fun c0 : CardObj => negb (includes (value c0) [])) (c :: l) = c :: l).
  unfold includes. simpl existsb. simpl negb.
  induction (c :: l) as [| x xs IH]; [reflexivity |]. simpl. now rewrite IH.
Qed.

Lemma strict_eq_Num (a : number) (d : Z) : strict_eq (Num d) a = true <-> a = Num d.
Proof.
  destruct a as [| z]; simpl.
  - split; discriminate.
  - rewrite Z.eqb_eq. split; [now intros -> | now intros [= ->]].
Qed.

Lemma submitFinal_parts (ch : Choice) (c : Client) (db : Store)
    (me : Player) (gs : GameState) (d : Z)
    (Hme : currentUser c db = Some me)
    (Hgs : gameState db = Some gs)
    (Hd : parseInt (finalScoreInput c) = Num d) :
  let correctScore := calculateHandScore (getFilteredHand (hand me) (revealedCards gs)) ch in
  let r := submitFinal ch c db in
  (r_written r = true <-> correctScore = Num d)
  /\ (correctScore = Num d ->
      exists me',
        lookup (id me) (players (r_store r)) = Some me'
        /\ choice me' = Some ch /\ finalScore me' = Some d
        /\ validationError (r_client r) = NoError)
  /\ (correctScore <> Num d ->
      r_store r = db
      /\ validationError (r_client r) = WrongScore ch correctScore
      /\ r_toasts r = [mkToast "Errore di dichiarazione" true]).
Proof.
  intros correctScore r.
  assert (Hne : (finalScoreInput c =? "")%string = false).
  { destruct (finalScoreInput c =? "")%string eqn:E; [| reflexivity].
    apply String.eqb_eq in E. rewrite E in Hd. discriminate. }
  assert (Hlk : lookup (id me) (players db) = Some me).
  { unfold currentUser in Hme. destruct (localId c) as [i |]; [| discriminate].
    now rewrite (lookup_id _ _ _ Hme). }
  unfold r, submitFinal. rewrite Hme, Hgs, Hne, Hd.
  fold correctScore.
  destruct (strict_eq (Num d) correctScore) eqn:E; simpl negb; cbv iota.
  - apply strict_eq_Num in E. repeat split; try tauto.
    intros _. simpl r_store. rewrite lookup_db_update, Hlk. simpl option_map.
    eexists. split; [reflexivity |].
    unfold apply_updates. simpl. unfold apply_update. simpl.
    rewrite String.eqb_refl. rewrite set_player_field_id, String.eqb_refl.
    destruct me; simpl. repeat split; reflexivity.
  - assert (Hneq : correctScore <> Num d).
    { intros H. apply strict_eq_Num in H. congruence. }
    repeat split; try (intros; simpl in *; congruence).
Qed.

(** C9. A declaration is written to the submitter's record exactly when the
    declared score equals the score recomputed from the submitter's own
    surviving hand under the chosen rule; a mismatch, even by one, raises an
    error for the user and leaves the shared document as it was. *)
Theorem submitFinal_exact_match (ch : Choice) (c : Client) (db : Store)
    (me : Player) (gs : GameState) (d : Z)
    (Hme : currentUser c db = Some me)
    (Hgs : gameState db = Some gs)
    (Hd : parseInt (finalScoreInput c) = Num d) :
  let correctScore := calculateHandScore (getFilteredHand (hand me) (revealedCards gs)) ch in
  let r := submitFinal ch c db in
  (r_written r = true <-> correctScore = Num d)
  /\ (correctScore = Num d ->
      exists me',
        lookup (id me) (players (r_store r)) = Some me'
        /\ choice me' = Some ch /\ finalScore me' = Some d
        /\ validationError (r_client r) = NoError)
  /\ (correctScore <> Num d ->
      r_store r = db
      /\ validationError (r_client r) = WrongScore ch correctScore
      /\ r_toasts r = [mkToast "Errore di dichiarazione" true])
  /\ (forall z, correctScore = Num z -> (d = z + 1 \/ d = z - 1)%Z ->
      r_written r = false /\ r_store r = db).
Proof.
  intros correctScore r.
  destruct (submitFinal_parts ch c db me gs d Hme Hgs Hd) as [Hiff [Hok Hbad]].
  fold correctScore r in Hiff, Hok, Hbad.
  split; [exact Hiff |]. split; [exact Hok |]. split; [exact Hbad |].
  intros z Hz Hoff.
  assert (Hneq : correctScore <> Num d) by (rewrite Hz; intros [= E]; lia).
  split; [| now apply Hbad].
  apply not_true_is_false. intros E. apply Hiff in E. contradiction.
Qed.

Lemma submitFinal_exact_match_witness :
  currentUser (browser "p1" false 0 "18") db_final = Some (seat "p1" "anna" 10 false 0 (Some (hand_AK7 ++ [card "5" "♦"])%list))
  /\ r_written (submitFinal Cmin (browser "p1" false 0 "18") db_final) = true
  /\ r_written (submitFinal Cmin (browser "p1" false 0 "19") db_final) = false
  /\ r_store (submitFinal Cmin (browser "p1" false 0 "19") db_final) = db_final.
Proof.
  split; [reflexivity |].
  split.
  - apply (proj1 (submitFinal_exact_match Cmin (browser "p1" false 0 "18") db_final
                    _ _ 18 eq_refl eq_refl eq_refl)).
    reflexivity.
  - split; reflexivity.
Defined.

Lemma insertByPosition_In (p x : Player) (l : list Player) :
  In x (insertByPosition p l) <-> x = p \/ In x l.
Proof.
  induction l as [| q l IH]; simpl.
  - intuition congruence.
  - destruct (position p <=? position q)%Z; simpl; [intuition congruence |].
    rewrite IH. intuition congruence.
Qed.

Lemma sortByPosition_In (x : Player) (l : list Player) :
  In x (sortByPosition l) <-> In x l.
Proof.
  unfold sortByPosition. induction l as [| p l IH]; simpl; [tauto |].
  rewrite insertByPosition_In, IH. intuition congruence.
Qed.

Lemma In_combine_seq {A : Type} (x : A) (l : list A) (k : nat) :
  In x l -> exists n, In (n, x) (combine (seq k (List.length l)) l).
Proof.
  revert k. induction l as [| y l IH]; intros k Hin; [contradiction |].
  simpl. destruct Hin as [-> | Hin].
  - exists k. now left.
  - destruct (IH (S k) Hin) as [n Hn]. exists n. now right.
Qed.

Lemma survivingHand_valid (h : option (list CardObj)) (revealed : list CardObj) :
  match h with Some l => forallb validCard l | None => true end = true ->
  forallb validCard (survivingHand h revealed) = true.
Proof.
  unfold survivingHand. destruct h as [l |]; [| reflexivity].
  intros H. rewrite forallb_forall in *. intros x Hx.
  apply filter_In in Hx as [Hx _]. now apply H.
Qed.

Section BotDeclarations.

Variable flips : nat -> bool.
Variable revealed : list CardObj.

(** The declaration the effect computes for the [k]-th bot, and the keys
    it writes for it. *)
Let declare (kb : nat * Player) : string * Choice * number :=
  (id (snd kb), (if flips (fst kb) then Cmax else Cmin),
   calculateHandScore (getFilteredHand (hand (snd kb)) revealed)
                      (if flips (fst kb) then Cmax else Cmin)).

Let paths (d : string * Choice * number) : list Update :=
  match snd d with
  | Num z => [(fst (fst d), F_choice (snd (fst d))); (fst (fst d), F_finalScore z)]
  | NaN => []
  end.

Lemma bot_updates_fold (kbs : list (nat * Player)) (p : Player) :
  (forall kb, In kb kbs -> id (snd kb) = id p -> hand (snd kb) = hand p) ->
  (exists kb, In kb kbs /\ id (snd kb) = id p) ->
  match hand p with Some l => forallb validCard l | None => true end = true ->
  exists rule z,
    choice (apply_updates (flat_map paths (map declare kbs)) p) = Some rule
    /\ finalScore (apply_updates (flat_map paths (map declare kbs)) p) = Some z
    /\ calculateHandScore (getFilteredHand (hand p) revealed) rule = Num z.
Proof.
  induction kbs as [| kb kbs IH] using rev_ind; intros Hsame [kb0 [Hin Hid]] Hdeck.
  - contradiction.
  - rewrite map_app, flat_map_app, apply_updates_app. simpl map. simpl flat_map.
    rewrite app_nil_r.
    set (q := apply_updates (flat_map paths (map declare kbs)) p) in *.
    assert (Hq : id q = id p) by apply apply_updates_id.
    destruct (id (snd kb) =? id p)%string eqn:E.
    + apply String.eqb_eq in E.
      assert (Hh : hand (snd kb) = hand p).
      { apply Hsame; [apply in_or_app; right; now left | exact E]. }
      set (rule := if flips (fst kb) then Cmax else Cmin).
      assert (Hs : calculateHandScore (getFilteredHand (hand p) revealed) rule
                   = Num (spec_scoreHand (survivingHand (hand p) revealed) rule)).
      { rewrite getFilteredHand_surviving. apply calculateHandScore_valid.
        now apply survivingHand_valid. }
      exists rule, (spec_scoreHand (survivingHand (hand p) revealed) rule).
      unfold paths, declare. simpl snd. simpl fst. fold rule. rewrite Hh, Hs.
      unfold apply_updates. simpl. unfold apply_update. simpl.
      rewrite Hq, E, String.eqb_refl. rewrite set_player_field_id, Hq, String.eqb_refl.
      destruct q; simpl. repeat split; reflexivity.
    + assert (Hkeep : apply_updates (paths (declare kb)) q = q).
      { apply apply_updates_other. intros u Hu. rewrite Hq.
        apply String.eqb_neq in E. unfold paths, declare in Hu. simpl in Hu.
        destruct (calculateHandScore _ _); simpl in Hu; [contradiction |].
        destruct Hu as [<- | [<- | []]]; exact E. }
      rewrite Hkeep. apply IH.
      * intros kb1 H1. apply Hsame. apply in_or_app. now left.
      * apply in_app_or in Hin as [Hin | [-> | []]].
        -- now exists kb0.
        -- apply String.eqb_neq in E. contradiction.
      * exact Hdeck.
Qed.

Lemma bot_declarations_numbers (kbs : list (nat * Player)) :
  (forall kb, In kb kbs ->
     match hand (snd kb) with Some l => forallb validCard l | None => true end = true) ->
  existsb (fun d : string * Choice * number => isNaN (snd d)) (map declare kbs) = false.
Proof.
  intros H. induction kbs as [| kb kbs IH]; [reflexivity |].
  simpl. rewrite IH by (intros k Hk; apply H; now right).
  rewrite getFilteredHand_surviving, calculateHandScore_valid; [reflexivity |].
  apply survivingHand_valid, H. now left.
Qed.

End BotDeclarations.

Lemma deckHands_In (ps : list Player) (p : Player) :
  deckHands ps = true -> In p ps ->
  match hand p with Some l => forallb validCard l | None => true end = true.
Proof.
  unfold deckHands. rewrite forallb_forall. intros H Hin. now apply H.
Qed.

(** What the bot branch writes for one of its bots. *)
Lemma botAutoDeclare_bot (flips : nat -> bool) (c : Client) (db : Store)
    (gs : GameState) (bot : Player) :
  gameState db = Some gs ->
  unique_ids (players db) = true ->
  deckHands (players db) = true ->
  adminInFinal c gs = true ->
  In bot (players db) ->
  undeclaredBot bot = true ->
  exists bot' rule z,
    lookup (id bot) (players (botAutoDeclare flips c db)) = Some bot'
    /\ choice bot' = Some rule /\ finalScore bot' = Some z
    /\ calculateHandScore (getFilteredHand (hand bot) (revealedCards gs)) rule = Num z.
Proof.
  intros Hgs Hu Hdeck Hadm Hin Hbot.
  unfold adminInFinal in Hadm. repeat rewrite andb_true_iff in Hadm.
  destruct Hadm as [[[Hc Ha] Hw] Hph].
  unfold undeclaredBot in Hbot. repeat rewrite andb_true_iff in Hbot.
  destruct Hbot as [[[Hf Hn] Hb] Hch].
  unfold botAutoDeclare. rewrite Hgs, Hc, Ha. apply negb_true_iff in Hw. rewrite Hw.
  simpl orb. cbv iota.
  assert (HinPL : In bot (sortByPosition (filter (fun p => negb (folded p)) (players db)))).
  { apply sortByPosition_In, filter_In. now split. }
  destruct (sortByPosition (filter (fun p => negb (folded p)) (players db)))
    as [| p0 pl] eqn:EPL; [contradiction |].
  destruct (phase gs); try discriminate. clear Hph.
  rewrite <- EPL in HinPL |- *.
  set (bots := filter (fun p => isBot p && negb (isSome (choice p)))
                 (filter (fun p => negb (username p =? "")%string)
                    (sortByPosition (filter (fun p => negb (folded p)) (players db))))).
  set (kbs := combine (seq 0 (List.length bots)) bots).
  assert (HinB : In bot bots).
  { apply filter_In. split; [| now rewrite Hb, Hch]. apply filter_In. now split. }
  assert (Hsub : forall kb, In kb kbs -> In (snd kb) (players db)).
  { intros [k b] Hk. apply in_combine_r in Hk. simpl.
    apply filter_In in Hk as [Hk _]. apply filter_In in Hk as [Hk _].
    rewrite sortByPosition_In in Hk. now apply filter_In in Hk as [Hk _]. }
  rewrite bot_declarations_numbers
    by (intros kb Hk; apply (deckHands_In (players db)); [assumption | now apply Hsub]).
  rewrite lookup_db_update, (unique_lookup _ _ Hu Hin). simpl option_map.
  destruct (bot_updates_fold flips (revealedCards gs) kbs bot) as [rule [z [H1 [H2 H3]]]].
  - intros kb Hk Hid. f_equal. apply (unique_same_id (players db)); auto.
  - destruct (In_combine_seq bot bots 0 HinB) as [k Hk]. exists (k, bot). now split.
  - now apply (deckHands_In (players db)).
  - eexists. exists rule, z. split; [reflexivity |]. now repeat split.
Qed.

Lemma survivingHand_drop (h1 h2 : list CardObj) (x : CardObj) (revealed : list CardObj) :
  includes (value x) (map value revealed) = true ->
  survivingHand (Some (h1 ++ x :: h2)%list) revealed = survivingHand (Some (h1 ++ h2)%list) revealed.
Proof.
  intros H. unfold survivingHand. rewrite !filter_app. simpl. now rewrite H.
Qed.

(** C10. The score that a declaration is checked against, and the score the
    admin effect declares for a bot, is computed on [getFilteredHand] of the
    stored hand: the hand without every card whose value lies among the
    revealed cards. A card of a revealed value that is still in the stored
    hand therefore adds nothing to the score. *)
Theorem declared_scores_ignore_revealed_values (flips : nat -> bool) (c : Client)
    (db : Store) (gs : GameState)
    (Hgs : gameState db = Some gs)
    (Hu : unique_ids (players db) = true)
    (Hdeck : deckHands (players db) = true) :
  (forall h, getFilteredHand h (revealedCards gs) = survivingHand h (revealedCards gs))
  /\ (forall h x, In x (getFilteredHand h (revealedCards gs)) ->
        ~ In (value x) (map value (revealedCards gs)))
  /\ (forall ch cl me,
        currentUser cl db = Some me ->
        r_written (submitFinal ch cl db) = true ->
        exists me' z,
          lookup (id me) (players (r_store (submitFinal ch cl db))) = Some me'
          /\ choice me' = Some ch /\ finalScore me' = Some z
          /\ calculateHandScore (survivingHand (hand me) (revealedCards gs)) ch = Num z)
  /\ (forall bot,
        adminInFinal c gs = true -> In bot (players db) -> undeclaredBot bot = true ->
        exists bot' rule z,
          lookup (id bot) (players (botAutoDeclare flips c db)) = Some bot'
          /\ choice bot' = Some rule /\ finalScore bot' = Some z
          /\ calculateHandScore (survivingHand (hand bot) (revealedCards gs)) rule = Num z)
  /\ (forall h1 x h2 rule,
        In (value x) (map value (revealedCards gs)) ->
        calculateHandScore (getFilteredHand (Some (h1 ++ x :: h2)%list) (revealedCards gs)) rule
        = calculateHandScore (getFilteredHand (Some (h1 ++ h2)%list) (revealedCards gs)) rule).
Proof.
  split; [intros h; apply getFilteredHand_surviving |].
  split.
  { intros h x Hx. rewrite getFilteredHand_surviving in Hx. unfold survivingHand in Hx.
    apply filter_In in Hx as [_ Hx]. apply negb_true_iff in Hx.
    intros Hc. apply includes_In in Hc. congruence. }
  split.
  { intros ch cl me Hme Hw.
    destruct (parseInt (finalScoreInput cl)) as [| d] eqn:Hd.
    - exfalso. unfold submitFinal in Hw. rewrite Hme, Hgs, Hd in Hw.
      destruct (finalScoreInput cl =? "")%string; discriminate.
    - destruct (submitFinal_parts ch cl db me gs d Hme Hgs Hd) as [Hiff [Hok _]].
      apply Hiff in Hw. destruct (Hok Hw) as [me' [H1 [H2 [H3 _]]]].
      exists me', d. rewrite <- getFilteredHand_surviving. now repeat split. }
  split.
  { intros bot Hadm Hin Hbot.
    destruct (botAutoDeclare_bot flips c db gs bot Hgs Hu Hdeck Hadm Hin Hbot)
      as [bot' [rule [z [H1 [H2 [H3 H4]]]]]].
    exists bot', rule, z. rewrite <- getFilteredHand_surviving. now repeat split. }
  intros h1 x h2 rule Hx. rewrite !getFilteredHand_surviving.
  rewrite survivingHand_drop; [reflexivity | now apply includes_In].
Qed.

Lemma declared_scores_ignore_revealed_values_witness :
  gameState db_final = Some (table final 3 0 [card "5" "♣"; card "9" "♥"] 2 "")
  /\ unique_ids (players db_final) = true
  /\ deckHands (players db_final) = true
  /\ forall h, getFilteredHand h [card "5" "♣"; card "9" "♥"]
               = survivingHand h [card "5" "♣"; card "9" "♥"].
Proof.
  split; [reflexivity |]. split; [reflexivity |]. split; [reflexivity |].
  exact (proj1 (declared_scores_ignore_revealed_values (fun _ => true)
                  (browser "p1" true 0 "") db_final _ eq_refl eq_refl eq_refl)).
Defined.

(** ** Keyed updates *)

Section Keyed.

Variable g : string -> list Update.
Hypothesis g_keyed : forall k u, In u (g k) -> fst u = k.

Variables p target : Player.
Hypothesis g_hit : apply_updates (g (id p)) p = target.
Hypothesis g_again : apply_updates (g (id p)) target = target.

Lemma target_id : id target = id p.
Proof. rewrite <- g_hit. apply apply_updates_id. Qed.

Lemma keyed_fold (ks : list string) (q : Player) :
  q = p \/ q = target ->
  apply_updates (flat_map g ks) q = if includes (id p) ks then target else q.
Proof.
  revert q. induction ks as [| k ks IH]; intros q Hq; [reflexivity |].
  simpl flat_map. rewrite apply_updates_app.
  unfold includes. simpl existsb. fold (includes (id p) ks).
  destruct (id p =? k)%string eqn:E.
  - apply String.eqb_eq in E. subst k. simpl orb.
    assert (Hstep : apply_updates (g (id p)) q = target)
      by (destruct Hq as [-> | ->]; assumption).
    rewrite Hstep, IH by now right. now destruct (includes (id p) ks).
  - simpl orb.
    assert (Hstep : apply_updates (g k) q = q).
    { apply apply_updates_other. intros u Hu. rewrite (g_keyed k u Hu).
      apply String.eqb_neq in E.
      destruct Hq as [-> | ->]; [| rewrite target_id]; congruence. }
    rewrite Hstep. now apply IH.
Qed.

Lemma keyed_updates (ks : list string) :
  In (id p) ks -> apply_updates (flat_map g ks) p = target.
Proof.
  intros Hin. rewrite keyed_fold by now left.
  apply includes_In in Hin. now rewrite Hin.
Qed.

End Keyed.

Lemma lookup_key (i : string) (ps : list Player) (p : Player) :
  lookup i ps = Some p -> In (id p) (keys ps).
Proof. intros H. apply in_map. now apply lookup_In in H. Qed.

(** ** Silent discard *)

Lemma filter_none_all {A : Type} (f : A -> bool) (l : list A) :
  filter f l = [] -> filter (fun x => negb (f x)) l = l.
Proof.
  induction l as [| x l IH]; [reflexivity |]. simpl.
  destruct (f x); [discriminate |]. intros H. simpl. now rewrite IH.
Qed.

Lemma sameCard_refl (c : CardObj) : sameCard c c = true.
Proof. unfold sameCard. now rewrite !String.eqb_refl. Qed.

Lemma findIndex_distinct (l : list CardObj) (j : nat) (c : CardObj) :
  distinctCards l = true -> nth_error l j = Some c ->
  findIndex (fun x => sameCard x c) l = Some j.
Proof.
  revert j. induction l as [| a l IH]; intros j Hd Hn; [now destruct j |].
  simpl in Hd. apply andb_true_iff in Hd as [Ha Hd]. apply negb_true_iff in Ha.
  destruct j as [| j]; simpl in Hn.
  - injection Hn as ->. simpl. now rewrite sameCard_refl.
  - simpl.
    assert (Hac : sameCard a c = false).
    { destruct (sameCard a c) eqn:E; [| reflexivity].
      assert (Hex : existsb (fun x => sameCard x a) l = true).
      { apply existsb_exists. exists c. split; [now apply nth_error_In in Hn |].
        unfold sameCard in *. apply andb_true_iff in E as [E1 E2].
        apply String.eqb_eq in E1, E2. rewrite E1, E2, !String.eqb_refl. reflexivity. }
      congruence. }
    rewrite Hac, (IH j Hd Hn). reflexivity.
Qed.

Lemma filter_first_index (self l : list CardObj) (k : nat) :
  (forall j c, nth_error l j = Some c ->
     findIndex (fun x => sameCard x c) self = Some (k + j)%nat) ->
  map snd
    (filter
       (fun ic : nat * CardObj =>
          match findIndex (fun c => sameCard c (snd ic)) self with
          | Some i => Nat.eqb (fst ic) i
          | None => false
          end)
       (combine (seq k (List.length l)) l)) = l.
Proof.
  revert k. induction l as [| a l IH]; intros k H; [reflexivity |].
  simpl. rewrite (H 0%nat a eq_refl), Nat.add_0_r, Nat.eqb_refl. simpl. f_equal.
  apply IH. intros j c Hj. rewrite (H (S j) c Hj). f_equal. lia.
Qed.

Lemma uniqueDiscarded_distinct (l : list CardObj) :
  distinctCards l = true -> uniqueDiscarded l = l.
Proof.
  intros Hd. unfold uniqueDiscarded. apply filter_first_index.
  intros j c Hj. now apply findIndex_distinct.
Qed.

Lemma distinctCards_app_filter (a h : list CardObj) (f : CardObj -> bool) :
  distinctCards (a ++ h) = true -> distinctCards (a ++ filter f h) = true.
Proof.
  induction a as [| x a IH]; simpl.
  - induction h as [| y h IHh]; [reflexivity |]. simpl. intros H.
    apply andb_true_iff in H as [Hy Hh]. destruct (f y); [| now apply IHh].
    simpl. rewrite IHh by assumption. rewrite andb_true_r.
    apply negb_true_iff. apply negb_true_iff in Hy.
    destruct (existsb (fun x => sameCard x y) (filter f h)) eqn:E; [| reflexivity].
    apply existsb_exists in E as [z [Hz Hs]]. apply filter_In in Hz as [Hz _].
    rewrite <- Hy. symmetry. apply existsb_exists. now exists z.
  - intros H. apply andb_true_iff in H as [Hx Ha]. rewrite IH by assumption.
    rewrite andb_true_r. apply negb_true_iff. apply negb_true_iff in Hx.
    destruct (existsb (fun y => sameCard y x) (a ++ filter f h)) eqn:E; [| reflexivity].
    apply existsb_exists in E as [z [Hz Hs]]. rewrite <- Hx. symmetry.
    apply existsb_exists. exists z. split; [| assumption].
    apply in_app_or in Hz as [Hz | Hz]; apply in_or_app; [now left | right].
    now apply filter_In in Hz as [Hz _].
Qed.

Lemma discardPaths_keyed (r : CardObj) (ps : list Player) (k : string) (u : Update) :
  In u (discardPaths r ps k) -> fst u = k.
Proof.
  unfold discardPaths. intros Hu.
  destruct (lookup k ps) as [q |]; [| contradiction].
  destruct (hand q) as [[| c h] |]; try contradiction.
  destruct (filter _ (c :: h)); [contradiction |].
  destruct Hu as [<- | [<- | []]]; reflexivity.
Qed.

Lemma discardPaths_hit (r : CardObj) (ps : list Player) (p : Player) :
  lookup (id p) ps = Some p ->
  apply_updates (discardPaths r ps (id p)) p = discarded r p
  /\ apply_updates (discardPaths r ps (id p)) (discarded r p) = discarded r p.
Proof.
  intros Hp. unfold discardPaths, discarded, handOf. rewrite Hp.
  destruct (hand p) as [[| c h] |] eqn:Hh; try (split; reflexivity).
  destruct (filter (fun c0 => (value c0 =? value r)%string) (c :: h)) as [| x removed];
    [split; reflexivity |].
  unfold apply_updates. simpl fold_left. unfold apply_update. simpl fst. simpl snd.
  rewrite !set_player_field_id, !String.eqb_refl.
  rewrite !set_player_field_id, !String.eqb_refl.
  destruct p; simpl; split; reflexivity.
Qed.

Lemma applySilentDiscard_player (db : Store) (gs : GameState) (r : CardObj)
    (i : string) (p : Player) :
  gameState db = Some gs -> lastOf (revealedCards gs) = Some r ->
  lookup i (players db) = Some p ->
  lookup i (players (applySilentDiscard (gameState db) (players db) db))
  = Some (discarded r p).
Proof.
  intros Hgs Hr Hp. unfold applySilentDiscard.
  rewrite lookup_db_update, Hp. simpl option_map. f_equal.
  unfold silentDiscardUpdates. rewrite Hgs, Hr.
  pose proof (lookup_id _ _ _ Hp) as Hid. subst i.
  destruct (discardPaths_hit r (players db) p Hp) as [H1 H2].
  apply (keyed_updates (discardPaths r (players db))
           (discardPaths_keyed r (players db)) p (discarded r p) H1 H2).
  exact (lookup_key _ _ _ Hp).
Qed.

Lemma handOf_discarded (r : CardObj) (p : Player) :
  handOf (discarded r p) = filter (fun c => negb (value c =? value r)%string) (handOf p).
Proof.
  unfold discarded.
  destruct (filter (fun c => (value c =? value r)%string) (handOf p)) eqn:E.
  - symmetry. now apply filter_none_all.
  - destruct p; reflexivity.
Qed.

Lemma discardedCards_discarded (r : CardObj) (p : Player) :
  discardedCards (discarded r p)
  = match filter (fun c => (value c =? value r)%string) (handOf p) with
    | [] => discardedCards p
    | removed => uniqueDiscarded (discardedCards p ++ removed)
    end.
Proof.
  unfold discarded.
  destruct (filter (fun c => (value c =? value r)%string) (handOf p)); [reflexivity |].
  destruct p; reflexivity.
Qed.

Lemma discarded_keeps (r : CardObj) (p : Player) :
  id (discarded r p) = id p /\ balance (discarded r p) = balance p
  /\ lastBet (discarded r p) = lastBet p /\ hasActed (discarded r p) = hasActed p
  /\ folded (discarded r p) = folded p /\ choice (discarded r p) = choice p
  /\ finalScore (discarded r p) = finalScore p
  /\ originalHand (discarded r p) = originalHand p.
Proof.
  unfold discarded.
  destruct (filter (fun c => (value c =? value r)%string) (handOf p));
    destruct p; repeat split; reflexivity.
Qed.

(** C8. The discard, run for a revealed card, removes from every player's
    hand every card of that card's value, not only the first one, and adds
    the removed cards to the player's discarded cards (once per value and
    suit); [5, 5, 9] with a revealed 5 becomes [9]. The table, with its
    revealed cards, is not touched. *)
Theorem applySilentDiscard_removes_all_matches (db : Store) (gs : GameState)
    (r : CardObj) (i : string) (p : Player)
    (Hgs : gameState db = Some gs)
    (Hr : lastOf (revealedCards gs) = Some r)
    (Hp : lookup i (players db) = Some p) :
  let db' := applySilentDiscard (gameState db) (players db) db in
  let removed := filter (fun c => (value c =? value r)%string) (handOf p) in
  (exists p',
     lookup i (players db') = Some p'
     /\ handOf p' = filter (fun c => negb (value c =? value r)%string) (handOf p)
     /\ (forall c, In c (handOf p') -> value c <> value r)
     /\ discardedCards p'
        = match removed with
          | [] => discardedCards p
          | _ => uniqueDiscarded (discardedCards p ++ removed)
          end
     /\ (distinctCards (discardedCards p ++ handOf p) = true ->
         discardedCards p' = (discardedCards p ++ removed)%list)
     /\ balance p' = balance p /\ lastBet p' = lastBet p /\ hasActed p' = hasActed p)
  /\ gameState db' = gameState db
  /\ history db' = history db
  /\ option_map (fun q => map value (handOf q))
       (lookup "p1" (players (applySilentDiscard (gameState db_discard)
                                (players db_discard) db_discard)))
     = Some ["9"].
Proof.
  intros db' removed. split; [| repeat split; reflexivity].
  exists (discarded r p).
  split; [now apply (applySilentDiscard_player db gs r i p) |].
  split; [apply handOf_discarded |].
  split.
  { intros c Hc. rewrite handOf_discarded in Hc. apply filter_In in Hc as [_ Hc].
    apply negb_true_iff in Hc. now apply String.eqb_neq. }
  split.
  { rewrite discardedCards_discarded. subst removed.
    now destruct (filter (fun c => (value c =? value r)%string) (handOf p)). }
  split.
  { intros Hd. rewrite discardedCards_discarded. fold removed.
    destruct removed as [| x l] eqn:E; [now rewrite app_nil_r |].
    apply uniqueDiscarded_distinct. rewrite <- E. unfold removed.
    now apply distinctCards_app_filter. }
  destruct (discarded_keeps r p) as [_ [H1 [H2 [H3 _]]]]. now repeat split.
Qed.

Lemma applySilentDiscard_removes_all_matches_witness :
  lastOf [card "K" "♥"; card "5" "♣"] = Some (card "5" "♣")
  /\ exists p',
       lookup "p1" (players (applySilentDiscard (gameState db_discard)
                               (players db_discard) db_discard)) = Some p'
       /\ handOf p' = [card "9" "♦"]
       /\ discardedCards p' = [card "5" "♥"; card "5" "♠"].
Proof.
  split; [reflexivity |].
  destruct (applySilentDiscard_removes_all_matches db_discard _ (card "5" "♣") "p1" _
              eq_refl eq_refl eq_refl) as [[p' [H1 [H2 [_ [_ [H5 _]]]]]] _].
  exists p'. split; [exact H1 |]. split; [exact H2 |]. exact (H5 eq_refl).
Defined.

(** ** Revealing a shared card *)

Lemma reveal_resets (ps : list Player) (p : Player) :
  In (id p) (keys ps) ->
  apply_updates (flat_map (fun i => [(i, F_lastBet 0); (i, F_hasActed false)]) (keys ps)) p
  = afterReveal p.
Proof.
  intros Hin.
  apply (keyed_updates (fun i => [(i, F_lastBet 0); (i, F_hasActed false)])); auto.
  - intros k u [<- | [<- | []]]; reflexivity.
  - unfold apply_updates, afterReveal. simpl. unfold apply_update. simpl.
    rewrite String.eqb_refl, set_player_field_id, String.eqb_refl. reflexivity.
  - unfold apply_updates, afterReveal. simpl. unfold apply_update. simpl.
    rewrite !set_player_field_id, String.eqb_refl.
    rewrite !set_player_field_id, String.eqb_refl. destruct p; reflexivity.
Qed.

Lemma nth_error_mod {A : Type} (l : list A) (n : nat) :
  l <> [] -> exists x, nth_error l (Nat.modulo n (List.length l)) = Some x.
Proof.
  intros Hne.
  destruct (nth_error l (Nat.modulo n (List.length l))) as [x |] eqn:E; [now exists x |].
  apply nth_error_None in E.
  assert (List.length l <> 0%nat) by (destruct l; simpl; congruence).
  pose proof (Nat.mod_upper_bound n (List.length l)). lia.
Qed.

(** The reveal of the last shared card: the table goes to [final] with the
    bets cleared, every player's [lastBet] and [hasActed] are reset, no
    timer is left, and no hand is touched. *)
Lemma revealNextCard_last_card (rv rs : nat) (c : Client) (db : Store) (gs : GameState) :
  gameState db = Some gs ->
  availableValues gs <> [] ->
  (totalCards gs <= Z.of_nat (List.length (revealedCards gs)) + 1)%Z ->
  snd (revealNextCard rv rs c db) = None
  /\ (exists gs' shown,
        gameState (r_store (fst (revealNextCard rv rs c db))) = Some gs'
        /\ phase gs' = final /\ currentBet gs' = 0 /\ currentPlayerTurn gs' = ""
        /\ revealedCards gs' = (revealedCards gs ++ [shown])%list
        /\ In (value shown) (availableValues gs))
  /\ (forall i p, lookup i (players db) = Some p ->
        lookup i (players (r_store (fst (revealNextCard rv rs c db)))) = Some (afterReveal p)).
Proof.
  intros Hgs Hav Htot. unfold revealNextCard. rewrite Hgs.
  fold (availableValues gs).
  destruct (nth_error_mod (availableValues gs) rv Hav) as [v Hv]. rewrite Hv.
  destruct (nth_error_mod SUITS rs ltac:(discriminate)) as [s Hs]. rewrite Hs.
  rewrite length_app. simpl List.length.
  assert (Hle : (totalCards gs <=? Z.of_nat (List.length (revealedCards gs) + 1))%Z = true)
    by (apply Z.leb_le; lia).
  rewrite Hle. simpl fst. simpl snd. split; [reflexivity |]. split.
  - unfold state_update, db_update. simpl. rewrite Hgs. simpl.
    eexists. exists (mkCard v (symbol s) (suitColor s)).
    split; [reflexivity |]. destruct gs; simpl. repeat split; try reflexivity.
    now apply nth_error_In in Hv.
  - intros i p Hp. simpl r_store. rewrite lookup_db_update, players_state_update, Hp.
    simpl option_map. f_equal. pose proof (lookup_id _ _ _ Hp) as Hid.
    apply reveal_resets. now apply lookup_key in Hp.
Qed.

(** C3 (last card). A table with one card to come, a 5 drawn, and a player
    who holds a 5: the table goes to [final], the player's bets are reset,
    no timer is pending, and the 5 is still in the stored hand. *)
Theorem revealNextCard_last_card_keeps_matching_card :
  let out := revealNextCard 4 0 (browser "p1" true (1 # 2) "") db_last_reveal in
  snd out = None
  /\ option_map phase (gameState (r_store (fst out))) = Some final
  /\ option_map (fun g => map value (revealedCards g)) (gameState (r_store (fst out)))
     = Some ["9"; "5"]
  /\ option_map (fun q => (lastBet q, hasActed q)) (lookup "p1" (players (r_store (fst out))))
     = Some (0, false)
  /\ option_map (fun q => map value (handOf q)) (lookup "p1" (players (r_store (fst out))))
     = Some ["5"; "K"]
  /\ option_map discardedCards (lookup "p1" (players (r_store (fst out)))) = Some []
  /\ revealAndSettle 4 0 (browser "p1" true (1 # 2) "") db_last_reveal = r_store (fst out).
Proof. repeat split; reflexivity. Qed.

(** An earlier reveal, with its timer fired: the table is back in [betting]
    behind the dealer gate, and the discard has worked from the table of the
    calling render, whose last card is the 9, not the 5 just drawn. *)
Example revealAndSettle_earlier_card :
  let db' := revealAndSettle 4 0 (browser "p1" true (1 # 2) "") db_mid_reveal in
  option_map (fun g => (phase g, waitingForDealer g, map value (revealedCards g)))
             (gameState db')
  = Some (betting, true, ["9"; "5"])
  /\ option_map (fun q => (map value (handOf q), map value (discardedCards q)))
       (lookup "p1" (players db'))
     = Some (["5"; "K"], ["9"]).
Proof. split; reflexivity. Qed.

(** ** Amounts in cents *)

Lemma Qle_bool_false (a b : Q) : Qle_bool a b = false <-> b < a.
Proof.
  split; intros H.
  - apply Qnot_le_lt. intros Hle. apply Qle_bool_iff in Hle. congruence.
  - destruct (Qle_bool a b) eqn:E; [| reflexivity].
    apply Qle_bool_iff in E. exfalso. now apply (Qlt_not_le b a).
Qed.

Lemma Qlt_bool_true (a b : Q) : Qlt_bool a b = true <-> a < b.
Proof. unfold Qlt_bool. rewrite negb_true_iff. apply Qle_bool_false. Qed.

Lemma Qlt_bool_false (a b : Q) : Qlt_bool a b = false <-> b <= a.
Proof. unfold Qlt_bool. rewrite negb_false_iff. apply Qle_bool_iff. Qed.

Lemma orElse_zero (a : Q) : orElse a 0 == a.
Proof.
  unfold orElse. destruct (Qeq_bool a 0) eqn:E; [| reflexivity].
  apply Qeq_bool_eq in E. now symmetry.
Qed.

Lemma round_half_away_int (x : Q) (n : Z) : x == inject_Z n -> round_half_away x = n.
Proof.
  intros H. unfold round_half_away.
  destruct (Qle_bool 0 x) eqn:E.
  - assert (Hx : x + (1 # 2) == (2 * n + 1) # 2).
    { rewrite H. unfold Qeq, Qplus, Qopp, Qmult, inject_Z; cbn [Qnum Qden]; lia. }
    rewrite (Qfloor_comp _ _ Hx). unfold Qfloor.
    symmetry. apply (Z.div_unique _ 2 n 1); lia.
  - assert (Hx : - x + (1 # 2) == (2 * (- n) + 1) # 2).
    { rewrite H. unfold Qeq, Qplus, Qopp, Qmult, inject_Z; cbn [Qnum Qden]; lia. }
    rewrite (Qfloor_comp _ _ Hx). unfold Qfloor.
    rewrite <- (Z.div_unique (2 * - n + 1) 2 (- n) 1); lia.
Qed.

Lemma toFixed2_cents (x : Q) : is_cents x -> toFixed2 x == x.
Proof.
  intros [n Hn]. unfold toFixed2.
  rewrite (round_half_away_int (x * 100) n).
  - now symmetry.
  - rewrite Hn. unfold Qeq, Qplus, Qopp, Qmult, inject_Z; cbn [Qnum Qden]; lia.
Qed.

Lemma is_cents_toFixed2 (x : Q) : is_cents (toFixed2 x).
Proof. unfold toFixed2. now exists (round_half_away (x * 100)). Qed.

Lemma is_cents_eq (x y : Q) : x == y -> is_cents x -> is_cents y.
Proof. intros H [n Hn]. exists n. now rewrite <- H. Qed.

Lemma is_cents_plus (x y : Q) : is_cents x -> is_cents y -> is_cents (x + y).
Proof.
  intros [n Hn] [m Hm]. exists (n + m)%Z. rewrite Hn, Hm.
  unfold Qeq, Qminus, Qplus, Qopp; cbn [Qnum Qden]; lia.
Qed.

Lemma is_cents_minus (x y : Q) : is_cents x -> is_cents y -> is_cents (x - y).
Proof.
  intros [n Hn] [m Hm]. exists (n - m)%Z. rewrite Hn, Hm.
  unfold Qeq, Qminus, Qplus, Qopp; cbn [Qnum Qden]; lia.
Qed.

Lemma is_cents_zero : is_cents 0.
Proof. exists 0%Z. reflexivity. Qed.

Lemma is_cents_two : is_cents 2.
Proof. exists 200%Z. reflexivity. Qed.

Lemma is_cents_effectiveBet (c : Client) : is_cents (effectiveBet c).
Proof.
  unfold effectiveBet. destruct (Qlt_bool 2 _);
    [apply is_cents_two | apply is_cents_toFixed2].
Qed.

Create HintDb cents.
#[local] Hint Resolve is_cents_toFixed2 is_cents_plus is_cents_minus is_cents_zero
  is_cents_two is_cents_effectiveBet : cents.

Lemma is_cents_orElse (x : Q) : is_cents x -> is_cents (orElse x 0).
Proof. intros H. apply (is_cents_eq x); [symmetry; apply orElse_zero | assumption]. Qed.

#[local] Hint Resolve is_cents_orElse : cents.

Lemma max0_nonneg (x : Q) : 0 <= x -> max0 x == x.
Proof.
  intros H. unfold max0. destruct (Qle_bool x 0) eqn:E; [| reflexivity].
  apply Qle_bool_iff in E. now apply Qle_antisym.
Qed.


(** In cents, what is paid is the bet less what was already staked. *)
Lemma betDiff_cents (c : Client) (me : Player) :
  is_cents (lastBet me) -> lastBet me <= effectiveBet c ->
  betDiff c me == effectiveBet c - lastBet me.
Proof.
  intros Hl Hle. unfold betDiff.
  assert (Hc : is_cents (effectiveBet c - orElse (lastBet me) 0)) by auto with cents.
  assert (He : toFixed2 (effectiveBet c - orElse (lastBet me) 0)
               == effectiveBet c - lastBet me).
  { rewrite (toFixed2_cents _ Hc), orElse_zero. reflexivity. }
  assert (H0 : 0 <= toFixed2 (effectiveBet c - orElse (lastBet me) 0)).
  { rewrite He. lra. }
  rewrite (max0_nonneg _ H0). exact He.
Qed.

Lemma is_cents_betDiff (c : Client) (me : Player) : is_cents (betDiff c me).
Proof. unfold betDiff, max0. destruct (Qle_bool _ 0); auto with cents. Qed.

#[local] Hint Resolve is_cents_betDiff : cents.

(** ** Betting *)

Lemma currentUser_localId (c : Client) (db : Store) (me : Player) :
  currentUser c db = Some me ->
  localId c = Some (id me) /\ lookup (id me) (players db) = Some me.
Proof.
  unfold currentUser. destruct (localId c) as [i |]; [| discriminate].
  intros H. pose proof (lookup_id _ _ _ H) as Hid. subst i. now split.
Qed.



Lemma map_filter_flat_map {A B : Type} (f : A -> B) (h : A -> bool) (l : list A) :
  map f (filter h l) = flat_map (fun x => if h x then [f x] else []) l.
Proof.
  induction l as [| x l IH]; [reflexivity |]. simpl.
  destruct (h x); simpl; now rewrite IH.
Qed.

(** The raise part of a bet, on a player other than the bettor. *)
Lemma raise_other (lid : string) (ps : list Player) (p : Player) :
  id p <> lid -> In (id p) (keys ps) ->
  apply_updates
    (map (fun i => (i, F_hasActed false)) (filter (fun i => negb (i =? lid)%string) (keys ps)))
    p
  = set_player_field (F_hasActed false) p.
Proof.
  intros Hne Hin. rewrite map_filter_flat_map.
  apply (keyed_updates
           (fun i => if negb (i =? lid)%string then [(i, F_hasActed false)] else [])); auto.
  - intros k u Hu. destruct (negb (k =? lid)%string); [| contradiction].
    destruct Hu as [<- | []]. reflexivity.
  - apply String.eqb_neq in Hne. rewrite Hne. simpl negb. cbv iota.
    unfold apply_updates. simpl. unfold apply_update. simpl.
    now rewrite String.eqb_refl.
  - apply String.eqb_neq in Hne. rewrite Hne. simpl negb. cbv iota.
    unfold apply_updates. simpl. unfold apply_update. simpl.
    rewrite set_player_field_id, String.eqb_refl. destruct p; reflexivity.
Qed.

Lemma raise_self (lid : string) (ks : list string) (p : Player) :
  id p = lid ->
  apply_updates
    (map (fun i => (i, F_hasActed false)) (filter (fun i => negb (i =? lid)%string) ks)) p
  = p.
Proof.
  intros Hid. apply apply_updates_other. intros u Hu.
  apply in_map_iff in Hu as [k [<- Hk]]. apply filter_In in Hk as [_ Hk].
  apply negb_true_iff, String.eqb_neq in Hk. simpl. congruence.
Qed.

Lemma betUpdates_self (c : Client) (db : Store) (gs : GameState) (me : Player) :
  apply_updates (betUpdates c db gs me) me
  = mkPlayer (id me) (username me) (toFixed2 (balance me - betDiff c me)) (isAdmin me)
             (isBot me) (effectiveBet c) (finalScore me) (choice me) (position me) true
             (folded me) (hand me)
             (orElse (totalBetThisHand me) 0 + betDiff c me)
             (originalHand me) (discardedCards me).
Proof.
  unfold betUpdates. rewrite apply_updates_app.
  destruct (Qlt_bool (currentBet gs) (effectiveBet c));
    [rewrite raise_self by reflexivity | change (apply_updates [] me) with me].
  all: unfold apply_updates; simpl; unfold apply_update; simpl.
  all: rewrite String.eqb_refl; rewrite !set_player_field_id, String.eqb_refl.
  all: rewrite !set_player_field_id, String.eqb_refl.
  all: rewrite !set_player_field_id, String.eqb_refl.
  all: destruct me; reflexivity.
Qed.


Lemma orElse_pos (a b : Q) : 0 < a -> orElse a b = a.
Proof.
  intros H. unfold orElse. destruct (Qeq_bool a 0) eqn:E; [| reflexivity].
  apply Qeq_bool_eq in E. rewrite E in H. now apply Qlt_irrefl in H.
Qed.


Lemma minBet_positive (gs : GameState) : ~ currentBet gs == 0 -> minBet gs = currentBet gs.
Proof.
  intros H. unfold minBet, orElse. destruct (Qeq_bool (currentBet gs) 0) eqn:E; [| reflexivity].
  apply Qeq_bool_eq in E. contradiction.
Qed.


(** ** A betting segment *)














(** ** Settlement *)

Lemma fold_min_spec (r : list Z) (x : Z) :
  (In (fold_left Z.min r x) (x :: r))
  /\ (forall y, In y (x :: r) -> (fold_left Z.min r x <= y)%Z).
Proof.
  revert x. induction r as [| a r IH]; intros x; simpl.
  - split; [now left | intros y [<- | []]; lia].
  - destruct (IH (Z.min x a)) as [Hin Hle]. split.
    + destruct Hin as [Hin | Hin]; [| now right; right].
      rewrite <- Hin. destruct (Z.min_spec x a) as [[_ ->] | [_ ->]]; [now left | right; now left].
    + intros y [<- | [<- | Hy]].
      * specialize (Hle (Z.min x a) (or_introl eq_refl)). lia.
      * specialize (Hle (Z.min x a) (or_introl eq_refl)). lia.
      * apply Hle. now right.
Qed.

Lemma fold_max_spec (r : list Z) (x : Z) :
  (In (fold_left Z.max r x) (x :: r))
  /\ (forall y, In y (x :: r) -> (y <= fold_left Z.max r x)%Z).
Proof.
  revert x. induction r as [| a r IH]; intros x; simpl.
  - split; [now left | intros y [<- | []]; lia].
  - destruct (IH (Z.max x a)) as [Hin Hle]. split.
    + destruct Hin as [Hin | Hin]; [| now right; right].
      rewrite <- Hin. destruct (Z.max_spec x a) as [[_ ->] | [_ ->]]; [right; now left | now left].
    + intros y [<- | [<- | Hy]].
      * specialize (Hle (Z.max x a) (or_introl eq_refl)). lia.
      * specialize (Hle (Z.max x a) (or_introl eq_refl)). lia.
      * apply Hle. now right.
Qed.

Lemma Math_min_lowest (group : list Player) (p : Player) :
  In p group ->
  (scoreOf p =? Math_min (map scoreOf group))%Z = lowest group p.
Proof.
  intros Hp. destruct group as [| g0 group]; [contradiction |].
  unfold Math_min. simpl map.
  destruct (fold_min_spec (map scoreOf group) (scoreOf g0)) as [Hin Hle].
  change (scoreOf g0 :: map scoreOf group) with (map scoreOf (g0 :: group)) in Hin, Hle.
  apply eq_true_iff_eq. rewrite Z.eqb_eq. unfold lowest. rewrite forallb_forall. split.
  - intros Heq q Hq. apply Z.leb_le. rewrite Heq. apply Hle. now apply in_map.
  - intros Hall. apply in_map_iff in Hin as [q [Hq1 Hq2]].
    specialize (Hall q Hq2). apply Z.leb_le in Hall.
    specialize (Hle (scoreOf p) (in_map scoreOf _ _ Hp)). lia.
Qed.

Lemma Math_max_highest (group : list Player) (p : Player) :
  In p group ->
  (scoreOf p =? Math_max (map scoreOf group))%Z = highest group p.
Proof.
  intros Hp. destruct group as [| g0 group]; [contradiction |].
  unfold Math_max. simpl map.
  destruct (fold_max_spec (map scoreOf group) (scoreOf g0)) as [Hin Hle].
  change (scoreOf g0 :: map scoreOf group) with (map scoreOf (g0 :: group)) in Hin, Hle.
  apply eq_true_iff_eq. rewrite Z.eqb_eq. unfold highest. rewrite forallb_forall. split.
  - intros Heq q Hq. apply Z.leb_le. rewrite Heq. apply Hle. now apply in_map.
  - intros Hall. apply in_map_iff in Hin as [q [Hq1 Hq2]].
    specialize (Hall q Hq2). apply Z.leb_le in Hall.
    specialize (Hle (scoreOf p) (in_map scoreOf _ _ Hp)). lia.
Qed.

Lemma filter_ext_In {A : Type} (f g : A -> bool) (l : list A) :
  (forall x, In x l -> f x = g x) -> filter f l = filter g l.
Proof.
  induction l as [| x l IH]; intros H; [reflexivity |]. simpl.
  rewrite (H x (or_introl eq_refl)), IH; [reflexivity |].
  intros y Hy. apply H. now right.
Qed.

(** The winners the code picks in a group are the players at the extreme. *)
Lemma settleGroup_min (tag : bool -> WinTag) (share : Q) (group : list Player) :
  settleGroup Math_min tag share group
  = (map (fun w => (id w, F_balance (balance (paid share (List.length (filter (lowest group) group)) w))))
         (filter (lowest group) group),
     map (fun w => mkWinnerInfo (username w)
                     (toFixed2 (share / lengthQ (filter (lowest group) group)))
                     (tag (1 <? List.length (filter (lowest group) group))%nat))
         (filter (lowest group) group)).
Proof.
  unfold settleGroup. destruct group as [| g0 group]; [reflexivity |].
  rewrite (filter_ext_In _ (lowest (g0 :: group)) (g0 :: group))
    by (intros x Hx; now apply Math_min_lowest).
  f_equal. apply map_ext. intros w. unfold paid, withBalance, lengthQ. now destruct w.
Qed.

Lemma settleGroup_max (tag : bool -> WinTag) (share : Q) (group : list Player) :
  settleGroup Math_max tag share group
  = (map (fun w => (id w, F_balance (balance (paid share (List.length (filter (highest group) group)) w))))
         (filter (highest group) group),
     map (fun w => mkWinnerInfo (username w)
                     (toFixed2 (share / lengthQ (filter (highest group) group)))
                     (tag (1 <? List.length (filter (highest group) group))%nat))
         (filter (highest group) group)).
Proof.
  unfold settleGroup. destruct group as [| g0 group]; [reflexivity |].
  rewrite (filter_ext_In _ (highest (g0 :: group)) (g0 :: group))
    by (intros x Hx; now apply Math_max_highest).
  f_equal. apply map_ext. intros w. unfold paid, withBalance, lengthQ. now destruct w.
Qed.

Section BalanceUpdates.

Variable ps : list Player.
Hypothesis ps_unique : unique_ids ps = true.
Variable f : Player -> Q.



Lemma balance_updates_miss (p : Player) (ws : list Player) (q : Player) :
  In p ps -> (forall w, In w ws -> In w ps) -> ~ In p ws -> id q = id p ->
  apply_updates (map (fun w => (id w, F_balance (f w))) ws) q = q.
Proof.
  intros Hp Hsub Hnot Hid. apply apply_updates_other.
  intros u Hu. apply in_map_iff in Hu as [w [<- Hw]]. simpl. rewrite Hid.
  intros Heq. apply Hnot.
  assert (w = p) by (apply (unique_same_id ps); auto). now subst w.
Qed.

End BalanceUpdates.

Lemma calculateWinners_normal (now : Z) (db : Store) (gs : GameState) :
  gameState db = Some gs ->
  declaredPlayers (players db) <> [] ->
  let share := groupShare (orElse (pot gs) 0) (players db) in
  let mins := settleGroup Math_min TagMin share (minGroup (players db)) in
  let maxs := settleGroup Math_max TagMax share (maxGroup (players db)) in
  players (fst (calculateWinners None now db))
  = map (apply_updates (fst mins ++ fst maxs)) (players db)
  /\ history (fst (calculateWinners None now db))
     = match (snd mins ++ snd maxs)%list with
       | [] => history db
       | info => (history db ++ [mkHistoryEntry info (orElse (pot gs) 0) now])%list
       end
  /\ gameState (fst (calculateWinners None now db))
     = Some (set_state_field (S_isFirstHand false) (set_state_field (S_phase results) gs)).
Proof.
  intros Hgs Hdecl share mins maxs. unfold calculateWinners. rewrite Hgs.
  destruct (declaredPlayers (players db)) as [| d0 dl] eqn:Ed; [contradiction |].
  rewrite <- Ed. fold (minGroup (players db)) (maxGroup (players db)).
  fold (groupShare (orElse (pot gs) 0) (players db)). fold share. fold mins. fold maxs.
  simpl fst.
  destruct (snd mins ++ snd maxs)%list eqn:Einfo.
  - split; [| split].
    + rewrite players_state_update. apply players_db_update.
    + reflexivity.
    + unfold state_update. simpl. now rewrite Hgs.
  - split; [| split].
    + rewrite players_state_update. simpl players. apply players_db_update.
    + reflexivity.
    + unfold state_update. simpl. now rewrite Hgs.
Qed.

Lemma declared_In (ps : list Player) (p : Player) :
  In p (declaredPlayers ps) -> In p ps.
Proof. unfold declaredPlayers. intros H. now apply filter_In in H. Qed.

Lemma minWinners_In (ps : list Player) (p : Player) :
  In p (minWinnersOf ps) -> In p ps /\ hasChoice Cmin p = true.
Proof.
  unfold minWinnersOf, minGroup. intros H.
  apply filter_In in H as [H _]. apply filter_In in H as [H Hc].
  split; [now apply declared_In | assumption].
Qed.

Lemma maxWinners_In (ps : list Player) (p : Player) :
  In p (maxWinnersOf ps) -> In p ps /\ hasChoice Cmax p = true.
Proof.
  unfold maxWinnersOf, maxGroup. intros H.
  apply filter_In in H as [H _]. apply filter_In in H as [H Hc].
  split; [now apply declared_In | assumption].
Qed.


Lemma lowest_exists (group : list Player) :
  group <> [] -> filter (lowest group) group <> [].
Proof.
  intros Hne. destruct group as [| g0 group]; [contradiction |].
  destruct (fold_min_spec (map scoreOf group) (scoreOf g0)) as [Hin _].
  change (scoreOf g0 :: map scoreOf group) with (map scoreOf (g0 :: group)) in Hin.
  apply in_map_iff in Hin as [p [Hp1 Hp2]].
  assert (Hf : In p (filter (lowest (g0 :: group)) (g0 :: group))).
  { apply filter_In. split; [assumption |].
    rewrite <- (Math_min_lowest _ p Hp2). apply Z.eqb_eq. exact Hp1. }
  intros E. rewrite E in Hf. contradiction.
Qed.

Lemma highest_exists (group : list Player) :
  group <> [] -> filter (highest group) group <> [].
Proof.
  intros Hne. destruct group as [| g0 group]; [contradiction |].
  destruct (fold_max_spec (map scoreOf group) (scoreOf g0)) as [Hin _].
  change (scoreOf g0 :: map scoreOf group) with (map scoreOf (g0 :: group)) in Hin.
  apply in_map_iff in Hin as [p [Hp1 Hp2]].
  assert (Hf : In p (filter (highest (g0 :: group)) (g0 :: group))).
  { apply filter_In. split; [assumption |].
    rewrite <- (Math_max_highest _ p Hp2). apply Z.eqb_eq. exact Hp1. }
  intros E. rewrite E in Hf. contradiction.
Qed.

Lemma declared_in_a_group (ps : list Player) :
  declaredPlayers ps <> [] -> minGroup ps <> [] \/ maxGroup ps <> [].
Proof.
  unfold minGroup, maxGroup. destruct (declaredPlayers ps) as [| d l] eqn:E; [contradiction |].
  intros _.
  assert (Hd : In d (declaredPlayers ps)) by (rewrite E; now left).
  unfold declaredPlayers in Hd. apply filter_In in Hd as [_ Hd].
  apply andb_true_iff in Hd as [Hd _]. apply andb_true_iff in Hd as [_ Hc].
  simpl. unfold hasChoice. destruct (choice d) as [[|] |]; simpl; try discriminate.
  - left. discriminate.
  - right. destruct (match choice d with Some c => Choice_eqb c Cmin | None => false end);
      discriminate.
Qed.

Lemma normal_winnersInfo (share : Q) (ps : list Player) :
  declaredPlayers ps <> [] ->
  (snd (settleGroup Math_min TagMin share (minGroup ps))
   ++ snd (settleGroup Math_max TagMax share (maxGroup ps)))%list <> [].
Proof.
  intros Hd. rewrite settleGroup_min, settleGroup_max. simpl snd.
  destruct (declared_in_a_group ps Hd) as [H | H].
  - apply lowest_exists in H. destruct (filter (lowest (minGroup ps)) (minGroup ps));
      [contradiction | discriminate].
  - apply highest_exists in H. destruct (filter (highest (maxGroup ps)) (maxGroup ps));
      [contradiction |].
    intros E. apply app_eq_nil in E as [_ E]. discriminate.
Qed.

(** C2 as stated fails: after a normal settlement and after a jackpot
    override of a 10.00 pot the table still holds 10.00; and an override
    that names nobody at the table appends no record. *)
Lemma settlement_leaves_pot :
  (exists e, history (fst (calculateWinners None 7 db_settle)) = [e])
  /\ ~ (exists gs', gameState (fst (calculateWinners None 7 db_settle)) = Some gs'
                    /\ pot gs' == 0)
  /\ (exists e, history (fst (calculateWinners (Some "c") 7 db_settle)) = [e])
  /\ ~ (exists gs', gameState (fst (calculateWinners (Some "c") 7 db_settle)) = Some gs'
                    /\ pot gs' == 0)
  /\ history (fst (calculateWinners (Some "nobody") 7 db_settle)) = [].
Proof.
  split; [eexists; reflexivity |]. split.
  { intros [gs' [H1 H2]]. vm_compute in H1. injection H1 as <-. discriminate. }
  split; [eexists; reflexivity |]. split.
  { intros [gs' [H1 H2]]. vm_compute in H1. injection H1 as <-. discriminate. }
  reflexivity.
Qed.

(** C2, amended. A settlement that pays (a normal one with a declared
    player, or the override for a player at the table) appends one record
    with the winners, the pot and the time, and moves the table to
    [results] with the pot as it was; the pot becomes 0 with the admin's
    next-hand action. *)
Theorem settlement_history_then_next_hand (specialWinnerId : option string) (now : Z)
    (db : Store) (gs : GameState) (c : Client)
    (Hgs : gameState db = Some gs)
    (Hpays : settles specialWinnerId db = true) :
  let db' := fst (calculateWinners specialWinnerId now db) in
  exists info gs',
    info <> []
    /\ history db' = (history db ++ [mkHistoryEntry info (orElse (pot gs) 0) now])%list
    /\ gameState db' = Some gs'
    /\ phase gs' = results
    /\ pot gs' = pot gs
    /\ (isAdminMode c = true ->
        exists gs'',
          gameState (handleNextHand c db') = Some gs''
          /\ pot gs'' = 0 /\ phase gs'' = lobby
          /\ history (handleNextHand c db') = history db').
Proof.
  intros db'.
  assert (Hnext : forall g, gameState db' = Some g -> isAdminMode c = true ->
            exists gs'',
              gameState (handleNextHand c db') = Some gs''
              /\ pot gs'' = 0 /\ phase gs'' = lobby
              /\ history (handleNextHand c db') = history db').
  { intros g Hg Ha. unfold handleNextHand. rewrite Ha. simpl negb. cbv iota.
    unfold state_update. simpl. rewrite Hg. simpl. eexists. split; [reflexivity |].
    destruct g; repeat split; reflexivity. }
  assert (Hnormal : declaredPlayers (players db) <> [] ->
            fst (calculateWinners None now db) = db' ->
            exists info gs',
              info <> []
              /\ history db' = (history db ++ [mkHistoryEntry info (orElse (pot gs) 0) now])%list
              /\ gameState db' = Some gs' /\ phase gs' = results /\ pot gs' = pot gs
              /\ (isAdminMode c = true ->
                  exists gs'',
                    gameState (handleNextHand c db') = Some gs''
                    /\ pot gs'' = 0 /\ phase gs'' = lobby
                    /\ history (handleNextHand c db') = history db')).
  { intros Hd Heq.
    destruct (calculateWinners_normal now db gs Hgs Hd) as [_ [Hh Hg]].
    rewrite Heq in Hh, Hg.
    pose proof (normal_winnersInfo (groupShare (orElse (pot gs) 0) (players db))
                  (players db) Hd) as Hinfo.
    destruct (snd (settleGroup Math_min TagMin _ _) ++ snd (settleGroup Math_max TagMax _ _))%list
      as [| i0 il] eqn:Ei; [contradiction |].
    exists (i0 :: il). eexists. split; [discriminate |]. split; [exact Hh |].
    split; [exact Hg |]. split; [now destruct gs |]. split; [now destruct gs |].
    now apply (Hnext _ Hg). }
  assert (Hd : forall o, settles o db = true -> (o = None \/ o = Some "") ->
               declaredPlayers (players db) <> []).
  { intros o Ho [-> | ->]; simpl in Ho; destruct (declaredPlayers (players db));
      discriminate. }
  destruct specialWinnerId as [[| a r] |].
  - apply Hnormal; [apply (Hd (Some "")); auto | reflexivity].
  - simpl in Hpays.
    destruct (lookup (String a r) (players db)) as [w |] eqn:Elk; [| discriminate].
    assert (Hg : gameState db'
                 = Some (set_state_field (S_isFirstHand false)
                           (set_state_field (S_phase results) gs))).
    { unfold db', calculateWinners. rewrite Hgs, Elk. simpl fst.
      unfold state_update. simpl. now rewrite Hgs. }
    assert (Hh : history db'
                 = (history db
                    ++ [mkHistoryEntry [mkWinnerInfo (username w) (orElse (pot gs) 0) LasVegas]
                          (orElse (pot gs) 0) now])%list).
    { unfold db', calculateWinners. rewrite Hgs, Elk. reflexivity. }
    eexists. eexists. split; [| split; [exact Hh |]]; [discriminate |].
    split; [exact Hg |]. split; [now destruct gs |]. split; [now destruct gs |].
    now apply (Hnext _ Hg).
  - apply Hnormal; [apply (Hd None); auto | reflexivity].
Qed.

Lemma settlement_history_then_next_hand_witness :
  settles (Some "c") db_settle = true
  /\ exists info gs',
       info <> []
       /\ history (fst (calculateWinners (Some "c") 7 db_settle))
          = [mkHistoryEntry info 10 7]
       /\ gameState (fst (calculateWinners (Some "c") 7 db_settle)) = Some gs'
       /\ pot gs' = 10.
Proof.
  split; [reflexivity |].
  destruct (settlement_history_then_next_hand (Some "c") 7 db_settle _
              (browser "a" true 0 "") eq_refl eq_refl)
    as [info [gs' [H1 [H2 [H3 [_ [H5 _]]]]]]].
  exists info, gs'. split; [exact H1 |]. split; [exact H2 |]. split; [exact H3 |]. exact H5.
Defined.

(** * Further properties of the round engine *)

(** ** Reveals draw fresh values *)

Lemma availableValues_spec (gs : GameState) (v : string) :
  In v (availableValues gs) <-> In v VALUES /\ ~ In v (map value (revealedCards gs)).
Proof.
  unfold availableValues. rewrite filter_In, negb_true_iff. split.
  - intros [H1 H2]. split; [assumption |]. intros H. apply includes_In in H. congruence.
  - intros [H1 H2]. split; [assumption |].
    destruct (includes v (map value (revealedCards gs))) eqn:E; [| reflexivity].
    apply includes_In in E. contradiction.
Qed.

Lemma tableFull_available (gs : GameState) :
  tableFull gs = true <-> availableValues gs = [].
Proof.
  unfold tableFull. rewrite forallb_forall. split.
  - intros H. destruct (availableValues gs) as [| v l] eqn:E; [reflexivity |].
    assert (Hv : In v (availableValues gs)) by (rewrite E; now left).
    apply availableValues_spec in Hv as [Hv1 Hv2]. exfalso. apply Hv2.
    now apply includes_In, H.
  - intros H v Hv. destruct (includes v (map value (revealedCards gs))) eqn:E; [reflexivity |].
    assert (Hin : In v (availableValues gs)).
    { apply availableValues_spec. split; [assumption |]. intros Hc.
      apply includes_In in Hc. congruence. }
    rewrite H in Hin. contradiction.
Qed.

Lemma revealNextCard_written (rv rs : nat) (c : Client) (db : Store) (gs : GameState) :
  gameState db = Some gs -> availableValues gs <> [] ->
  exists shown gs',
    In (value shown) (availableValues gs)
    /\ r_written (fst (revealNextCard rv rs c db)) = true
    /\ gameState (r_store (fst (revealNextCard rv rs c db))) = Some gs'
    /\ revealedCards gs' = (revealedCards gs ++ [shown])%list
    /\ totalCards gs' = totalCards gs /\ pot gs' = pot gs
    /\ exists gs'',
         gameState (revealAndSettle rv rs c db) = Some gs''
         /\ revealedCards gs'' = revealedCards gs'
         /\ currentBet gs'' = 0 /\ currentPlayerTurn gs'' = ""
         /\ phase gs''
            = (if (totalCards gs <=? Z.of_nat (List.length (revealedCards gs)) + 1)%Z
               then final else betting)
         /\ waitingForDealer gs''
            = negb (totalCards gs <=? Z.of_nat (List.length (revealedCards gs)) + 1)%Z.
Proof.
  intros Hgs Hav. unfold revealAndSettle, revealNextCard. rewrite Hgs.
  fold (availableValues gs).
  destruct (nth_error_mod (availableValues gs) rv Hav) as [v Hv]. rewrite Hv.
  destruct (nth_error_mod SUITS rs ltac:(discriminate)) as [s Hs]. rewrite Hs.
  rewrite length_app. simpl List.length. rewrite Nat2Z.inj_add. simpl (Z.of_nat 1).
  exists (mkCard v (symbol s) (suitColor s)).
  destruct (totalCards gs <=? Z.of_nat (List.length (revealedCards gs)) + 1)%Z.
  all: simpl fst; simpl snd; cbv iota; simpl r_store.
  all: unfold applySilentDiscard, state_update, db_update; simpl gameState.
  all: rewrite Hgs; simpl.
  all: eexists; split; [now apply nth_error_In in Hv |].
  all: split; [reflexivity |]; split; [reflexivity |].
  all: destruct gs; simpl; repeat split; try reflexivity.
  all: eexists; repeat split; reflexivity.
Qed.

(** X1. A reveal never repeats a value: the card it appends carries one of
    the thirteen values that is not yet on the table, so the values on the
    table stay pairwise different; the cards already shown stay where they
    are, also once the timer of the reveal has fired. When all thirteen
    values are out, the reveal is refused and nothing is written. *)
Theorem revealNextCard_fresh_value (rv rs : nat) (c : Client) (db : Store) (gs : GameState)
    (Hgs : gameState db = Some gs) :
  (tableFull gs = false ->
   exists shown gs' gs'',
     gameState (r_store (fst (revealNextCard rv rs c db))) = Some gs'
     /\ gameState (revealAndSettle rv rs c db) = Some gs''
     /\ revealedCards gs' = (revealedCards gs ++ [shown])%list
     /\ revealedCards gs'' = (revealedCards gs ++ [shown])%list
     /\ In (value shown) VALUES
     /\ ~ In (value shown) (map value (revealedCards gs))
     /\ (NoDup (map value (revealedCards gs)) -> NoDup (map value (revealedCards gs'))))
  /\ (tableFull gs = true ->
      revealNextCard rv rs c db = (refuse c db [mkToast "Errore" true], None)
      /\ revealAndSettle rv rs c db = db).
Proof.
  split.
  - intros Hfull.
    assert (Hav : availableValues gs <> []).
    { intros H. apply tableFull_available in H. congruence. }
    destruct (revealNextCard_written rv rs c db gs Hgs Hav)
      as [shown [gs' [Hin [_ [Hg [Hr [_ [_ [gs'' [Hg2 [Hr2 _]]]]]]]]]]].
    apply availableValues_spec in Hin as [Hv Hfresh].
    exists shown, gs', gs''. repeat split; try assumption.
    + now rewrite Hr2.
    + intros Hnd. rewrite Hr, map_app. simpl map.
      apply NoDup_app; [assumption | repeat constructor; intros [] |].
      intros x Hx [<- | []]. contradiction.
  - intros Hfull. apply tableFull_available in Hfull.
    unfold revealAndSettle, revealNextCard. rewrite Hgs.
    fold (availableValues gs). rewrite Hfull.
    assert (Hn : nth_error (@nil string) (Nat.modulo rv (List.length (@nil string))) = None)
      by now destruct (Nat.modulo rv (List.length (@nil string))).
    rewrite Hn. split; reflexivity.
Qed.

Lemma revealNextCard_fresh_value_witness :
  tableFull (table revealing 3 (1 # 2) [card "9" "♥"] 4 "p1") = false
  /\ exists shown, In (value shown) VALUES /\ value shown <> "9".
Proof.
  split; [reflexivity |].
  destruct (proj1 (revealNextCard_fresh_value 4 0 (browser "p1" true 0 "") db_mid_reveal _
                     eq_refl) eq_refl)
    as [shown [g1 [g2 [_ [_ [_ [_ [Hv [Hf _]]]]]]]]].
  exists shown. split; [exact Hv |]. intros E. apply Hf. left. symmetry. exact E.
Defined.

(** ** The discard, run again, and the declared score *)

Lemma flat_map_nil {A B : Type} (f : A -> list B) (l : list A) :
  (forall x, In x l -> f x = []) -> flat_map f l = [].
Proof.
  induction l as [| x l IH]; intros H; [reflexivity |]. simpl.
  rewrite (H x (or_introl eq_refl)), IH; [reflexivity |].
  intros y Hy. apply H. now right.
Qed.

Lemma db_update_nil (db : Store) : db_update [] db = db.
Proof. now destruct db. Qed.

Lemma lastOf_In {A : Type} (l : list A) (x : A) : lastOf l = Some x -> In x l.
Proof. unfold lastOf. apply nth_error_In. Qed.

Lemma discarded_no_match (r : CardObj) (p : Player) :
  filter (fun c => (value c =? value r)%string) (handOf (discarded r p)) = [].
Proof.
  rewrite handOf_discarded.
  induction (handOf p) as [| c h IH]; [reflexivity |]. simpl.
  destruct (value c =? value r)%string eqn:E; simpl; [exact IH |].
  now rewrite E.
Qed.

Lemma discardPaths_after (r : CardObj) (db : Store) (gs : GameState) (i : string) :
  gameState db = Some gs -> lastOf (revealedCards gs) = Some r ->
  discardPaths r (players (applySilentDiscard (gameState db) (players db) db)) i = [].
Proof.
  intros Hgs Hr. unfold discardPaths.
  destruct (lookup i (players db)) as [p |] eqn:Hp.
  - rewrite (applySilentDiscard_player db gs r i p Hgs Hr Hp).
    pose proof (discarded_no_match r p) as Hno. unfold handOf in Hno.
    destruct (hand (discarded r p)) as [[| c h] |]; try reflexivity.
    now rewrite Hno.
  - unfold applySilentDiscard. now rewrite lookup_db_update, Hp.
Qed.

(** X2. The discard is idempotent: run a second time on the document it
    has left, for the same table, it changes nothing. *)
Theorem applySilentDiscard_idempotent (db : Store) :
  let db1 := applySilentDiscard (gameState db) (players db) db in
  applySilentDiscard (gameState db1) (players db1) db1 = db1.
Proof.
  intros db1. unfold applySilentDiscard at 1.
  assert (Hnone : silentDiscardUpdates (gameState db1) (players db1) = []).
  { unfold silentDiscardUpdates. subst db1. unfold applySilentDiscard at 1.
    rewrite gameState_db_update.
    destruct (gameState db) as [gs |] eqn:Hgs; [| reflexivity].
    destruct (lastOf (revealedCards gs)) as [r |] eqn:Hr; [| reflexivity].
    apply flat_map_nil. intros i _. rewrite <- Hgs.
    now apply (discardPaths_after r db gs i). }
  rewrite Hnone. apply db_update_nil.
Qed.

Lemma survivingHand_discarded (r : CardObj) (p : Player) (revealed : list CardObj) :
  In r revealed ->
  survivingHand (hand (discarded r p)) revealed = survivingHand (hand p) revealed.
Proof.
  intros Hr. unfold survivingHand.
  change (match hand (discarded r p) with Some l => l | None => [] end)
    with (handOf (discarded r p)).
  change (match hand p with Some l => l | None => [] end) with (handOf p).
  rewrite handOf_discarded.
  induction (handOf p) as [| c h IH]; [reflexivity |]. simpl.
  destruct (value c =? value r)%string eqn:E; simpl.
  - apply String.eqb_eq in E.
    assert (Hin : includes (value c) (map value revealed) = true).
    { apply includes_In. rewrite E. now apply in_map. }
    now rewrite Hin.
  - now rewrite IH.
Qed.

(** X3. Whether or not the discard has already been written to the stored
    hands, a declaration meets the same verdict: the same score is accepted,
    the same error is shown and the same toasts are raised. *)
Theorem submitFinal_same_after_discard (ch : Choice) (c : Client) (db : Store) :
  let db1 := applySilentDiscard (gameState db) (players db) db in
  r_written (submitFinal ch c db1) = r_written (submitFinal ch c db)
  /\ r_client (submitFinal ch c db1) = r_client (submitFinal ch c db)
  /\ r_toasts (submitFinal ch c db1) = r_toasts (submitFinal ch c db).
Proof.
  intros db1.
  assert (Hg : gameState db1 = gameState db) by reflexivity.
  destruct (gameState db) as [gs |] eqn:Hgs.
  2: { unfold submitFinal. rewrite Hg, Hgs.
       destruct (currentUser c db1), (currentUser c db); repeat split; reflexivity. }
  destruct (lastOf (revealedCards gs)) as [r |] eqn:Hr.
  2: { assert (E : db1 = db).
       { unfold db1, applySilentDiscard, silentDiscardUpdates. rewrite Hr.
         apply db_update_nil. }
       rewrite E. repeat split; reflexivity. }
  assert (Hu : currentUser c db1 = option_map (discarded r) (currentUser c db)).
  { unfold currentUser. destruct (localId c) as [i |]; [| reflexivity].
    destruct (lookup i (players db)) as [p |] eqn:Hp.
    - unfold db1. rewrite <- Hgs.
      now rewrite (applySilentDiscard_player db gs r i p).
    - unfold db1, applySilentDiscard. now rewrite lookup_db_update, Hp. }
  unfold submitFinal. rewrite Hu, Hg, Hgs.
  destruct (currentUser c db) as [me |]; simpl option_map; [| repeat split; reflexivity].
  destruct (finalScoreInput c =? "")%string; [repeat split; reflexivity |].
  destruct (parseInt (finalScoreInput c)) as [| d]; [repeat split; reflexivity |].
  rewrite !getFilteredHand_surviving.
  rewrite (survivingHand_discarded r me (revealedCards gs) (lastOf_In _ _ Hr)).
  destruct (negb (strict_eq (Num d) _)); repeat split; reflexivity.
Qed.

(** ** Turn order *)

Lemma insertByPosition_perm (p : Player) (l : list Player) :
  Permutation (insertByPosition p l) (p :: l).
Proof.
  induction l as [| q l IH]; simpl; [apply Permutation_refl |].
  destruct (position p <=? position q)%Z; [apply Permutation_refl |].
  apply perm_trans with (q :: p :: l); [now apply perm_skip | apply perm_swap].
Qed.

Lemma sortByPosition_perm (l : list Player) : Permutation (sortByPosition l) l.
Proof.
  unfold sortByPosition. induction l as [| p l IH]; simpl; [apply perm_nil |].
  apply perm_trans with (p :: fold_right insertByPosition [] l);
    [apply insertByPosition_perm | now apply perm_skip].
Qed.

Lemma unique_NoDup (l : list string) : unique l = true -> NoDup l.
Proof.
  induction l as [| x l IH]; simpl; [constructor |].
  intros H. apply andb_true_iff in H as [Hx Hl]. constructor; [| now apply IH].
  intros Hin. apply includes_In in Hin. apply negb_true_iff in Hx. congruence.
Qed.

Lemma NoDup_map_filter {A B : Type} (g : A -> B) (f : A -> bool) (l : list A) :
  NoDup (map g l) -> NoDup (map g (filter f l)).
Proof.
  induction l as [| x l IH]; simpl; [constructor |].
  intros H. inversion H as [| ? ? Hx Hl]; subst.
  destruct (f x); [| now apply IH]. simpl. constructor; [| now apply IH].
  intros Hin. apply Hx. apply in_map_iff in Hin as [y [Hy1 Hy2]].
  apply in_map_iff. exists y. split; [assumption |]. now apply filter_In in Hy2.
Qed.

Lemma turnList_NoDup (ps : list Player) :
  unique_ids ps = true -> NoDup (map id (sortByPosition (activePlayers ps))).
Proof.
  intros Hu. apply (Permutation_NoDup (l := map id (activePlayers ps))).
  - apply Permutation_map, Permutation_sym, sortByPosition_perm.
  - unfold activePlayers. apply NoDup_map_filter. now apply unique_NoDup.
Qed.

Lemma findIndex_Some {A : Type} (f : A -> bool) (l : list A) (k : nat) :
  findIndex f l = Some k -> exists x, nth_error l k = Some x /\ f x = true.
Proof.
  revert k. induction l as [| a l IH]; intros k H; [discriminate |]. simpl in H.
  destruct (f a) eqn:E.
  - injection H as <-. now exists a.
  - destruct (findIndex f l) as [j |]; [| discriminate]. injection H as <-.
    now apply IH.
Qed.

Lemma findIndex_None {A : Type} (f : A -> bool) (l : list A) :
  findIndex f l = None -> forall x, In x l -> f x = false.
Proof.
  induction l as [| a l IH]; intros H x Hx; [contradiction |]. simpl in H.
  destruct (f a) eqn:E; [discriminate |].
  destruct (findIndex f l); [discriminate |].
  destruct Hx as [<- | Hx]; [assumption | now apply IH].
Qed.

Lemma next_index_differs (k n : nat) :
  (k < n)%nat -> (2 <= n)%nat -> Nat.modulo (k + 1) n <> k.
Proof.
  intros Hk Hn. destruct (Nat.eq_dec (k + 1) n) as [E | E].
  - rewrite E, Nat.Div0.mod_same. lia.
  - rewrite Nat.mod_small; lia.
Qed.

Lemma activePlayers_In (ps : list Player) (p : Player) :
  In p (sortByPosition (activePlayers ps)) <->
  In p ps /\ folded p = false /\ 0 < balance p.
Proof.
  rewrite sortByPosition_In. unfold activePlayers. rewrite filter_In, andb_true_iff.
  rewrite negb_true_iff, Qlt_bool_true. tauto.
Qed.

Lemma getNextActivePlayerId_facts (gs : GameState) (ps : list Player)
    (Hu : unique_ids ps = true) :
  (forall i, getNextActivePlayerId (Some gs) ps = Some i ->
     i <> currentPlayerTurn gs
     /\ exists p, In p ps /\ id p = i /\ folded p = false /\ 0 < balance p)
  /\ (getNextActivePlayerId (Some gs) ps = None <->
      (List.length (activePlayers ps) <= 1)%nat).
Proof.
  assert (Hlen : List.length (sortByPosition (activePlayers ps))
                 = List.length (activePlayers ps))
    by apply Permutation_length, sortByPosition_perm.
  unfold getNextActivePlayerId. fold (activePlayers ps).
  set (L := sortByPosition (activePlayers ps)) in *.
  split.
  - intros i Hi.
    destruct (List.length L <=? 1)%nat eqn:El; [discriminate |].
    apply Nat.leb_gt in El.
    destruct (findIndex (fun p => (id p =? currentPlayerTurn gs)%string) L) as [k |] eqn:Ef.
    + destruct (findIndex_Some _ _ _ Ef) as [q [Hq1 Hq2]]. apply String.eqb_eq in Hq2.
      destruct (nth_error L (Nat.modulo (k + 1) (List.length L))) as [p |] eqn:Ep;
        [| discriminate].
      injection Hi as <-.
      assert (Hk : (k < List.length L)%nat) by (apply nth_error_Some; congruence).
      split.
      * intros Heq. rewrite <- Hq2 in Heq.
        pose proof (turnList_NoDup ps Hu) as Hnd. fold L in Hnd.
        apply (next_index_differs k (List.length L)); [assumption | lia |].
        apply (proj1 (NoDup_nth_error (map id L)) Hnd).
        -- rewrite length_map. apply Nat.mod_upper_bound. lia.
        -- rewrite !nth_error_map, Ep, Hq1. simpl. now f_equal.
      * exists p. apply nth_error_In in Ep. apply activePlayers_In in Ep.
        destruct Ep as [H1 [H2 H3]]. now repeat split.
    + destruct (nth_error L 0) as [p |] eqn:Ep; [| discriminate]. injection Hi as <-.
      apply nth_error_In in Ep. split.
      * intros Heq. pose proof (findIndex_None _ _ Ef p Ep) as Hf. simpl in Hf.
        apply String.eqb_neq in Hf. contradiction.
      * exists p. apply activePlayers_In in Ep. destruct Ep as [H1 [H2 H3]].
        now repeat split.
  - rewrite <- Hlen. split.
    + destruct (List.length L <=? 1)%nat eqn:El; [intros _; now apply Nat.leb_le |].
      apply Nat.leb_gt in El.
      destruct (findIndex _ L) as [k |].
      * destruct (nth_error L (Nat.modulo (k + 1) (List.length L))) eqn:Ep; [discriminate |].
        apply nth_error_None in Ep.
        pose proof (Nat.mod_upper_bound (k + 1) (List.length L)). lia.
      * destruct (nth_error L 0) eqn:Ep; [discriminate |].
        apply nth_error_None in Ep. lia.
    + intros Hle. apply Nat.leb_le in Hle. now rewrite Hle.
Qed.

(** X4. The next turn goes only to a player who has not folded and has
    money left; there is none exactly when fewer than two such players
    remain; with distinct player keys it never stays with the player who
    holds the turn; and in the order A, B, C with B folded, the turn after
    A's is C's. *)
Theorem getNextActivePlayerId_active (gs : GameState) (ps : list Player)
    (Hu : unique_ids ps = true) :
  (forall i, getNextActivePlayerId (Some gs) ps = Some i ->
     i <> currentPlayerTurn gs
     /\ exists p, In p ps /\ id p = i /\ folded p = false /\ 0 < balance p)
  /\ (getNextActivePlayerId (Some gs) ps = None <->
      (List.length (activePlayers ps) <= 1)%nat)
  /\ getNextActivePlayerId (gameState db_three) (players db_three) = Some "c".
Proof.
  destruct (getNextActivePlayerId_facts gs ps Hu) as [H1 H2].
  split; [exact H1 |]. split; [exact H2 | reflexivity].
Qed.

Lemma getNextActivePlayerId_active_witness :
  unique_ids (players db_three) = true
  /\ (forall i, getNextActivePlayerId (gameState db_three) (players db_three) = Some i ->
        i <> "a").
Proof.
  split; [reflexivity |]. intros i Hi.
  exact (proj1 (proj1 (getNextActivePlayerId_active
                         (table betting 3 1 [card "9" "♥"] 4 "a")
                         (players db_three) eq_refl) i Hi)).
Defined.

(** ** Check, fold and the bot's move *)

Lemma keys_db_update (us : list Update) (db : Store) :
  keys (players (db_update us db)) = keys (players db).
Proof.
  rewrite players_db_update. unfold keys. rewrite map_map.
  apply map_ext. intros p. apply apply_updates_id.
Qed.

Lemma apply_updates_money (us : list Update) (p : Player) :
  (forall u, In u us -> fst u = id p -> touchesMoney u = false) ->
  balance (apply_updates us p) = balance p
  /\ totalBetThisHand (apply_updates us p) = totalBetThisHand p.
Proof.
  revert p. induction us as [| u us IH]; intros p H; [now split |].
  change (apply_updates (u :: us) p) with (apply_updates us (apply_update u p)).
  assert (Hstep : balance (apply_update u p) = balance p
                  /\ totalBetThisHand (apply_update u p) = totalBetThisHand p).
  { unfold apply_update. destruct (id p =? fst u)%string eqn:E; [| now split].
    apply String.eqb_eq in E. specialize (H u (or_introl eq_refl) (eq_sym E)).
    unfold touchesMoney in H. destruct p, (snd u); simpl in *; try discriminate; now split. }
  destruct Hstep as [Hb Ht]. rewrite <- Hb, <- Ht. apply IH.
  intros v Hv Hk. apply H; [now right |]. now rewrite apply_update_id in Hk.
Qed.

Lemma handleCheck_written (c : Client) (db : Store) (gs : GameState) (me : Player) :
  gameState db = Some gs -> currentUser c db = Some me ->
  r_written (handleCheck c db) = true ->
  waitingForDealer gs = false
  /\ (isAdminMode c = true \/ currentPlayerTurn gs = id me)
  /\ lastBet me == currentBet gs
  /\ r_store (handleCheck c db)
     = state_update
         [S_currentPlayerTurn (orEmpty (getNextActivePlayerId (Some gs) (players db)))]
         (db_update [(id me, F_hasActed true)] db).
Proof.
  intros Hgs Hme. destruct (currentUser_localId c db me Hme) as [Hlid _].
  unfold handleCheck. rewrite Hgs, Hme, Hlid.
  destruct (waitingForDealer gs); [discriminate |].
  destruct (negb (isAdminMode c) && negb (currentPlayerTurn gs =? id me)%string) eqn:Eturn;
    [discriminate |].
  destruct (Qeq_bool (lastBet me) (currentBet gs)) eqn:Eq; [| discriminate].
  intros _. split; [reflexivity |]. split.
  { apply andb_false_iff in Eturn as [E | E].
    - left. now apply negb_false_iff in E.
    - right. apply negb_false_iff in E. now apply String.eqb_eq in E. }
  split; [now apply Qeq_bool_eq | reflexivity].
Qed.

Lemma handleCheck_refused (c : Client) (db : Store) :
  r_written (handleCheck c db) = false -> r_store (handleCheck c db) = db.
Proof.
  unfold handleCheck.
  destruct (gameState db) as [gs |]; [| reflexivity].
  destruct (currentUser c db) as [me |]; [| reflexivity].
  destruct (localId c) as [lid |]; [| reflexivity].
  destruct (waitingForDealer gs); [reflexivity |].
  destruct (negb (isAdminMode c) && negb (currentPlayerTurn gs =? lid)%string);
    [reflexivity |].
  destruct (Qeq_bool (lastBet me) (currentBet gs)); [discriminate | reflexivity].
Qed.

Lemma one_update_self (f : PlayerField) (p : Player) :
  apply_updates [(id p, f)] p = set_player_field f p.
Proof. unfold apply_updates, apply_update. simpl. now rewrite String.eqb_refl. Qed.

Lemma keyed_other (i : string) (us : list Update) (p : Player) :
  (forall u, In u us -> fst u = i) -> id p <> i -> apply_updates us p = p.
Proof.
  intros Hk Hne. apply apply_updates_other. intros u Hu. rewrite (Hk u Hu). congruence.
Qed.

(** X5. A check goes through exactly when the table is past the dealer
    gate, it is the player's turn (or the admin acts) and the player owes
    nothing ([lastBet] equals [currentBet]). It then marks the player as
    having acted and passes the turn; no balance, no stake, no bet and no
    pot moves. A refused check writes nothing. *)
Theorem handleCheck_effect (c : Client) (db : Store) (gs : GameState) (me : Player)
    (Hgs : gameState db = Some gs)
    (Hme : currentUser c db = Some me) :
  let r := handleCheck c db in
  (r_written r = true <->
   waitingForDealer gs = false
   /\ (isAdminMode c = true \/ currentPlayerTurn gs = id me)
   /\ lastBet me == currentBet gs)
  /\ (r_written r = true ->
      lookup (id me) (players (r_store r)) = Some (set_player_field (F_hasActed true) me)
      /\ (forall i p, i <> id me -> lookup i (players db) = Some p ->
            lookup i (players (r_store r)) = Some p)
      /\ gameState (r_store r)
         = Some (set_state_field
                   (S_currentPlayerTurn
                      (orEmpty (getNextActivePlayerId (Some gs) (players db)))) gs)
      /\ history (r_store r) = history db)
  /\ (r_written r = false -> r_store r = db /\ r_toasts r <> []).
Proof.
  intros r. destruct (currentUser_localId c db me Hme) as [Hlid Hlk].
  split; [| split].
  - split.
    + intros Hw. destruct (handleCheck_written c db gs me Hgs Hme Hw) as [H1 [H2 [H3 _]]].
      now repeat split.
    + intros [H1 [H2 H3]]. unfold r, handleCheck. rewrite Hgs, Hme, Hlid, H1.
      assert (Et : negb (isAdminMode c) && negb (currentPlayerTurn gs =? id me)%string = false).
      { destruct H2 as [-> | ->]; [reflexivity |]. rewrite String.eqb_refl. apply andb_false_r. }
      rewrite Et. apply Qeq_bool_iff in H3. now rewrite H3.
  - intros Hw. destruct (handleCheck_written c db gs me Hgs Hme Hw) as [_ [_ [_ Hst]]].
    unfold r. rewrite Hst. rewrite players_state_update.
    split; [now rewrite lookup_db_update, Hlk, <- one_update_self |].
    split.
    { intros i p Hne Hp. rewrite lookup_db_update, Hp. cbn [option_map]. f_equal.
      apply (keyed_other (id me)).
      - intros u [<- | []]. reflexivity.
      - now rewrite (lookup_id _ _ _ Hp). }
    split; [| reflexivity].
    unfold state_update. simpl. now rewrite Hgs.
  - intros Hw. split; [now apply handleCheck_refused |].
    revert Hw. unfold r, handleCheck. rewrite Hgs, Hme, Hlid.
    destruct (waitingForDealer gs); [discriminate |].
    destruct (negb (isAdminMode c) && negb (currentPlayerTurn gs =? id me)%string);
      [discriminate |].
    destruct (Qeq_bool (lastBet me) (currentBet gs)); discriminate.
Qed.

Lemma handleCheck_effect_witness :
  currentUser (browser "p1" true 0 "") db_betting <> None
  /\ r_written (handleCheck (browser "p1" true 0 "") db_betting) = true
  /\ r_written (handleCheck (browser "p2" false 0 "") db_betting) = false.
Proof.
  split; [discriminate |].
  destruct (handleCheck_effect (browser "p1" true 0 "") db_betting _ _ eq_refl eq_refl)
    as [Hiff _].
  split.
  - apply Hiff. split; [reflexivity |]. split; [now left | reflexivity].
  - reflexivity.
Defined.

Lemma handleFold_written (c : Client) (db : Store) (gs : GameState) (me : Player) :
  gameState db = Some gs -> currentUser c db = Some me ->
  r_written (handleFold c db) = true ->
  waitingForDealer gs = false
  /\ (isAdminMode c = true \/ currentPlayerTurn gs = id me)
  /\ r_store (handleFold c db)
     = state_update
         [S_currentPlayerTurn (orEmpty (getNextActivePlayerId (Some gs) (players db)))]
         (db_update [(id me, F_folded true); (id me, F_hasActed true)] db).
Proof.
  intros Hgs Hme. destruct (currentUser_localId c db me Hme) as [Hlid _].
  unfold handleFold. rewrite Hgs, Hme, Hlid.
  destruct (waitingForDealer gs); [discriminate |].
  destruct (negb (isAdminMode c) && negb (currentPlayerTurn gs =? id me)%string) eqn:Eturn;
    [discriminate |].
  intros _. split; [reflexivity |]. split; [| reflexivity].
  apply andb_false_iff in Eturn as [E | E].
  - left. now apply negb_false_iff in E.
  - right. apply negb_false_iff in E. now apply String.eqb_eq in E.
Qed.

Lemma handleFold_refused (c : Client) (db : Store) :
  r_written (handleFold c db) = false -> r_store (handleFold c db) = db.
Proof.
  unfold handleFold.
  destruct (gameState db) as [gs |]; [| reflexivity].
  destruct (currentUser c db) as [me |]; [| reflexivity].
  destruct (localId c) as [lid |]; [| reflexivity].
  destruct (waitingForDealer gs); [reflexivity |].
  destruct (negb (isAdminMode c) && negb (currentPlayerTurn gs =? lid)%string);
    [reflexivity | discriminate].
Qed.

Lemma two_updates_self (f g : PlayerField) (p : Player) :
  apply_updates [(id p, f); (id p, g)] p = set_player_field g (set_player_field f p).
Proof.
  unfold apply_updates, apply_update. simpl.
  now rewrite String.eqb_refl, set_player_field_id, String.eqb_refl.
Qed.

Lemma winners_not_folded (ps : list Player) (p : Player) :
  In p (minWinnersOf ps) \/ In p (maxWinnersOf ps) -> folded p = false.
Proof.
  unfold minWinnersOf, maxWinnersOf, minGroup, maxGroup, declaredPlayers.
  intros [H | H]; apply filter_In in H as [H _]; apply filter_In in H as [H _];
    apply filter_In in H as [_ H]; apply andb_true_iff in H as [H _];
    apply andb_true_iff in H as [H _]; now apply negb_true_iff in H.
Qed.

(** A normal settlement leaves a folded player as it finds it. *)
Lemma settlement_skips_folded (now : Z) (db : Store) (p : Player) :
  unique_ids (players db) = true -> In p (players db) -> folded p = true ->
  lookup (id p) (players (fst (calculateWinners None now db))) = Some p.
Proof.
  intros Hu Hin Hf.
  destruct (gameState db) as [gs |] eqn:Hgs.
  2: { unfold calculateWinners. rewrite Hgs. now apply unique_lookup. }
  destruct (declaredPlayers (players db)) as [| d0 dl] eqn:Ed.
  { unfold calculateWinners. rewrite Hgs, Ed. now apply unique_lookup. }
  assert (Hd : declaredPlayers (players db) <> []) by (rewrite Ed; discriminate).
  destruct (calculateWinners_normal now db gs Hgs Hd) as [Hps _].
  rewrite Hps, settleGroup_min, settleGroup_max. simpl fst.
  fold (minWinnersOf (players db)) (maxWinnersOf (players db)).
  rewrite lookup_map by apply apply_updates_id.
  rewrite (unique_lookup _ _ Hu Hin). simpl option_map. f_equal.
  rewrite apply_updates_app.
  assert (Hnmin : ~ In p (minWinnersOf (players db))).
  { intros H. pose proof (winners_not_folded _ p (or_introl H)). congruence. }
  assert (Hnmax : ~ In p (maxWinnersOf (players db))).
  { intros H. pose proof (winners_not_folded _ p (or_intror H)). congruence. }
  rewrite (balance_updates_miss (players db) Hu _ p (minWinnersOf (players db)) p); auto.
  - rewrite (balance_updates_miss (players db) Hu _ p (maxWinnersOf (players db)) p); auto.
    intros w Hw. now apply maxWinners_In in Hw.
  - intros w Hw. now apply minWinners_In in Hw.
Qed.

(** X6. A fold that goes through marks the player as folded and as having
    acted and passes the turn; the player keeps balance and stake (nothing
    is refunded), and no other player, bet or pot moves. From then on the
    turn never comes back to the folded player, and a normal settlement
    pays that player nothing. *)
Theorem handleFold_effect (c : Client) (db : Store) (gs : GameState) (me : Player)
    (Hgs : gameState db = Some gs)
    (Hme : currentUser c db = Some me)
    (Hu : unique_ids (players db) = true)
    (Hw : r_written (handleFold c db) = true) :
  let db' := r_store (handleFold c db) in
  exists me',
    lookup (id me) (players db') = Some me'
    /\ folded me' = true /\ hasActed me' = true
    /\ balance me' = balance me /\ totalBetThisHand me' = totalBetThisHand me
    /\ lastBet me' = lastBet me /\ hand me' = hand me
    /\ (forall i p, i <> id me -> lookup i (players db) = Some p ->
          lookup i (players db') = Some p)
    /\ gameState db'
       = Some (set_state_field
                 (S_currentPlayerTurn
                    (orEmpty (getNextActivePlayerId (Some gs) (players db)))) gs)
    /\ (forall g, getNextActivePlayerId (Some g) (players db') <> Some (id me))
    /\ (forall now, lookup (id me) (players (fst (calculateWinners None now db'))) = Some me').
Proof.
  intros db'. destruct (currentUser_localId c db me Hme) as [Hlid Hlk].
  destruct (handleFold_written c db gs me Hgs Hme Hw) as [_ [_ Hst]].
  assert (Hps : players db'
                = players (db_update [(id me, F_folded true); (id me, F_hasActed true)] db)).
  { unfold db'. now rewrite Hst. }
  assert (Hu' : unique_ids (players db') = true).
  { unfold unique_ids. rewrite Hps, keys_db_update. exact Hu. }
  exists (set_player_field (F_hasActed true) (set_player_field (F_folded true) me)).
  assert (Hme' : lookup (id me) (players db')
                 = Some (set_player_field (F_hasActed true)
                           (set_player_field (F_folded true) me))).
  { now rewrite Hps, lookup_db_update, Hlk, <- two_updates_self. }
  split; [exact Hme' |].
  do 6 (split; [now destruct me |]).
  split.
  { intros i p Hne Hp. rewrite Hps, lookup_db_update, Hp. cbn [option_map]. f_equal.
    apply (keyed_other (id me)).
    - intros u [<- | [<- | []]]; reflexivity.
    - now rewrite (lookup_id _ _ _ Hp). }
  split.
  { unfold db'. rewrite Hst. unfold state_update. simpl. now rewrite Hgs. }
  split.
  { intros g Hn.
    destruct (proj1 (getNextActivePlayerId_facts g (players db') Hu') (id me) Hn)
      as [_ [p [Hp [Hid [Hf _]]]]].
    assert (p = set_player_field (F_hasActed true) (set_player_field (F_folded true) me)).
    { pose proof (unique_lookup _ _ Hu' Hp) as H. rewrite Hid, Hme' in H. congruence. }
    subst p. destruct me; discriminate. }
  intros now.
  pose proof (settlement_skips_folded now db'
                (set_player_field (F_hasActed true) (set_player_field (F_folded true) me))
                Hu' (lookup_In _ _ _ Hme')) as H.
  rewrite !set_player_field_id in H. apply H. now destruct me.
Qed.

Lemma handleFold_effect_witness :
  unique_ids (players db_betting) = true
  /\ r_written (handleFold (browser "p2" false 0 "") db_betting) = true
  /\ exists me',
       lookup "p2" (players (r_store (handleFold (browser "p2" false 0 "") db_betting)))
       = Some me'
       /\ folded me' = true /\ balance me' = 19 # 2.
Proof.
  split; [reflexivity |]. split; [reflexivity |].
  destruct (handleFold_effect (browser "p2" false 0 "") db_betting _ _
              eq_refl eq_refl eq_refl eq_refl)
    as [me' [H1 [H2 [_ [H4 _]]]]].
  exists me'. split; [exact H1 |]. split; [exact H2 | exact H4].
Defined.

Lemma update_self_cons (i : string) (f : PlayerField) (us : list Update) (q : Player) :
  id q = i -> apply_updates ((i, f) :: us) q = apply_updates us (set_player_field f q).
Proof.
  intros <-. unfold apply_updates. simpl. unfold apply_update. simpl.
  now rewrite String.eqb_refl.
Qed.

Ltac self_updates :=
  repeat (rewrite update_self_cons by (rewrite ?set_player_field_id; assumption));
  change (apply_updates [] ?q) with q.

Lemma state_fields (fs : list StateField) (db : Store) (gs : GameState) :
  gameState db = Some gs ->
  gameState (state_update fs db)
  = Some (fold_left (fun g f => set_state_field f g) fs gs).
Proof. intros H. unfold state_update. simpl. now rewrite H. Qed.

Lemma botTurn_cases (c : Client) (db : Store) (gs : GameState) (bot : Player) :
  gameState db = Some gs -> botMayAct c gs = true ->
  currentPlayerTurn gs <> "" ->
  lookup (currentPlayerTurn gs) (players db) = Some bot -> isBot bot = true ->
  let i := currentPlayerTurn gs in
  let cb := orElse (currentBet gs) 0 in
  let bal := orElse (balance bot) 0 in
  let next := orEmpty (getNextActivePlayerId (Some gs) (players db)) in
  botTurn c db
  = if Qeq_bool cb 0 || Qle_bool cb (orElse (lastBet bot) 0) then
      state_update [S_currentPlayerTurn next]
        (db_update [(i, F_hasActed true); (i, F_lastBet cb)] db)
    else if Qlt_bool bal (botDiff gs bot) then
      state_update [S_currentPlayerTurn next]
        (db_update [(i, F_folded true); (i, F_hasActed true)] db)
    else
      db_update
        [ (i, F_balance (toFixed2 (bal - botDiff gs bot)));
          (i, F_lastBet cb);
          (i, F_hasActed true);
          (i, F_totalBetThisHand (orElse (totalBetThisHand bot) 0 + botDiff gs bot)) ]
        (state_update
           [ S_pot (toFixed2 (orElse (pot gs) 0 + botDiff gs bot));
             S_currentPlayerTurn next ] db).
Proof.
  intros Hgs Hact Hne Hlk Hbot. unfold botMayAct in Hact.
  apply andb_true_iff in Hact as [Hact Hw]. apply andb_true_iff in Hact as [Hc Hph].
  apply negb_true_iff in Hw. apply String.eqb_neq in Hne.
  unfold botTurn. rewrite Hgs, Hc, Hw, Hne, Hlk, Hbot.
  destruct (phase gs); try discriminate. reflexivity.
Qed.

(** ** Sums over the seats *)

Lemma sumQ_map_same (F : Player -> Q) (f : Player -> Player) (ps : list Player) :
  (forall p, In p ps -> F (f p) == F p) -> sumQ F (map f ps) == sumQ F ps.
Proof.
  induction ps as [| q ps IH]; intros H; simpl; [reflexivity |].
  rewrite (H q (or_introl eq_refl)), IH; [reflexivity |].
  intros p Hp. apply H. now right.
Qed.


(** ** Shuffling and dealing *)

Lemma upd_length {A : Type} (l : list A) (n : nat) (x : A) :
  List.length (upd l n x) = List.length l.
Proof.
  revert n. induction l as [| a l IH]; intros [| n]; simpl; try reflexivity.
  now rewrite IH.
Qed.

Lemma upd_app_here {A : Type} (l1 r : list A) (y v : A) :
  upd (l1 ++ y :: r)%list (List.length l1) v = (l1 ++ v :: r)%list.
Proof. induction l1 as [| a l1 IH]; simpl; [reflexivity | now rewrite IH]. Qed.

Lemma upd_app_right {A : Type} (l1 r : list A) (k : nat) (v : A) :
  upd (l1 ++ r)%list (List.length l1 + k) v = (l1 ++ upd r k v)%list.
Proof. induction l1 as [| a l1 IH]; simpl; [reflexivity | now rewrite IH]. Qed.

Lemma swap_perm_lt {A : Type} (a : list A) (i j : nat) :
  (j < i)%nat -> Permutation (swap a i j) a.
Proof.
  intros Hlt. unfold swap.
  destruct (nth_error a i) as [x |] eqn:Ei; [| apply Permutation_refl].
  destruct (nth_error a j) as [y |] eqn:Ej; [| apply Permutation_refl].
  destruct (nth_error_split a j Ej) as [l1 [r [Ha Hl1]]]. subst a.
  assert (Ei' : nth_error r (i - j - 1) = Some x).
  { rewrite nth_error_app2 in Ei by lia. rewrite Hl1 in Ei.
    replace (i - j)%nat with (S (i - j - 1)) in Ei by lia. exact Ei. }
  destruct (nth_error_split r (i - j - 1) Ei') as [l2 [l3 [Hr Hl2]]]. subst r.
  replace i with (List.length l1 + S (List.length l2))%nat by lia.
  rewrite upd_app_right. simpl upd. rewrite <- Hl1, upd_app_here.
  replace (upd (l2 ++ x :: l3)%list (List.length l2) y) with (l2 ++ y :: l3)%list
    by (symmetry; apply upd_app_here).
  apply Permutation_app_head.
  apply perm_trans with (x :: y :: l2 ++ l3)%list.
  - apply perm_skip. apply Permutation_sym, Permutation_middle.
  - apply perm_trans with (y :: x :: l2 ++ l3)%list; [apply perm_swap |].
    apply perm_skip. apply Permutation_middle.
Qed.

Lemma swap_same {A : Type} (a : list A) (i : nat) : swap a i i = a.
Proof.
  unfold swap. destruct (nth_error a i) as [x |] eqn:E; [| reflexivity].
  destruct (nth_error_split a i E) as [l1 [r [-> <-]]].
  now rewrite upd_app_here, upd_app_here.
Qed.

Lemma shuffleFrom_perm {A : Type} (rand : nat -> nat) (i : nat) (a : list A) :
  Permutation (shuffleFrom rand i a) a.
Proof.
  revert a. induction i as [| i IH]; intros a; [apply Permutation_refl |].
  change (shuffleFrom rand (S i) a)
    with (shuffleFrom rand i (swap a (S i) (Nat.modulo (rand (S i)) (S i + 1)))).
  eapply perm_trans; [apply IH |].
  pose proof (Nat.mod_upper_bound (rand (S i)) (S i + 1) ltac:(lia)) as Hj.
  set (j := Nat.modulo (rand (S i)) (S i + 1)) in *.
  destruct (Nat.eq_dec j (S i)) as [E | E].
  - rewrite E, swap_same. apply Permutation_refl.
  - apply swap_perm_lt. lia.
Qed.

Lemma distinctCards_NoDup (l : list CardObj) :
  distinctCards l = true <-> NoDup (map cardKey l).
Proof.
  induction l as [| c l IH]; simpl; [split; [constructor | reflexivity] |].
  rewrite andb_true_iff, negb_true_iff, IH. split.
  - intros [Hc Hl]. constructor; [| assumption]. intros Hin.
    apply in_map_iff in Hin as [x [Hx1 Hx2]].
    assert (He : existsb (fun y => sameCard y c) l = true).
    { apply existsb_exists. exists x. split; [assumption |].
      unfold cardKey in Hx1. injection Hx1 as H1 H2. unfold sameCard.
      now rewrite H1, H2, !String.eqb_refl. }
    congruence.
  - intros H. inversion H as [| ? ? Hc Hl]; subst. split; [| assumption].
    destruct (existsb (fun y => sameCard y c) l) eqn:E; [| reflexivity].
    exfalso. apply Hc. apply existsb_exists in E as [x [Hx1 Hx2]].
    apply in_map_iff. exists x. split; [| assumption].
    unfold sameCard in Hx2. apply andb_true_iff in Hx2 as [H1 H2].
    apply String.eqb_eq in H1, H2. unfold cardKey. now rewrite H1, H2.
Qed.

(** X9. [shuffle] returns a rearrangement of its input, whatever the random
    draws: the same elements with the same multiplicities, hence the same
    length; the shuffled deck is the 52 cards of [buildDeck], each value and
    suit once. *)
Theorem shuffle_permutation {A : Type} (rand : nat -> nat) (arr : list A) :
  Permutation (shuffle rand arr) arr
  /\ List.length (shuffle rand arr) = List.length arr
  /\ (forall x, In x (shuffle rand arr) <-> In x arr)
  /\ List.length (shuffle rand buildDeck) = 52%nat
  /\ NoDup (map cardKey (shuffle rand buildDeck))
  /\ (forall v s, In v VALUES -> In s SUITS ->
        exists c, In c (shuffle rand buildDeck) /\ value c = v /\ suit c = symbol s).
Proof.
  assert (Hp : forall (B : Type) (l : list B), Permutation (shuffle rand l) l)
    by (intros B l; apply shuffleFrom_perm).
  split; [apply Hp |].
  split; [apply Permutation_length, Hp |].
  split.
  { intros x. split; apply Permutation_in; [apply Hp | apply Permutation_sym, Hp]. }
  split; [rewrite (Permutation_length (Hp _ buildDeck)); reflexivity |].
  split.
  { apply (Permutation_NoDup (l := map cardKey buildDeck)).
    - apply Permutation_map, Permutation_sym, Hp.
    - apply distinctCards_NoDup. reflexivity. }
  intros v s Hv Hs. exists (mkCard v (symbol s) (suitColor s)).
  split; [| split; reflexivity].
  apply (Permutation_in _ (Permutation_sym (Hp _ buildDeck))).
  unfold buildDeck. apply in_flat_map. exists v. split; [assumption |].
  apply in_map_iff. now exists s.
Qed.

Lemma players_db_patch (us : list Patch) (db : Store) :
  players (db_patch us db) = map (apply_patches us) (players db).
Proof.
  unfold db_patch. simpl. generalize (players db) as ps.
  induction us as [| u us IH]; intros ps; simpl.
  - symmetry. apply map_id.
  - rewrite IH, map_map. reflexivity.
Qed.

Lemma apply_patches_id (us : list Patch) (p : Player) :
  (forall u q, In u us -> id (snd u q) = id q) -> id (apply_patches us p) = id p.
Proof.
  revert p. induction us as [| u us IH]; intros p H; [reflexivity |].
  change (apply_patches (u :: us) p) with (apply_patches us (apply_patch u p)).
  rewrite IH by (intros v q Hv; apply H; now right).
  unfold apply_patch. destruct (id p =? fst u)%string; [| reflexivity].
  apply H. now left.
Qed.

Lemma apply_patches_other (us : list Patch) (p : Player) :
  (forall u, In u us -> fst u <> id p) -> apply_patches us p = p.
Proof.
  revert p. induction us as [| u us IH]; intros p H; [reflexivity |].
  change (apply_patches (u :: us) p) with (apply_patches us (apply_patch u p)).
  unfold apply_patch. destruct (id p =? fst u)%string eqn:E.
  - apply String.eqb_eq in E. exfalso. apply (H u); [now left | now symmetry].
  - apply IH. intros v Hv. apply H. now right.
Qed.

Lemma drawCards_index (deck : list CardObj) (n k : nat) :
  deck <> [] -> (k <= List.length deck)%nat ->
  (snd (drawCards deck n k) <= List.length deck)%nat.
Proof.
  intros Hne. revert k. induction n as [| n IH]; intros k Hk; simpl; [exact Hk |].
  apply IH. destruct (List.length deck <=? k)%nat eqn:E.
  - destruct deck; [contradiction | simpl; lia].
  - apply Nat.leb_gt in E. lia.
Qed.

Lemma drawCards_cards (deck : list CardObj) (d : CardObj) (n k : nat) :
  deck <> [] -> (k <= List.length deck)%nat ->
  fst (drawCards deck n k)
  = map (fun t => nth (Nat.modulo (k + t) (List.length deck)) deck d) (seq 0 n).
Proof.
  intros Hne. assert (HL : (0 < List.length deck)%nat) by (destruct deck; simpl; [contradiction | lia]).
  revert k. induction n as [| n IH]; intros k Hk; [reflexivity |].
  simpl drawCards. simpl seq. simpl map. rewrite Nat.add_0_r.
  set (k0 := if (List.length deck <=? k)%nat then 0%nat else k).
  assert (Hk0 : k0 = Nat.modulo k (List.length deck) /\ (k0 < List.length deck)%nat).
  { unfold k0. destruct (List.length deck <=? k)%nat eqn:E.
    - apply Nat.leb_le in E. assert (k = List.length deck) by lia. subst k.
      rewrite Nat.Div0.mod_same. split; [reflexivity | assumption].
    - apply Nat.leb_gt in E. rewrite Nat.mod_small by assumption. now split. }
  destruct Hk0 as [Hk0 Hlt].
  rewrite (nth_error_nth' deck d Hlt). simpl fst. rewrite <- Hk0. f_equal.
  rewrite IH by lia. rewrite <- seq_shift, map_map. apply map_ext. intros t.
  f_equal. rewrite Hk0.
  replace (S (Nat.modulo k (List.length deck)) + t)%nat
    with (Nat.modulo k (List.length deck) + S t)%nat by lia.
  now rewrite Nat.Div0.add_mod_idemp_l.
Qed.

Lemma mod_offsets_differ (k t t' L : nat) :
  (t < t')%nat -> (t' < L)%nat ->
  Nat.modulo (k + t) L <> Nat.modulo (k + t') L.
Proof.
  intros Ht Ht' E.
  pose proof (Nat.div_mod_eq (k + t) L) as H1.
  pose proof (Nat.div_mod_eq (k + t') L) as H2.
  rewrite E in H1.
  assert (Hq : (L * ((k + t') / L) = L * ((k + t) / L) + (t' - t))%nat) by lia.
  assert (Hle : ((k + t) / L <= (k + t') / L)%nat) by (apply Nat.Div0.div_le_mono; lia).
  set (q1 := ((k + t) / L)%nat) in *. set (q2 := ((k + t') / L)%nat) in *.
  destruct (Nat.eq_dec q1 q2) as [Eq | Eq]; [rewrite Eq in Hq; lia |].
  assert (Hm : (L * (q1 + 1) <= L * q2)%nat) by (apply Nat.mul_le_mono_l; lia).
  lia.
Qed.

Lemma NoDup_map_inj_in {A B : Type} (f : A -> B) (l : list A) :
  (forall x y, In x l -> In y l -> f x = f y -> x = y) -> NoDup l -> NoDup (map f l).
Proof.
  induction l as [| a l IH]; intros Hinj Hnd; simpl; [constructor |].
  inversion Hnd as [| ? ? Ha Hl]; subst. constructor.
  - intros Hin. apply in_map_iff in Hin as [x [Hx1 Hx2]].
    assert (x = a) by (apply Hinj; [now right | now left | assumption]).
    subst x. contradiction.
  - apply IH; [| assumption]. intros x y Hx Hy. apply Hinj; now right.
Qed.

(** A hand drawn from a deck of distinct cards. *)
Lemma drawCards_hand (deck : list CardObj) (n k : nat) :
  deck <> [] -> (k <= List.length deck)%nat ->
  List.length (fst (drawCards deck n k)) = n
  /\ (forall c, In c (fst (drawCards deck n k)) -> In c deck)
  /\ (NoDup (map cardKey deck) -> (n <= List.length deck)%nat ->
      NoDup (map cardKey (fst (drawCards deck n k)))).
Proof.
  intros Hne Hk.
  assert (HL : (0 < List.length deck)%nat) by (destruct deck; simpl; [contradiction | lia]).
  destruct deck as [| d0 deck0] eqn:Ed; [contradiction |]. rewrite <- Ed in *.
  rewrite (drawCards_cards deck d0 n k Hne Hk).
  split; [now rewrite length_map, length_seq |]. split.
  - intros c Hc. apply in_map_iff in Hc as [t [<- _]].
    apply nth_In. now apply Nat.mod_upper_bound, Nat.neq_0_lt_0.
  - intros Hnd Hn. rewrite map_map. apply NoDup_map_inj_in; [| apply seq_NoDup].
    intros t t' Ht Ht' E. apply in_seq in Ht, Ht'.
    assert (Hidx : Nat.modulo (k + t) (List.length deck) = Nat.modulo (k + t') (List.length deck)).
    { apply (proj1 (NoDup_nth (map cardKey deck) (cardKey d0)) Hnd).
      - rewrite length_map. now apply Nat.mod_upper_bound, Nat.neq_0_lt_0.
      - rewrite length_map. now apply Nat.mod_upper_bound, Nat.neq_0_lt_0.
      - now rewrite !map_nth. }
    destruct (Nat.lt_trichotomy t t') as [Hlt | [Heq | Hgt]]; [| assumption |].
    + exfalso. apply (mod_offsets_differ k t t' (List.length deck)); [lia | lia | assumption].
    + exfalso. apply (mod_offsets_differ k t' t (List.length deck)); [lia | lia |].
      now symmetry.
Qed.

Lemma dealAll_keys (deck : list CardObj) (n : nat) (all : list Player) (k : nat) (u : Patch) :
  In u (dealAll deck n all k) ->
  In (fst u) (map id all) /\ forall q, id (snd u q) = id q.
Proof.
  revert k. induction all as [| p all IH]; intros k Hu; [contradiction |].
  simpl in Hu. destruct Hu as [<- | Hu].
  - split; [now left | reflexivity].
  - destruct (IH _ Hu) as [H1 H2]. split; [now right | assumption].
Qed.

Lemma dealAll_player (deck : list CardObj) (n : nat) (all : list Player) (k : nat)
    (p q : Player) :
  deck <> [] -> (k <= List.length deck)%nat ->
  NoDup (map id all) -> In p all -> id q = id p ->
  exists k', (k' <= List.length deck)%nat
             /\ apply_patches (dealAll deck n all k) q = dealt (fst (drawCards deck n k')) q.
Proof.
  intros Hne. revert k. induction all as [| a all IH]; intros k Hk Hnd Hin Hid;
    [contradiction |].
  inversion Hnd as [| ? ? Ha Hall]; subst. simpl dealAll.
  change (apply_patches (?u :: ?us) q) with (apply_patches us (apply_patch u q)).
  destruct Hin as [-> | Hin].
  - exists k. split; [assumption |].
    unfold apply_patch. simpl fst. simpl snd. rewrite Hid, String.eqb_refl.
    apply apply_patches_other. intros u Hu. destruct (dealAll_keys _ _ _ _ _ Hu) as [Hk1 _].
    change (id (dealt (fst (drawCards deck n k)) q)) with (id q).
    rewrite Hid. intros E. apply Ha. now rewrite <- E.
  - unfold apply_patch. simpl fst.
    assert (Hne2 : (id q =? id a)%string = false).
    { apply String.eqb_neq. rewrite Hid. intros E. apply Ha. rewrite <- E. now apply in_map. }
    rewrite Hne2. apply IH; auto. now apply drawCards_index.
Qed.

Lemma lookup_db_patch (us : list Patch) (i : string) (db : Store) :
  (forall u q, In u us -> id (snd u q) = id q) ->
  lookup i (players (db_patch us db)) = option_map (apply_patches us) (lookup i (players db)).
Proof.
  intros H. rewrite players_db_patch. apply lookup_map.
  intros p. now apply apply_patches_id.
Qed.

(** What the deal leaves at every key. *)
Lemma dealHands_lookup (rand : nat -> nat) (handSize : Z) (ps : list Player) (db : Store) :
  unique_ids ps = true ->
  (forall p q, In p ps -> username p <> "" -> lookup (id p) (players db) = Some q ->
     exists h,
       lookup (id p) (players (dealHands rand handSize ps db)) = Some (dealt h q)
       /\ List.length h = Z.to_nat handSize
       /\ forallb validCard h = true
       /\ ((handSize <= 52)%Z -> distinctCards h = true))
  /\ (forall i, (forall p, In p ps -> username p <> "" -> id p <> i) ->
        lookup i (players (dealHands rand handSize ps db)) = lookup i (players db)).
Proof.
  intros Hu.
  set (all := filter (fun p => negb (username p =? "")%string) ps).
  set (deck := shuffle rand buildDeck).
  assert (Hperm : Permutation deck buildDeck)
    by exact (shuffleFrom_perm rand (List.length buildDeck - 1) buildDeck).
  assert (Hlen : List.length deck = 52%nat).
  { rewrite (Permutation_length Hperm). reflexivity. }
  assert (Hdeck : deck <> []).
  { intros E. rewrite E in Hlen. discriminate. }
  assert (Hnd : NoDup (map cardKey deck)).
  { apply (Permutation_NoDup (l := map cardKey buildDeck)).
    - apply Permutation_map, Permutation_sym, Hperm.
    - apply distinctCards_NoDup. reflexivity. }
  assert (Hall : NoDup (map id all)).
  { unfold all. apply NoDup_map_filter. now apply unique_NoDup. }
  assert (Hst : players (dealHands rand handSize ps db)
                = match all with
                  | [] => players db
                  | _ => players (db_patch (dealAll deck (Z.to_nat handSize) all 0) db)
                  end).
  { unfold dealHands. fold all. fold deck. now destruct all. }
  assert (Hpres : forall u q, In u (dealAll deck (Z.to_nat handSize) all 0) ->
                              id (snd u q) = id q).
  { intros u q Hin. now apply (dealAll_keys _ _ _ _ _ Hin). }
  split.
  - intros p q Hp Hname Hq.
    assert (Hin : In p all).
    { unfold all. apply filter_In. split; [assumption |].
      apply negb_true_iff. now apply String.eqb_neq. }
    destruct (dealAll_player deck (Z.to_nat handSize) all 0 p q Hdeck ltac:(lia) Hall Hin
                (lookup_id _ _ _ Hq)) as [k' [Hk' Hd]].
    destruct (drawCards_hand deck (Z.to_nat handSize) k' Hdeck Hk') as [H1 [H2 H3]].
    exists (fst (drawCards deck (Z.to_nat handSize) k')).
    split.
    { rewrite Hst. destruct all as [| a0 al] eqn:Ea; [contradiction |]. rewrite <- Ea in *.
      now rewrite (lookup_db_patch _ _ _ Hpres), Hq, <- Hd. }
    split; [exact H1 |]. split.
    + apply forallb_forall. intros c Hc. apply H2 in Hc.
      apply (Permutation_in _ Hperm) in Hc.
      assert (Hv : forallb validCard buildDeck = true) by reflexivity.
      rewrite forallb_forall in Hv. now apply Hv.
    + intros Hle. apply distinctCards_NoDup. apply H3; [assumption |]. rewrite Hlen. lia.
  - intros i Hi. rewrite Hst. destruct all as [| a0 al] eqn:Ea; [reflexivity |].
    rewrite <- Ea in *. rewrite (lookup_db_patch _ _ _ Hpres).
    destruct (lookup i (players db)) as [q |] eqn:Hq; [| reflexivity].
    simpl option_map. f_equal. apply apply_patches_other.
    intros u Hin. destruct (dealAll_keys _ _ _ _ _ Hin) as [Hk _].
    apply in_map_iff in Hk as [p [Hp1 Hp2]]. unfold all in Hp2.
    apply filter_In in Hp2 as [Hp2 Hn]. apply negb_true_iff, String.eqb_neq in Hn.
    rewrite (lookup_id _ _ _ Hq), <- Hp1. now apply Hi.
Qed.

(** X10. Dealing gives every named player of the render a hand of exactly
    [handSize] cards of the deck, the same as [originalHand], with no
    discarded cards; the cards of one hand are pairwise different as long as
    [handSize] is at most 52; a seat of another key is not touched. *)
Theorem dealHands_hands (rand : nat -> nat) (handSize : Z) (ps : list Player) (db : Store)
    (Hu : unique_ids ps = true) :
  (forall p q, In p ps -> username p <> "" -> lookup (id p) (players db) = Some q ->
     exists h,
       lookup (id p) (players (dealHands rand handSize ps db)) = Some (dealt h q)
       /\ hand (dealt h q) = Some h /\ originalHand (dealt h q) = Some h
       /\ discardedCards (dealt h q) = [] /\ balance (dealt h q) = balance q
       /\ List.length h = Z.to_nat handSize
       /\ forallb validCard h = true
       /\ ((handSize <= 52)%Z -> distinctCards h = true))
  /\ (forall i, (forall p, In p ps -> username p <> "" -> id p <> i) ->
        lookup i (players (dealHands rand handSize ps db)) = lookup i (players db)).
Proof.
  destruct (dealHands_lookup rand handSize ps db Hu) as [Hnamed Hrest].
  split; [| exact Hrest].
  intros p q Hp Hname Hq.
  destruct (Hnamed p q Hp Hname Hq) as [h [H1 [H2 [H3 H4]]]].
  exists h. split; [exact H1 |].
  do 4 (split; [reflexivity |]).
  split; [exact H2 |]. split; [exact H3 | exact H4].
Qed.

Lemma dealHands_hands_witness :
  unique_ids (players db_lobby) = true
  /\ exists h q,
       lookup "p1" (players (dealHands (fun i => (7 * i + 3)%nat) 3 (players db_lobby) db_lobby))
       = Some q
       /\ hand q = Some h /\ List.length h = 3%nat /\ distinctCards h = true.
Proof.
  split; [reflexivity |].
  destruct (proj1 (dealHands_hands (fun i => (7 * i + 3)%nat) 3 (players db_lobby) db_lobby
                     eq_refl)
              (seat "p1" "diro" 10 false 0 None) _ (or_introl eq_refl)
              ltac:(discriminate) eq_refl)
    as [h [H1 [H2 [_ [_ [_ [H6 [_ H8]]]]]]]].
  exists h. eexists. split; [exact H1 |]. split; [exact H2 |]. split; [exact H6 |].
  apply H8. lia.
Defined.

(** ** A round is reset, started, and waits for the dealer *)

Lemma apply_patches_keep {B : Type} (F : Player -> B) (us : list Patch) (p : Player) :
  (forall u q, In u us -> F (snd u q) = F q) -> F (apply_patches us p) = F p.
Proof.
  revert p. induction us as [| u us IH]; intros p H; [reflexivity |].
  change (apply_patches (u :: us) p) with (apply_patches us (apply_patch u p)).
  rewrite IH by (intros v q Hv; apply H; now right).
  unfold apply_patch. destruct (id p =? fst u)%string; [| reflexivity].
  apply H. now left.
Qed.

(** A key that is patched once gets exactly that patch. *)
Lemma apply_patches_hit (us : list Patch) (f : Player -> Player) (p : Player) :
  NoDup (map fst us) -> (forall u q, In u us -> id (snd u q) = id q) ->
  In (id p, f) us -> apply_patches us p = f p.
Proof.
  induction us as [| u us IH]; intros Hnd Hid Hin; [contradiction |].
  change (apply_patches (u :: us) p) with (apply_patches us (apply_patch u p)).
  cbn [map] in Hnd. inversion Hnd as [| ? ? Hu Hus]; subst.
  destruct Hin as [-> | Hin].
  - unfold apply_patch. cbn [fst snd]. rewrite String.eqb_refl.
    apply apply_patches_other. intros v Hv E. apply Hu. cbn [fst].
    pose proof (Hid (id p, f) p (or_introl eq_refl)) as Hf. cbn [snd] in Hf.
    rewrite Hf in E. rewrite <- E.
    now apply in_map.
  - assert (Hne : (id p =? fst u)%string = false).
    { apply String.eqb_neq. intros E. apply Hu. rewrite <- E.
      change (id p) with (fst (id p, f)). now apply in_map. }
    unfold apply_patch. rewrite Hne. apply IH; [assumption | | assumption].
    intros v q Hv. apply Hid. now right.
Qed.

Lemma startPatches_id (ps : list Player) (u : Patch) (q : Player) :
  In u (startPatches ps) -> id (snd u q) = id q.
Proof.
  unfold startPatches. intros Hin. apply in_map_iff in Hin as [i [<- _]]. reflexivity.
Qed.

Lemma startPatches_player (ps : list Player) (p : Player) :
  unique_ids ps = true -> In p ps -> apply_patches (startPatches ps) p = clearRound p.
Proof.
  intros Hu Hin. apply apply_patches_hit.
  - unfold startPatches. rewrite map_map. cbn [fst]. rewrite map_id.
    now apply unique_NoDup.
  - intros u q. apply startPatches_id.
  - unfold startPatches. apply in_map_iff. exists (id p).
    split; [reflexivity | now apply in_map].
Qed.

Lemma startGame_refused (rand : nat -> nat) (sel : option Z) (total : Z) (c : Client)
    (db : Store) :
  (truthyZ sel = None /\ tableHandSize db = None) \/ total = 0%Z ->
  startGame rand sel total c db = (refuse c db [mkToast "Selezione incompleta" true], None).
Proof.
  intros H. unfold startGame.
  destruct (truthyZ sel) as [n |] eqn:Es, (tableHandSize db) as [m |] eqn:Et;
    try reflexivity; destruct H as [[H1 H2] | ->]; try discriminate; reflexivity.
Qed.

Lemma startGame_started (rand : nat -> nat) (sel : option Z) (total : Z) (c : Client)
    (db : Store) (n : Z) :
  truthyZ sel = Some n \/ (truthyZ sel = None /\ tableHandSize db = Some n) ->
  total <> 0%Z ->
  startGame rand sel total c db
  = (mkResult c
       (db_patch (startPatches (players db))
          (mkStore
             (Some (mkGameState betting 0 0 [] total (Some n) (adminIdOf c)
                                (defaultDealer (players db)) "" true true))
             (players db) (history db)))
       [mkToast "Partita pronta" false] true,
     Some (dealHands rand n (players db))).
Proof.
  intros H Ht. apply Z.eqb_neq in Ht. unfold startGame. rewrite Ht.
  destruct (truthyZ sel) as [a |] eqn:Es, (tableHandSize db) as [b |] eqn:Et;
    destruct H as [H | [H1 H2]]; try discriminate; congruence.
Qed.

(** The deal changes nothing on a table that already shows its hand size. *)
Lemma dealHands_table (rand : nat -> nat) (n : Z) (ps : list Player) (db : Store)
    (g : GameState) :
  gameState db = Some g -> handSize g = Some n ->
  gameState (dealHands rand n ps db) = Some g
  /\ history (dealHands rand n ps db) = history db
  /\ exists us, players (dealHands rand n ps db) = map (apply_patches us) (players db)
                /\ forall u q, In u us -> balance (snd u q) = balance q.
Proof.
  intros Hg Hn. unfold dealHands.
  set (deck := shuffle rand buildDeck). clearbody deck.
  destruct (filter (fun p => negb (username p =? "")%string) ps) as [| a all].
  - split; [assumption |]. split; [reflexivity |]. exists [].
    split; [| intros u q []]. symmetry. apply map_id.
  - set (us := dealAll deck (Z.to_nat n) (a :: all) 0). split.
    + unfold db_patch. cbn [gameState option_map]. rewrite Hg. cbn [option_map].
      f_equal. destruct g. cbn [handSize] in Hn. now subst.
    + split; [reflexivity |]. exists us. split.
      * cbn [players]. apply players_db_patch.
      * intros u q Hin. unfold us in Hin. clear us.
        revert Hin. generalize 0%nat. induction (a :: all) as [| b l IH]; intros k Hin;
          [contradiction |].
        cbn [dealAll] in Hin. destruct Hin as [<- | Hin]; [reflexivity |].
        now apply (IH _ Hin).
Qed.

(** X12. Starting a game. Without a hand size (selected, or on the table)
    or with no number of table cards the start is refused and nothing is
    written. Otherwise, once the deal has run: the table is in betting
    with an empty pot, no bet, no revealed card and no turn holder, it
    waits for the dealer, and the dealer proposed is the admin's position;
    every player keeps name, seat and balance, has no bet, no stake, no
    declaration and has not folded; a named player holds [handSize] cards
    of the deck, pairwise different when [handSize] is at most 52, a seat
    without a name holds none. What the pot held before is in nobody's
    balance afterwards. *)
Theorem startGame_round (rand : nat -> nat) (sel : option Z) (total : Z) (c : Client)
    (db : Store)
    (Hu : unique_ids (players db) = true) :
  ((truthyZ sel = None /\ tableHandSize db = None) \/ total = 0%Z ->
     startAndDeal rand sel total c db = db
     /\ r_written (fst (startGame rand sel total c db)) = false)
  /\ (forall n,
        truthyZ sel = Some n \/ (truthyZ sel = None /\ tableHandSize db = Some n) ->
        total <> 0%Z ->
        let db' := startAndDeal rand sel total c db in
        gameState db'
        = Some (mkGameState betting 0 0 [] total (Some n) (adminIdOf c)
                            (defaultDealer (players db)) "" true true)
        /\ (forall p, In p (players db) ->
              exists q,
                lookup (id p) (players db') = Some q
                /\ username q = username p /\ position q = position p
                /\ balance q = balance p
                /\ lastBet q = 0 /\ totalBetThisHand q = 0
                /\ hasActed q = false /\ folded q = false
                /\ choice q = None /\ finalScore q = None
                /\ discardedCards q = [] /\ originalHand q = hand q
                /\ (username p = "" -> hand q = None)
                /\ (username p <> "" ->
                    exists h, hand q = Some h
                              /\ List.length h = Z.to_nat n
                              /\ forallb validCard h = true
                              /\ ((n <= 52)%Z -> distinctCards h = true)))
        /\ (forall a, find isAdmin (players db) = Some a ->
              defaultDealer (players db) = position a)
        /\ chips db' == sumQ balance (players db)
        /\ history db' = history db).
Proof.
  split.
  { intros H. unfold startAndDeal. rewrite (startGame_refused _ _ _ _ _ H). now split. }
  intros n Hn Ht db'. subst db'. unfold startAndDeal.
  rewrite (startGame_started _ _ _ _ _ n Hn Ht). cbn [r_store].
  set (g := mkGameState betting 0 0 [] total (Some n) (adminIdOf c)
                        (defaultDealer (players db)) "" true true).
  set (db2 := db_patch (startPatches (players db))
                       (mkStore (Some g) (players db) (history db))).
  assert (Hg2 : gameState db2 = Some g) by reflexivity.
  assert (Hp2 : players db2 = map (apply_patches (startPatches (players db))) (players db))
    by (unfold db2; now rewrite players_db_patch).
  assert (Hl2 : forall p, In p (players db) ->
                  lookup (id p) (players db2) = Some (clearRound p)).
  { intros p Hp. rewrite Hp2, lookup_map
      by (intros q; apply apply_patches_id; intros u r; apply startPatches_id).
    rewrite (unique_lookup _ p Hu Hp). cbn [option_map].
    now rewrite (startPatches_player _ p Hu Hp). }
  destruct (dealHands_table rand n (players db) db2 g Hg2 eq_refl)
    as [Hg3 [Hh3 [us [Hp3 Hbal]]]].
  destruct (dealHands_lookup rand n (players db) db2 Hu) as [Hnamed Hrest].
  split; [exact Hg3 |]. split.
  { intros p Hp. destruct (String.eqb_spec (username p) "") as [E | E].
    - exists (clearRound p). split.
      + rewrite Hrest; [now apply Hl2 |].
        intros p' Hp' Hname Hid. apply Hname.
        now rewrite (unique_same_id _ p' p Hu Hp' Hp Hid).
      + do 11 (split; [reflexivity |]).
        split; [intros _; reflexivity | intros Hne; contradiction].
    - destruct (Hnamed p (clearRound p) Hp E (Hl2 p Hp)) as [h [H1 [H2 [H3 H4]]]].
      exists (dealt h (clearRound p)). split; [exact H1 |].
      do 11 (split; [reflexivity |]). split; [intros E'; contradiction |].
      intros _. exists h. split; [reflexivity |]. now split. }
  split.
  { intros a Ha. unfold defaultDealer. now rewrite Ha. }
  split; [| exact Hh3].
  unfold chips, tablePot. rewrite Hg3, Hp3, Hp2. change (pot g) with 0.
  rewrite sumQ_map_same.
  - rewrite sumQ_map_same; [lra |]. intros p _.
    rewrite (apply_patches_keep balance); [reflexivity |].
    intros u q Hin. unfold startPatches in Hin.
    apply in_map_iff in Hin as [i [<- _]]. reflexivity.
  - intros p _. now rewrite (apply_patches_keep balance).
Qed.

Lemma startGame_round_witness :
  unique_ids (players db_lobby) = true
  /\ exists q h,
       lookup "p2"
         (players (startAndDeal (fun i => (7 * i + 3)%nat) None 5
                                (browser "p1" true 0 "") db_lobby)) = Some q
       /\ hand q = Some h /\ List.length h = 3%nat /\ balance q = 100.
Proof.
  split; [reflexivity |].
  destruct (proj2 (startGame_round (fun i => (7 * i + 3)%nat) None 5
                     (browser "p1" true 0 "") db_lobby eq_refl)
              3%Z (or_intror (conj eq_refl eq_refl)) ltac:(discriminate))
    as [_ [Hplayers _]].
  destruct (Hplayers (seat "p2" "Bot_Alpha" 100 true 1 None) (or_intror (or_introl eq_refl)))
    as [q [H1 [_ [_ [H4 [_ [_ [_ [_ [_ [_ [_ [_ [_ H14]]]]]]]]]]]]]].
  destruct (H14 ltac:(discriminate)) as [h [K1 [K2 _]]].
  exists q, h. split; [exact H1 |]. split; [exact K1 |]. split; [exact K2 | exact H4].
Defined.

(** X13. The dealer gate. While the table waits for the dealer, a bet, a
    check, a fold, the bot's move, the bots' declarations and the admin
    effect all leave the shared document as it is. Confirming the dealer
    opens the gate and gives the turn to the first player seated at the
    dealer position, changing nothing else of the hand; with nobody at
    that position the confirmation is refused. Choosing a player as the
    dealer and confirming gives that player the turn, when no other
    player has the same position. *)
Theorem dealer_gate (db : Store) (gs : GameState)
    (Hgs : gameState db = Some gs)
    (Hw : waitingForDealer gs = true) :
  (forall c,
     r_store (handleBet c db) = db /\ r_store (handleCheck c db) = db
     /\ r_store (handleFold c db) = db /\ botTurn c db = db)
  /\ (forall rv rs flips now c,
        botAutoDeclare flips c db = db /\ adminEffect rv rs flips now c db = db)
  /\ (forall dealer,
        find (fun p => (position p =? dealerIndex gs)%Z) (players db) = Some dealer ->
        exists gs',
          gameState (fst (confirmDealerAndContinue db)) = Some gs'
          /\ waitingForDealer gs' = false /\ currentPlayerTurn gs' = id dealer
          /\ position dealer = dealerIndex gs
          /\ phase gs' = phase gs /\ pot gs' = pot gs /\ currentBet gs' = currentBet gs
          /\ revealedCards gs' = revealedCards gs /\ dealerIndex gs' = dealerIndex gs
          /\ players (fst (confirmDealerAndContinue db)) = players db)
  /\ (find (fun p => (position p =? dealerIndex gs)%Z) (players db) = None ->
      fst (confirmDealerAndContinue db) = db)
  /\ (forall p,
        lookup (id p) (players db) = Some p ->
        (forall q, In q (players db) -> position q = position p -> q = p) ->
        exists gs',
          gameState (fst (confirmDealerAndContinue (setManualDealer (id p) db))) = Some gs'
          /\ waitingForDealer gs' = false /\ currentPlayerTurn gs' = id p
          /\ dealerIndex gs' = position p).
Proof.
  split.
  { intros c. unfold handleBet, handleCheck, handleFold, botTurn. rewrite Hgs, Hw.
    rewrite !orb_true_r.
    destruct (currentUser c db), (localId c); repeat split; reflexivity. }
  split.
  { intros rv rs flips now c. unfold botAutoDeclare, adminEffect. rewrite Hgs, Hw.
    rewrite !orb_true_r. split; [reflexivity |].
    now destruct (negb (isConnected c) || negb (isAdminMode c)). }
  split.
  { intros dealer Hd. unfold confirmDealerAndContinue. rewrite Hgs, Hd. cbn [fst].
    rewrite (state_fields _ _ gs Hgs). eexists. split; [reflexivity |].
    apply find_some in Hd as [_ Hd]. apply Z.eqb_eq in Hd.
    destruct gs. cbn. cbn in Hd. repeat (split; [reflexivity || assumption |]).
    reflexivity. }
  split.
  { intros Hd. unfold confirmDealerAndContinue. now rewrite Hgs, Hd. }
  intros p Hlk Hpos.
  assert (Hfind : find (fun q => (position q =? position p)%Z) (players db) = Some p).
  { destruct (find (fun q => (position q =? position p)%Z) (players db)) as [q |] eqn:E.
    - apply find_some in E as [Hin Hq]. apply Z.eqb_eq in Hq.
      now rewrite (Hpos q Hin Hq).
    - exfalso. apply lookup_In in Hlk.
      pose proof (find_none _ _ E p Hlk) as Hn. cbn in Hn.
      now rewrite Z.eqb_refl in Hn. }
  unfold setManualDealer. rewrite Hlk. unfold confirmDealerAndContinue.
  cbn [gameState players]. rewrite Hgs. cbn [option_map dealerIndex setDealerIndexField].
  rewrite Hfind. cbn [fst]. unfold state_update. cbn [gameState option_map].
  eexists. split; [reflexivity |]. destruct gs. cbn. repeat split; reflexivity.
Qed.

Lemma dealer_gate_witness :
  waitingForDealer (mkGameState lobby 0 0 [] 5 (Some 3%Z) "p1" 0 "" true true) = true
  /\ r_store (handleBet (browser "p1" true 1 "") db_lobby) = db_lobby.
Proof.
  split; [reflexivity |].
  exact (proj1 (proj1 (dealer_gate db_lobby _ eq_refl eq_refl) (browser "p1" true 1 ""))).
Defined.

(** ** The admin effect drives the hand *)


















(** ** Seats: humans are removed, bots are added *)

Lemma assoc_app_miss {A : Type} (i : string) (l1 l2 : list (string * A)) :
  ~ In i (map fst l1) -> assoc i (l1 ++ l2) = assoc i l2.
Proof.
  unfold assoc. induction l1 as [| u l1 IH]; intros H; [reflexivity |].
  cbn [app find]. destruct (fst u =? i)%string eqn:E.
  - apply String.eqb_eq in E. exfalso. apply H. now left.
  - apply IH. intros Hin. apply H. now right.
Qed.

Lemma assoc_head {A : Type} (i : string) (x : A) (l : list (string * A)) :
  assoc i ((i, x) :: l) = Some x.
Proof. unfold assoc. cbn [find fst]. now rewrite String.eqb_refl. Qed.

(** With distinct keys, writing the [updates] object leaves the seats that
    [softPlayers] lists. *)
Lemma softUpdates_players (lid : string) (allPlayers : list Player) :
  unique_ids allPlayers = true ->
  forall (l pre : list Player) (upre : list (string * option Player)) (k : Z),
    allPlayers = (pre ++ l)%list -> map fst upre = map id pre ->
    flat_map (fun q => match assoc (id q)
                               (upre ++ softUpdates lid allPlayers (map id l) k) with
                       | Some (Some q') => [q']
                       | Some None => []
                       | None => [q]
                       end) l
    = softPlayers lid l k.
Proof.
  intros Hu. induction l as [| p r IH]; intros pre upre k Hall Hkeys; [reflexivity |].
  assert (Hnd : NoDup (map id allPlayers)) by now apply unique_NoDup.
  assert (Hp : lookup (id p) allPlayers = Some p).
  { apply unique_lookup; [assumption |]. rewrite Hall. apply in_or_app. right. now left. }
  assert (Hfresh : ~ In (id p) (map fst upre)).
  { rewrite Hkeys. rewrite Hall, map_app in Hnd. cbn [map] in Hnd.
    apply NoDup_remove_2 in Hnd. intros Hin. apply Hnd. apply in_or_app. now left. }
  assert (Hstep : forall (e : option Player) (k' : Z),
            flat_map (fun q => match assoc (id q)
                                       (upre ++ (id p, e)
                                          :: softUpdates lid allPlayers (map id r) k') with
                               | Some (Some q') => [q']
                               | Some None => []
                               | None => [q]
                               end) r
            = softPlayers lid r k').
  { intros e k'.
    replace (upre ++ (id p, e) :: softUpdates lid allPlayers (map id r) k')%list
      with ((upre ++ [(id p, e)]) ++ softUpdates lid allPlayers (map id r) k')%list
      by (now rewrite <- app_assoc).
    apply (IH (pre ++ [p])%list).
    - now rewrite <- app_assoc.
    - rewrite !map_app, Hkeys. reflexivity. }
  cbn [map softUpdates flat_map softPlayers]. rewrite Hp.
  destruct (id p =? lid)%string.
  - rewrite assoc_app_miss, assoc_head by assumption. cbn [app]. now rewrite Hstep.
  - destruct (isBot p).
    + rewrite assoc_app_miss, assoc_head by assumption. cbn [app]. now rewrite Hstep.
    + rewrite assoc_app_miss, assoc_head by assumption. cbn [app]. now rewrite Hstep.
Qed.

Lemma softPlayers_keys (lid : string) (l : list Player) (k : Z) :
  map id (softPlayers lid l k) = map id (filter (keptSeat lid) l).
Proof.
  revert k. induction l as [| p r IH]; intros k; [reflexivity |].
  cbn [softPlayers filter]. unfold keptSeat at 1.
  destruct (id p =? lid)%string; [cbn [orb map]; now rewrite IH |].
  destruct (isBot p); cbn [orb map]; now rewrite IH.
Qed.

Lemma softPlayers_positions (lid : string) (l : list Player) (k : nat) :
  map position (softPlayers lid l (Z.of_nat k))
  = map Z.of_nat (seq k (List.length (softPlayers lid l (Z.of_nat k)))).
Proof.
  revert k. induction l as [| p r IH]; intros k; [reflexivity |].
  assert (Hk : (Z.of_nat k + 1 = Z.of_nat (S k))%Z) by lia.
  cbn [softPlayers].
  destruct (id p =? lid)%string;
    [cbn [map List.length seq position softReset]; rewrite Hk, IH; reflexivity |].
  destruct (isBot p);
    [cbn [map List.length seq position softReset]; rewrite Hk, IH; reflexivity |].
  apply IH.
Qed.

Lemma softPlayers_lookup (lid : string) (l : list Player) (k : Z) (p : Player) :
  NoDup (map id l) -> In p l ->
  if keptSeat lid p
  then exists k', lookup (id p) (softPlayers lid l k)
                  = Some (softReset k' (if (id p =? lid)%string then balance p else 100) p)
  else lookup (id p) (softPlayers lid l k) = None.
Proof.
  revert k. induction l as [| a r IH]; intros k Hnd Hin; [contradiction |].
  cbn [map] in Hnd. inversion Hnd as [| ? ? Ha Hr]; subst.
  assert (Hrest : forall k', ~ In p r ->
            lookup (id p) (softPlayers lid r k') = None).
  { intros k' Hp. unfold lookup.
    destruct (find _ (softPlayers lid r k')) as [q |] eqn:E; [| reflexivity].
    apply find_some in E as [Hq Hid]. apply String.eqb_eq in Hid.
    assert (Hk : In (id q) (map id (softPlayers lid r k'))) by now apply in_map.
    rewrite softPlayers_keys in Hk. apply in_map_iff in Hk as [q0 [Hq0 Hf]].
    apply filter_In in Hf as [Hf _].
    destruct Hin as [-> | Hin]; [| contradiction].
    exfalso. apply Ha. rewrite <- Hid, <- Hq0. now apply in_map. }
  destruct Hin as [-> | Hin].
  - cbn [softPlayers]. unfold keptSeat.
    assert (Hp : ~ In p r).
    { intros Hp. apply Ha. now apply in_map. }
    destruct (id p =? lid)%string eqn:E1.
    + cbn [orb]. exists k. unfold lookup. cbn [find id softReset].
      now rewrite String.eqb_refl.
    + destruct (isBot p) eqn:E2; cbn [orb].
      * exists k. unfold lookup. cbn [find id softReset]. now rewrite String.eqb_refl.
      * now apply Hrest.
  - assert (Hne : (id a =? id p)%string = false).
    { apply String.eqb_neq. intros E. apply Ha. rewrite E. now apply in_map. }
    assert (Hskip : forall k' b q,
              lookup (id p) (softReset k' b a :: q) = lookup (id p) q).
    { intros k' b q. unfold lookup. cbn [find id softReset]. now rewrite Hne. }
    cbn [softPlayers].
    destruct (id a =? lid)%string; [rewrite Hskip; now apply IH |].
    destruct (isBot a); [rewrite Hskip; now apply IH | now apply IH].
Qed.

Lemma NoDup_unique (l : list string) : NoDup l -> unique l = true.
Proof.
  induction 1 as [| x l Hx Hl IH]; [reflexivity |]. cbn [unique].
  rewrite IH, andb_true_r. apply negb_true_iff.
  destruct (includes x l) eqn:E; [| reflexivity]. apply includes_In in E. contradiction.
Qed.

(** X16. Removing the players. Without a signed-in player nothing happens.
    Otherwise, with distinct keys: the seats that stay are the caller's own
    and the bots', in their old order, and their positions are renumbered
    0, 1, 2, ... without a gap; the caller keeps the balance, every bot is
    set to 100, and every round field of a seat that stays is cleared;
    every other seat is gone. The table goes back to the lobby with an
    empty pot, five and five cards, dealer position 0, and waits for the
    dealer; the history is emptied. *)
Theorem deletePlayersSoft_seats (c : Client) (db : Store)
    (Hu : unique_ids (players db) = true) :
  (localId c = None -> deletePlayersSoft c db = (db, []))
  /\ forall lid, localId c = Some lid ->
       let db' := fst (deletePlayersSoft c db) in
       keys (players db') = keys (filter (keptSeat lid) (players db))
       /\ densePositions (players db')
       /\ unique_ids (players db') = true
       /\ (forall p, In p (players db) ->
             if keptSeat lid p
             then exists q,
                    lookup (id p) (players db') = Some q
                    /\ username q = username p
                    /\ isAdmin q = isAdmin p /\ isBot q = isBot p
                    /\ balance q = (if (id p =? lid)%string then balance p else 100)
                    /\ lastBet q = 0 /\ totalBetThisHand q = 0
                    /\ hasActed q = false /\ folded q = false
                    /\ choice q = None /\ finalScore q = None
                    /\ hand q = None /\ originalHand q = None /\ discardedCards q = []
             else lookup (id p) (players db') = None)
       /\ history db' = []
       /\ forall gs, gameState db = Some gs ->
            gameState db'
            = Some (mkGameState lobby 0 0 [] 5 (Some 5%Z) (adminId gs) 0 "" true true).
Proof.
  split.
  { intros H. unfold deletePlayersSoft. now rewrite H. }
  intros lid Hl db'. subst db'.
  assert (Hps : players (fst (deletePlayersSoft c db)) = softPlayers lid (players db) 0).
  { unfold deletePlayersSoft. rewrite Hl. cbn [fst players db_players_update].
    exact (softUpdates_players lid (players db) Hu (players db) [] [] 0 eq_refl eq_refl). }
  assert (Hnd : NoDup (map id (players db))) by now apply unique_NoDup.
  rewrite Hps. split; [apply softPlayers_keys |].
  split; [exact (softPlayers_positions lid (players db) 0) |].
  split.
  { apply NoDup_unique. unfold keys. rewrite softPlayers_keys.
    now apply NoDup_map_filter. }
  split.
  { intros p Hp. pose proof (softPlayers_lookup lid (players db) 0 p Hnd Hp) as H.
    destruct (keptSeat lid p); [| exact H].
    destruct H as [k' H]. eexists. split; [exact H |].
    repeat (split; [reflexivity |]). reflexivity. }
  split.
  { unfold deletePlayersSoft. now rewrite Hl. }
  intros gs Hgs. unfold deletePlayersSoft. rewrite Hl. cbn [fst gameState db_players_update].
  now rewrite Hgs.
Qed.

Lemma deletePlayersSoft_seats_witness :
  unique_ids (players db_crowd) = true
  /\ keys (players (fst (deletePlayersSoft (browser "p1" true 0 "") db_crowd)))
     = ["p1"; "p2"; "p3"].
Proof.
  split; [reflexivity |].
  destruct (proj2 (deletePlayersSoft_seats (browser "p1" true 0 "") db_crowd eq_refl)
              "p1" eq_refl) as [H _].
  exact H.
Defined.

Lemma unique_app_fresh (l : list string) (x : string) :
  unique l = true -> includes x l = false -> unique (l ++ [x]) = true.
Proof.
  intros Hu Hx. apply NoDup_unique. apply unique_NoDup in Hu.
  apply NoDup_app; [assumption | repeat constructor; intros [] |].
  intros y Hy [<- | []]. apply includes_In in Hy. congruence.
Qed.

(** X17. Adding a bot, under a key that is not yet in use: the bot is
    seated after everybody else, at the position that equals the number of
    seats before, with 100 on its balance and nothing of a hand; no other
    seat, nor the table, nor the history changes. As long as one of the
    five bot names is free the bot gets a name of the five that nobody at
    the table has. Distinct keys stay distinct, and positions numbered
    0, 1, 2, ... stay so. *)
Theorem handleAddBot_seat (botId : string) (rnd : nat) (db : Store)
    (Hfresh : includes botId (keys (players db)) = false) :
  let db' := fst (handleAddBot botId rnd db) in
  exists bot,
    players db' = (players db ++ [bot])%list
    /\ id bot = botId /\ isBot bot = true /\ isAdmin bot = false
    /\ balance bot = 100 /\ position bot = Z.of_nat (List.length (players db))
    /\ lastBet bot = 0 /\ totalBetThisHand bot = 0
    /\ hasActed bot = false /\ folded bot = false
    /\ choice bot = None /\ finalScore bot = None /\ hand bot = None
    /\ ((exists n, In n botNames /\ ~ In n (map username (players db))) ->
        In (username bot) botNames /\ ~ In (username bot) (map username (players db)))
    /\ (unique_ids (players db) = true -> unique_ids (players db') = true)
    /\ (densePositions (players db) -> densePositions (players db'))
    /\ gameState db' = gameState db /\ history db' = history db.
Proof.
  intros db'. subst db'. unfold handleAddBot. cbn [fst].
  set (free := filter (fun name => negb (includes name (map username (players db))))
                      botNames).
  set (name := match free with
               | first :: _ => first
               | [] => ("Bot_" ++ NilEmpty.string_of_uint
                                    (Nat.to_uint (Nat.modulo rnd 1000)))%string
               end).
  set (bot := newSeat botId name 100 false true
                      (Z.of_nat (List.length (keys (players db))))).
  assert (Hps : players (db_set_player bot db) = (players db ++ [bot])%list).
  { unfold db_set_player. cbn [players]. change (id bot) with botId. now rewrite Hfresh. }
  exists bot. split; [exact Hps |].
  do 4 (split; [reflexivity |]).
  split; [unfold bot, keys; cbn [position newSeat]; now rewrite length_map |].
  do 7 (split; [reflexivity |]).
  split.
  { intros [n [Hn Hfree]]. change (username bot) with name.
    assert (Hin : In n free).
    { unfold free. apply filter_In. split; [assumption |]. apply negb_true_iff.
      destruct (includes n (map username (players db))) eqn:E; [| reflexivity].
      apply includes_In in E. contradiction. }
    unfold name. destruct free as [| first rest] eqn:Ef; [contradiction |].
    assert (Hf : In first free) by (rewrite Ef; now left).
    unfold free in Hf. apply filter_In in Hf as [Hf1 Hf2]. split; [assumption |].
    apply negb_true_iff in Hf2. intros Hc. apply includes_In in Hc. congruence. }
  split.
  { intros Hu. unfold unique_ids, keys. rewrite Hps, map_app. cbn [map].
    now apply unique_app_fresh. }
  split; [| now split].
  intros Hd. unfold densePositions in *. rewrite Hps, map_app, length_app, Hd.
  cbn [List.length map]. rewrite seq_app, map_app. cbn [seq map Nat.add].
  f_equal. unfold bot, keys. cbn [position newSeat]. now rewrite length_map.
Qed.

Lemma handleAddBot_seat_witness :
  includes "p9" (keys (players db_crowd)) = false
  /\ exists bot, players (fst (handleAddBot "p9" 7 db_crowd)) = (players db_crowd ++ [bot])%list
                 /\ username bot = "Bot_Gamma" /\ position bot = 4%Z.
Proof.
  split; [reflexivity |].
  destruct (handleAddBot_seat "p9" 7 db_crowd eq_refl)
    as [bot [H1 [_ [_ [_ [_ [H6 _]]]]]]].
  exists bot. split; [exact H1 |]. split; [| exact H6].
  apply app_inj_tail in H1 as [_ <-]. reflexivity.
Defined.

(** ** What rounding does to a settlement *)

Lemma round_half_away_error (y : Q) :
  y - (1 # 2) <= inject_Z (round_half_away y) /\ inject_Z (round_half_away y) <= y + (1 # 2).
Proof.
  unfold round_half_away. destruct (Qle_bool 0 y) eqn:E.
  - pose proof (Qfloor_le (y + (1 # 2))) as H1.
    pose proof (Qlt_floor (y + (1 # 2))) as H2.
    rewrite inject_Z_plus in H2. change (inject_Z 1) with 1 in H2. split; lra.
  - pose proof (Qfloor_le (- y + (1 # 2))) as H1.
    pose proof (Qlt_floor (- y + (1 # 2))) as H2.
    rewrite inject_Z_plus in H2. change (inject_Z 1) with 1 in H2.
    rewrite inject_Z_opp. split; lra.
Qed.











(** * Amounts as binary64 numbers: the arithmetic *)

Lemma round_even_error (y : Q) :
  Qabs (inject_Z (Binary64.round_even y) - y) <= 1 # 2.
Proof.
  pose proof (Qfloor_le y) as H1. pose proof (Qlt_floor y) as H2.
  rewrite inject_Z_plus in H2. change (inject_Z 1) with 1 in H2.
  apply Qabs_Qle_condition. unfold Binary64.round_even.
  destruct (Qlt_bool (y - inject_Z (Qfloor y)) (1 # 2)) eqn:E1.
  - apply Qlt_bool_true in E1. split; lra.
  - apply Qlt_bool_false in E1.
    destruct (Qlt_bool (1 # 2) (y - inject_Z (Qfloor y))) eqn:E2.
    + rewrite inject_Z_plus. change (inject_Z 1) with 1. split; lra.
    + apply Qlt_bool_false in E2.
      destruct (Z.even (Qfloor y)); [split; lra |].
      rewrite inject_Z_plus. change (inject_Z 1) with 1. split; lra.
Qed.

Lemma ilog2_le (y : Q) (K : Z) :
  (0 <= K)%Z -> y <= 2 ^ K -> (Binary64.ilog2 y <= K)%Z.
Proof.
  intros HK Hy. unfold Binary64.ilog2. destruct (Qle_bool 1 y) eqn:E.
  - assert (Hf : (Qfloor y <= 2 ^ K)%Z).
    { rewrite <- (Qfloor_Z (2 ^ K)). apply Qfloor_resp_le.
      rewrite Zpower_Qpower by assumption. exact Hy. }
    rewrite <- (Z.log2_pow2 K HK). now apply Z.log2_le_mono.
  - pose proof (Z.log2_up_nonneg (Qceiling (/ y))). lia.
Qed.

(** A rounding moves a number of magnitude at most 2^K by at most
    2^(K-53). *)
Lemma round64_error (x : Q) (K : Z) :
  (0 <= K)%Z -> Qabs x <= 2 ^ K -> Qabs (Binary64.round64 x - x) <= 2 ^ (K - 53).
Proof.
  intros HK Hx. unfold Binary64.round64.
  pose proof (Qred_correct x) as Hr. set (y := Qred x) in *.
  assert (Hpos : forall k, 0 < 2 ^ k) by (intros k; now apply Qpower_0_lt).
  destruct (Qeq_bool y 0) eqn:E.
  - apply Qeq_bool_iff in E. rewrite <- Hr, E.
    setoid_replace (0 - 0) with 0 by ring. simpl Qabs. apply Qlt_le_weak, Hpos.
  - set (e := Z.max (Binary64.ilog2 (Qabs y)) (-1022)).
    assert (He : (e <= K)%Z).
    { unfold e. apply Z.max_lub; [| lia]. apply ilog2_le; [assumption |]. now rewrite Hr. }
    pose proof (round_even_error (y / 2 ^ (e - 52))) as Hm.
    set (m := inject_Z (Binary64.round_even (y / 2 ^ (e - 52)))) in *.
    pose proof (Hpos (e - 52)%Z) as Hu. set (ulp := 2 ^ (e - 52)) in *.
    assert (Hhalf : 2 ^ (e - 53) * 2 == ulp).
    { unfold ulp. replace (e - 52)%Z with ((e - 53) + 1)%Z by lia.
      rewrite Qpower_plus by discriminate. reflexivity. }
    assert (Hle : 2 ^ (e - 53) <= 2 ^ (K - 53)).
    { apply Qpower_le_compat_l; [lia | discriminate]. }
    assert (Hxy : m * ulp - x == (m - y / ulp) * ulp).
    { rewrite <- Hr. field. lra. }
    rewrite Hxy, Qabs_Qmult, (Qabs_pos ulp) by lra.
    apply Qle_trans with (2 ^ (e - 53)); [| assumption].
    apply Qle_trans with ((1 # 2) * ulp).
    + apply Qmult_le_compat_r; [assumption | lra].
    + lra.
Qed.

(** Below 2^41, about 2.2 million millions, a rounding moves an amount by
    less than a four-thousandth. *)
Lemma round64_money (x : Q) :
  Qabs x <= 2199023255552 -> Qabs (Binary64.round64 x - x) <= 1 # 4096.
Proof. intros H. exact (round64_error x 41 ltac:(lia) H). Qed.

Lemma round64_eq (x y : Q) : x == y -> Binary64.round64 x = Binary64.round64 y.
Proof. intros H. unfold Binary64.round64. now rewrite (Qred_complete x y H). Qed.

Lemma round_half_away_near (z : Q) (n : Z) :
  Qabs (z - inject_Z n) < 1 # 2 -> round_half_away z = n.
Proof.
  intros H. apply Qabs_Qlt_condition in H as [H1 H2].
  assert (Hfl : forall k w, inject_Z k <= w -> w < inject_Z k + 1 -> Qfloor w = k).
  { intros k w Hw1 Hw2. apply Z.le_antisymm.
    - apply Z.lt_succ_r. rewrite Zlt_Qlt. apply Qle_lt_trans with w; [apply Qfloor_le |].
      unfold Z.succ. now rewrite inject_Z_plus.
    - rewrite <- (Qfloor_Z k). now apply Qfloor_resp_le. }
  unfold round_half_away. destruct (Qle_bool 0 z) eqn:E.
  - apply Hfl; lra.
  - assert (Hn : Qfloor (- z + (1 # 2)) = (- n)%Z).
    { apply Hfl; rewrite inject_Z_opp; lra. }
    rewrite Hn. lia.
Qed.

Lemma cents_as_quotient (n : Z) : n # 100 == inject_Z n / 100.
Proof. unfold Qeq, Qdiv, Qmult, Qinv, inject_Z. cbn [Qnum Qden]. lia. Qed.

(** An amount within half a cent of [n] cents is written as [n] cents. *)
Lemma toFixed2_near (x : Q) (n : Z) :
  Qabs (x - (n # 100)) < 1 # 200 -> Qabs x < 10 ^ 21 ->
  Binary64.toFixed2 x = Binary64.cent n.
Proof.
  intros Hn Hx. unfold Binary64.toFixed2, Binary64.cent.
  assert (E : Qle_bool (10 ^ 21) (Qabs x) = false) by now apply Qle_bool_false.
  rewrite E. f_equal. f_equal. apply round_half_away_near.
  apply Qabs_Qlt_condition in Hn as [H1 H2]. apply Qabs_Qlt_condition.
  rewrite cents_as_quotient in H1, H2.
  assert (H3 : inject_Z n / 100 * 100 == inject_Z n) by field.
  split; lra.
Qed.

Lemma cents_bound (n : Z) (N : Z) :
  (Z.abs n <= N)%Z -> Qabs (n # 100) <= inject_Z N / 100.
Proof.
  intros H. rewrite cents_as_quotient. apply Qabs_Qle_condition.
  assert (H1 : inject_Z (- N) <= inject_Z n) by (rewrite <- Zle_Qle; lia).
  assert (H2 : inject_Z n <= inject_Z N) by (rewrite <- Zle_Qle; lia).
  rewrite inject_Z_opp in H1.
  assert (Hd : forall z, z / 100 == z * (1 # 100)) by (intros z; field).
  rewrite !Hd. split; lra.
Qed.

(** The binary64 number of a whole-cent amount is the amount up to a
    four-thousandth. *)
Lemma cent_error (n : Z) :
  (Z.abs n <= 2 * 10 ^ 14)%Z -> Qabs (Binary64.cent n - (n # 100)) <= 1 # 4096.
Proof.
  intros H. apply round64_money. pose proof (cents_bound n _ H) as Hb.
  eapply Qle_trans; [exact Hb |]. vm_compute. discriminate.
Qed.

Lemma near_cent (n : Z) : (Z.abs n <= 10 ^ 14)%Z -> Binary64.near (Binary64.cent n) n.
Proof.
  intros H. split; [| assumption].
  eapply Qle_trans; [apply cent_error; lia |]. vm_compute. discriminate.
Qed.

Lemma near_bound (x : Q) (n : Z) : Binary64.near x n -> Qabs x <= 1000000000001.
Proof.
  intros [H1 H2]. pose proof (cents_bound n _ H2) as Hb.
  apply Qabs_Qle_condition in H1 as [H3 H4]. apply Qabs_Qle_condition in Hb as [H5 H6].
  assert (E : inject_Z (10 ^ 14) / 100 == 1000000000000) by (vm_compute; reflexivity).
  rewrite E in H5, H6. apply Qabs_Qle_condition. split; lra.
Qed.

(** Adding or subtracting two whole-cent amounts and writing the result
    with two decimals gives the whole-cent amount of the sum or the
    difference. *)
Lemma toFixed2_add_near (x y : Q) (a b : Z) :
  Binary64.near x a -> Binary64.near y b ->
  Binary64.toFixed2 (Binary64.add x y) = Binary64.cent (a + b).
Proof.
  intros Hx Hy. pose proof (near_bound x a Hx) as Bx. pose proof (near_bound y b Hy) as By.
  destruct Hx as [Hx _], Hy as [Hy _].
  apply Qabs_Qle_condition in Hx as [X1 X2], Hy as [Y1 Y2], Bx as [X3 X4], By as [Y3 Y4].
  assert (Hr : Qabs (Binary64.round64 (x + y) - (x + y)) <= 1 # 4096).
  { apply round64_money. apply Qabs_Qle_condition. split; lra. }
  apply Qabs_Qle_condition in Hr as [R1 R2].
  assert (Hs : (a + b) # 100 == (a # 100) + (b # 100)).
  { unfold Qeq, Qplus. cbn [Qnum Qden]. lia. }
  unfold Binary64.add. apply toFixed2_near.
  - rewrite Hs. apply Qabs_Qlt_condition. split; lra.
  - apply Qabs_Qlt_condition. split; [| apply Qlt_le_trans with 3000000000000; [lra |]].
    + apply Qlt_le_trans with (-3000000000000); [| lra]. vm_compute. reflexivity.
    + vm_compute. discriminate.
Qed.

Lemma toFixed2_sub_near (x y : Q) (a b : Z) :
  Binary64.near x a -> Binary64.near y b ->
  Binary64.toFixed2 (Binary64.sub x y) = Binary64.cent (a - b).
Proof.
  intros Hx Hy. pose proof (near_bound x a Hx) as Bx. pose proof (near_bound y b Hy) as By.
  destruct Hx as [Hx _], Hy as [Hy _].
  apply Qabs_Qle_condition in Hx as [X1 X2], Hy as [Y1 Y2], Bx as [X3 X4], By as [Y3 Y4].
  assert (Hr : Qabs (Binary64.round64 (x - y) - (x - y)) <= 1 # 4096).
  { apply round64_money. apply Qabs_Qle_condition. split; lra. }
  apply Qabs_Qle_condition in Hr as [R1 R2].
  assert (Hs : (a - b) # 100 == (a # 100) - (b # 100)).
  { unfold Qeq, Qminus, Qplus, Qopp. cbn [Qnum Qden]. lia. }
  unfold Binary64.sub. apply toFixed2_near.
  - rewrite Hs. apply Qabs_Qlt_condition. split; lra.
  - apply Qabs_Qlt_condition. split; [| apply Qlt_le_trans with 3000000000000; [lra |]].
    + apply Qlt_le_trans with (-3000000000000); [| lra]. vm_compute. reflexivity.
    + vm_compute. discriminate.
Qed.

(** Whole-cent amounts keep their order and their sign. *)
Lemma near_le (x y : Q) (a b : Z) :
  Binary64.near x a -> Binary64.near y b -> x <= y -> (a <= b)%Z.
Proof.
  intros [Hx _] [Hy _] Hle.
  apply Qabs_Qle_condition in Hx as [X1 X2], Hy as [Y1 Y2].
  rewrite !cents_as_quotient in *.
  destruct (Z_le_gt_dec a b) as [H | H]; [assumption |]. exfalso.
  assert (Hq : inject_Z b + 1 <= inject_Z a).
  { change 1 with (inject_Z 1). rewrite <- inject_Z_plus, <- Zle_Qle. lia. }
  assert (H1 : inject_Z a / 100 == inject_Z a * (1 # 100)) by (field).
  assert (H2 : inject_Z b / 100 == inject_Z b * (1 # 100)) by (field).
  rewrite H1 in *. rewrite H2 in *. lra.
Qed.

Lemma cent_sign (n : Z) :
  (Z.abs n <= 2 * 10 ^ 14)%Z ->
  ((n <= 0)%Z -> Binary64.cent n <= 0) /\ ((0 < n)%Z -> 0 < Binary64.cent n).
Proof.
  intros H. pose proof (cent_error n H) as He.
  apply Qabs_Qle_condition in He as [E1 E2]. rewrite cents_as_quotient in E1, E2.
  assert (H1 : inject_Z n / 100 == inject_Z n * (1 # 100)) by field.
  rewrite H1 in E1, E2. split; intros Hn.
  - destruct (Z.eq_dec n 0) as [-> | Hne]; [vm_compute; discriminate |].
    assert (Hq : inject_Z n <= - (1)).
    { change (- (1)) with (inject_Z (-1)). rewrite <- Zle_Qle. lia. }
    lra.
  - assert (Hq : 1 <= inject_Z n).
    { change 1 with (inject_Z 1). rewrite <- Zle_Qle. lia. }
    lra.
Qed.

(** [Math.max(0, x)] on a whole-cent amount. *)
Lemma max0_cent (n : Z) :
  (Z.abs n <= 2 * 10 ^ 14)%Z -> max0 (Binary64.cent n) = Binary64.cent (Z.max 0 n).
Proof.
  intros H. destruct (cent_sign n H) as [H1 H2]. unfold max0.
  destruct (Z_le_gt_dec n 0) as [Hn | Hn].
  - apply H1 in Hn as Hc. apply Qle_bool_iff in Hc. rewrite Hc.
    now rewrite Z.max_l by assumption.
  - assert (Hc : Qle_bool (Binary64.cent n) 0 = false).
    { apply Qle_bool_false. apply H2. lia. }
    rewrite Hc. now rewrite Z.max_r by lia.
Qed.

(** * Settlement on binary64 amounts *)





Lemma inRange_small (x : Q) : Qabs x <= 1000000000000 -> Binary64.inRange x.
Proof.
  intros H. unfold Binary64.inRange. eapply Qle_trans; [exact H |].
  apply Qle_trans with (2 ^ 40); [vm_compute; discriminate |].
  apply Qpower_le_compat_l; [lia | discriminate].
Qed.


(** A pot of 0.30 between two tied players under "min" and one under
    "max": half of it is 0.15, and half of that, a binary64 number just
    below 0.075, is written as 0.07. *)
Lemma calculateWinners_thirty :
  map (fun p => (id p, Qred (balance p)))
      (players (fst (Binary64.calculateWinners None 0 db_thirty)))
  = [("a", Qred (Binary64.cent 107)); ("b", Qred (Binary64.cent 207));
     ("c", Qred (Binary64.cent 315))].
Proof. vm_compute. reflexivity. Qed.

(** * Betting on binary64 amounts *)

(** ** The seat order *)

Lemma insertByPosition_sorted (p : Player) (l : list Player) :
  StronglySorted (fun a b => (position a <= position b)%Z) l ->
  StronglySorted (fun a b => (position a <= position b)%Z) (insertByPosition p l).
Proof.
  induction 1 as [| q r Hr IH Hq]; cbn [insertByPosition].
  - constructor; constructor.
  - destruct (position p <=? position q)%Z eqn:E.
    + apply Z.leb_le in E. constructor; [now constructor |].
      constructor; [assumption |].
      rewrite Forall_forall in *. intros x Hx. specialize (Hq x Hx). lia.
    + apply Z.leb_gt in E. constructor; [assumption |].
      rewrite Forall_forall in *. intros x Hx.
      apply insertByPosition_In in Hx as [-> | Hx]; [lia | now apply Hq].
Qed.

Lemma sortByPosition_sorted (l : list Player) :
  StronglySorted (fun a b => (position a <= position b)%Z) (sortByPosition l).
Proof.
  unfold sortByPosition. induction l as [| p l IH]; [constructor |].
  cbn [fold_right]. now apply insertByPosition_sorted.
Qed.

Lemma sorted_nth (l : list Player) :
  StronglySorted (fun a b => (position a <= position b)%Z) l ->
  forall i j a b, (i <= j)%nat -> nth_error l i = Some a -> nth_error l j = Some b ->
    (position a <= position b)%Z.
Proof.
  induction 1 as [| x r Hr IH Hx]; intros i j a b Hij Ha Hb.
  - destruct i; discriminate.
  - destruct i as [| i], j as [| j]; cbn [nth_error] in Ha, Hb.
    + injection Ha as <-. injection Hb as <-. lia.
    + injection Ha as <-. rewrite Forall_forall in Hx. apply Hx.
      now apply nth_error_In in Hb.
    + lia.
    + apply (IH i j); [lia | assumption..].
Qed.

(** The player the code passes the turn to is the next in seat order. *)
Lemma getNextActivePlayerId_order (gs : GameState) (ps : list Player) :
  unique_ids ps = true ->
  match getNextActivePlayerId (Some gs) ps with
  | Some i => exists nxt, id nxt = i /\ nextInSeatOrder ps (currentPlayerTurn gs) nxt
  | None => (List.length (activePlayers ps) <= 1)%nat
  end.
Proof.
  intros Hu. destruct (getNextActivePlayerId_facts gs ps Hu) as [Hsome Hnone].
  destruct (getNextActivePlayerId (Some gs) ps) as [i |] eqn:Enext;
    [| now apply Hnone].
  destruct (Hsome i eq_refl) as [Hne _]. clear Hsome Hnone.
  pose proof (sorted_nth _ (sortByPosition_sorted (activePlayers ps))) as Hsorted.
  assert (Hlen : List.length (sortByPosition (activePlayers ps))
                 = List.length (activePlayers ps))
    by apply Permutation_length, sortByPosition_perm.
  unfold getNextActivePlayerId in Enext. fold (activePlayers ps) in Enext.
  set (L := sortByPosition (activePlayers ps)) in *.
  assert (HL : forall q, In q ps -> canAct q -> exists j, nth_error L j = Some q).
  { intros q Hq [Hf Hb]. apply In_nth_error. apply activePlayers_In. tauto. }
  assert (HLin : forall q, In q L -> In q ps /\ canAct q).
  { intros q Hq. apply activePlayers_In in Hq. unfold canAct. tauto. }
  destruct (List.length L <=? 1)%nat eqn:El; [discriminate |]. apply Nat.leb_gt in El.
  destruct (findIndex (fun p => (id p =? currentPlayerTurn gs)%string) L) as [k |] eqn:Ef.
  - destruct (findIndex_Some _ _ _ Ef) as [cur0 [Hc1 Hc2]]. apply String.eqb_eq in Hc2.
    destruct (nth_error L (Nat.modulo (k + 1) (List.length L))) as [nxt |] eqn:En;
      [| discriminate].
    cbn [option_map] in Enext. injection Enext as Hi.
    assert (Hk : (k < List.length L)%nat) by (apply nth_error_Some; congruence).
    exists nxt. split; [assumption |].
    destruct (HLin nxt (nth_error_In _ _ En)) as [Hn1 Hn2].
    destruct (HLin cur0 (nth_error_In _ _ Hc1)) as [Hc3 Hc4].
    split; [assumption |]. split; [assumption |]. split; [congruence |]. split.
    + intros cur Hcur Hact Hid.
      assert (cur = cur0) by (apply (unique_same_id ps); auto; congruence). subst cur.
      split.
      * intros Hlt q Hq Hqa [H1 H2]. destruct (HL q Hq Hqa) as [j Hj].
        assert (Hjn : (j < List.length L)%nat) by (apply nth_error_Some; congruence).
        destruct (Nat.le_gt_cases j k) as [Hjk | Hjk].
        -- pose proof (Hsorted j k q cur0 Hjk Hj Hc1). lia.
        -- rewrite Nat.mod_small in En by lia.
           pose proof (Hsorted (k + 1)%nat j nxt q ltac:(lia) En Hj). lia.
      * intros Hlt q Hq Hqa. destruct (HL q Hq Hqa) as [j Hj].
        assert (Hjn : (j < List.length L)%nat) by (apply nth_error_Some; congruence).
        destruct (Nat.eq_dec (k + 1) (List.length L)) as [E | E].
        -- rewrite E, Nat.Div0.mod_same in En.
           pose proof (Hsorted 0%nat j nxt q ltac:(lia) En Hj).
           pose proof (Hsorted j k q cur0 ltac:(lia) Hj Hc1). lia.
        -- rewrite Nat.mod_small in En by lia.
           pose proof (Hsorted k (k + 1)%nat cur0 nxt ltac:(lia) Hc1 En). lia.
    + intros Hnobody. exfalso. now apply (Hnobody cur0).
  - destruct (nth_error L 0) as [nxt |] eqn:En; [| discriminate].
    cbn [option_map] in Enext. injection Enext as Hi.
    exists nxt. split; [assumption |].
    destruct (HLin nxt (nth_error_In _ _ En)) as [Hn1 Hn2].
    split; [assumption |]. split; [assumption |]. split; [congruence |]. split.
    + intros cur Hcur [Hf Hb] Hid. exfalso.
      assert (Hin : In cur L) by (apply activePlayers_In; tauto).
      pose proof (findIndex_None _ _ Ef cur Hin) as Hno. cbn beta in Hno.
      apply String.eqb_neq in Hno. contradiction.
    + intros _ q Hq Hqa. destruct (HL q Hq Hqa) as [j Hj].
      apply (Hsorted 0%nat j); [lia | assumption..].
Qed.

(** ** A bet that goes through *)

Lemma handleBet64_written (c : Client) (db : Store) (gs : GameState) (me : Player) :
  gameState db = Some gs -> currentUser c db = Some me ->
  r_written (Binary64.handleBet c db) = true ->
  waitingForDealer gs = false
  /\ (isAdminMode c = true \/ currentPlayerTurn gs = id me)
  /\ orElse (currentBet gs) (Binary64.round64 (1 # 10)) <= Binary64.effectiveBet c
  /\ Binary64.betDiff c me <= balance me
  /\ r_store (Binary64.handleBet c db)
     = db_update (Binary64.betUpdates c db gs me)
         (state_update (Binary64.betFields c db gs me) db).
Proof.
  intros Hgs Hme. destruct (currentUser_localId c db me Hme) as [Hlid _].
  unfold Binary64.handleBet. rewrite Hgs, Hme, Hlid.
  destruct (waitingForDealer gs); [discriminate |].
  destruct (negb (isAdminMode c) && negb (currentPlayerTurn gs =? id me)%string) eqn:Eturn;
    [discriminate |].
  match goal with
  | |- context [Qlt_bool ?v (orElse (currentBet gs) ?m)] =>
      destruct (Qlt_bool v (orElse (currentBet gs) m)) eqn:Emin; [discriminate |]
  end.
  match goal with
  | |- context [Qlt_bool (balance me) ?d] =>
      destruct (Qlt_bool (balance me) d) eqn:Ebal; [discriminate |]
  end.
  intros _. split; [reflexivity |]. split.
  { apply andb_false_iff in Eturn as [E | E].
    - left. now apply negb_false_iff in E.
    - right. apply negb_false_iff in E. now apply String.eqb_eq in E. }
  apply Qlt_bool_false in Emin, Ebal.
  split; [exact Emin |]. split; [exact Ebal |].
  unfold Binary64.betUpdates, Binary64.betFields. rewrite ?Hgs. reflexivity.
Qed.

Lemma betUpdates64_self (c : Client) (db : Store) (gs : GameState) (me : Player) :
  apply_updates (Binary64.betUpdates c db gs me) me
  = mkPlayer (id me) (username me)
             (Binary64.toFixed2 (Binary64.sub (balance me) (Binary64.betDiff c me)))
             (isAdmin me) (isBot me) (Binary64.effectiveBet c) (finalScore me) (choice me)
             (position me) true (folded me) (hand me)
             (Binary64.add (orElse (totalBetThisHand me) 0) (Binary64.betDiff c me))
             (originalHand me) (discardedCards me).
Proof.
  unfold Binary64.betUpdates. rewrite apply_updates_app.
  destruct (Qlt_bool (currentBet gs) (Binary64.effectiveBet c));
    [rewrite raise_self by reflexivity | change (apply_updates [] me) with me].
  all: unfold apply_updates; cbn [fold_left]; unfold apply_update; cbn [fst snd].
  all: rewrite String.eqb_refl; rewrite !set_player_field_id, String.eqb_refl.
  all: rewrite !set_player_field_id, String.eqb_refl.
  all: rewrite !set_player_field_id, String.eqb_refl.
  all: destruct me; reflexivity.
Qed.

Lemma betUpdates64_other (c : Client) (db : Store) (gs : GameState) (me p : Player) :
  id p <> id me -> In (id p) (keys (players db)) ->
  apply_updates (Binary64.betUpdates c db gs me) p
  = if Qlt_bool (currentBet gs) (Binary64.effectiveBet c)
    then set_player_field (F_hasActed false) p else p.
Proof.
  intros Hne Hin. unfold Binary64.betUpdates. rewrite apply_updates_app.
  destruct (Qlt_bool (currentBet gs) (Binary64.effectiveBet c));
    [rewrite raise_other by assumption | change (apply_updates [] p) with p].
  all: apply apply_updates_other; intros u Hu.
  all: assert (Hk : fst u = id me) by (simpl in Hu; intuition (subst; reflexivity)).
  all: rewrite Hk, ?set_player_field_id; congruence.
Qed.

Lemma betFields64_table (c : Client) (db : Store) (gs : GameState) (me : Player)
    (us : list Update) :
  gameState db = Some gs ->
  gameState (db_update us (state_update (Binary64.betFields c db gs me) db))
  = Some (mkGameState (phase gs)
            (Binary64.toFixed2 (Binary64.add (orElse (pot gs) 0) (Binary64.betDiff c me)))
            (Binary64.effectiveBet c) (revealedCards gs) (totalCards gs) (handSize gs)
            (adminId gs) (dealerIndex gs)
            (orEmpty (getNextActivePlayerId (Some gs) (players db)))
            (waitingForDealer gs) (isFirstHand gs)).
Proof.
  intros Hgs. rewrite gameState_db_update. unfold state_update, Binary64.betFields.
  cbn [gameState option_map fold_left]. rewrite Hgs. cbn [option_map]. now destruct gs.
Qed.

Lemma near_orElse (x : Q) (n : Z) : Binary64.near x n -> Binary64.near (orElse x 0) n.
Proof.
  intros [H1 H2]. split; [| assumption]. now rewrite orElse_zero.
Qed.

(** A whole-cent amount that does not exceed another one. *)
Lemma cent_le_near (d b : Z) (y : Q) :
  (Z.abs d <= 2 * 10 ^ 14)%Z -> Binary64.near y b -> Binary64.cent d <= y -> (d <= b)%Z.
Proof.
  intros Hd [Hy _] Hle. pose proof (cent_error d Hd) as He.
  apply Qabs_Qle_condition in He as [E1 E2], Hy as [Y1 Y2].
  rewrite !cents_as_quotient in *.
  assert (Hq : forall z, z / 100 == z * (1 # 100)) by (intros z; field).
  rewrite !Hq in *.
  destruct (Z_le_gt_dec d b) as [H | H]; [assumption |]. exfalso.
  assert (Hz : inject_Z b + 1 <= inject_Z d).
  { change 1 with (inject_Z 1). rewrite <- inject_Z_plus, <- Zle_Qle. lia. }
  lra.
Qed.

(** C4, amended. A bet that goes through, at [amount] (the input with two
    decimals, capped at 2.00) and with [diff] what the bettor still owes
    for it ([amount - lastBet] with two decimals, never below 0): the
    bettor's balance is written as balance minus [diff] with two decimals,
    [lastBet] becomes [amount], [hasActed] becomes true, [diff] is added
    to [totalBetThisHand] (a binary64 sum, not rounded), and the pot is
    written as pot plus [diff] with two decimals; on a raise every other
    player's [hasActed] is cleared, and nothing else of another player
    changes, nor of the bettor or of the table; the table's [currentBet]
    is [amount]; the turn goes to the next player in seat order who can
    still act, or to nobody when fewer than two can. The bet is at least the table's bet (at least 0.10 on a
    table without one), so [currentBet] changes on a raise only, and
    [diff] is covered by the balance. When balance, bet, last bet and pot
    are whole-cent amounts below a million millions, [diff] is the
    whole-cent amount of [max 0 (amount - lastBet)] and balance and pot
    move by exactly that many cents. *)
Theorem handleBet_success (c : Client) (db : Store) (gs : GameState) (me : Player)
    (Hgs : gameState db = Some gs)
    (Hme : currentUser c db = Some me)
    (Hu : unique_ids (players db) = true)
    (Hok : r_written (Binary64.handleBet c db) = true) :
  let amount := Binary64.effectiveBet c in
  let diff := Binary64.betDiff c me in
  let db' := r_store (Binary64.handleBet c db) in
  exists me' gs',
    lookup (id me) (players db') = Some me' /\ gameState db' = Some gs'
    /\ diff = max0 (Binary64.toFixed2 (Binary64.sub amount (orElse (lastBet me) 0)))
    /\ balance me' = Binary64.toFixed2 (Binary64.sub (balance me) diff)
    /\ lastBet me' = amount
    /\ hasActed me' = true
    /\ totalBetThisHand me' = Binary64.add (orElse (totalBetThisHand me) 0) diff
    /\ pot gs' = Binary64.toFixed2 (Binary64.add (orElse (pot gs) 0) diff)
    /\ currentBet gs' = amount
    /\ (forall i p, i <> id me -> lookup i (players db) = Some p ->
        exists p',
          lookup i (players db') = Some p'
          /\ p' = (if Qlt_bool (currentBet gs) amount
                   then set_player_field (F_hasActed false) p else p)
          /\ hasActed p' = (if Qlt_bool (currentBet gs) amount then false else hasActed p)
          /\ balance p' = balance p /\ lastBet p' = lastBet p
          /\ totalBetThisHand p' = totalBetThisHand p /\ folded p' = folded p)
    /\ ((currentPlayerTurn gs' = "" /\ (List.length (activePlayers (players db)) <= 1)%nat)
        \/ exists nxt, currentPlayerTurn gs' = id nxt
                       /\ nextInSeatOrder (players db) (currentPlayerTurn gs) nxt)
    /\ (id me' = id me /\ username me' = username me /\ isBot me' = isBot me
        /\ position me' = position me /\ folded me' = folded me
        /\ hand me' = hand me /\ originalHand me' = originalHand me
        /\ discardedCards me' = discardedCards me
        /\ choice me' = choice me /\ finalScore me' = finalScore me)
    /\ (phase gs' = phase gs /\ revealedCards gs' = revealedCards gs
        /\ dealerIndex gs' = dealerIndex gs
        /\ waitingForDealer gs' = waitingForDealer gs)
    /\ orElse (currentBet gs) (Binary64.round64 (1 # 10)) <= amount
    /\ diff <= balance me
    /\ (forall a l b p : Z,
          Binary64.near amount a -> Binary64.near (lastBet me) l ->
          Binary64.near (balance me) b -> Binary64.near (pot gs) p ->
          diff = Binary64.cent (Z.max 0 (a - l))
          /\ (0 <= Z.max 0 (a - l) <= b)%Z
          /\ balance me' = Binary64.cent (b - Z.max 0 (a - l))
          /\ pot gs' = Binary64.cent (p + Z.max 0 (a - l))).
Proof.
  intros amount diff db'.
  destruct (handleBet64_written c db gs me Hgs Hme Hok) as [_ [_ [Hmin [Hbal Hst]]]].
  destruct (currentUser_localId c db me Hme) as [_ Hlk].
  subst db'. rewrite Hst.
  eexists. eexists.
  split. { rewrite lookup_db_update, players_state_update, Hlk. cbn [option_map].
           rewrite betUpdates64_self. reflexivity. }
  split; [now apply betFields64_table |].
  cbn [balance lastBet hasActed totalBetThisHand pot currentBet currentPlayerTurn].
  fold amount diff.
  do 7 (split; [reflexivity |]).
  split.
  { intros i p Hne Hp. rewrite lookup_db_update, players_state_update, Hp.
    cbn [option_map]. eexists. split; [reflexivity |].
    pose proof (lookup_id _ _ _ Hp) as Hid.
    rewrite betUpdates64_other; [| congruence | now apply lookup_key in Hp].
    fold amount. split; [reflexivity |].
    destruct (Qlt_bool (currentBet gs) amount); destruct p;
      repeat split; reflexivity. }
  split.
  { pose proof (getNextActivePlayerId_order gs (players db) Hu) as Hord.
    destruct (getNextActivePlayerId (Some gs) (players db)) as [i |].
    - right. destruct Hord as [nxt [Hid Hnxt]]. exists nxt. cbn [orEmpty]. now split.
    - left. now split. }
  split; [repeat split; reflexivity |]. split; [repeat split; reflexivity |].
  split; [exact Hmin |]. split; [exact Hbal |].
  intros a l b p Ha Hl Hb Hp.
  assert (Hal : (Z.abs (a - l) <= 2 * 10 ^ 14)%Z).
  { destruct Ha as [_ Ha], Hl as [_ Hl]. lia. }
  assert (Hd : diff = Binary64.cent (Z.max 0 (a - l))).
  { unfold diff, Binary64.betDiff. fold amount.
    rewrite (toFixed2_sub_near amount (orElse (lastBet me) 0) a l Ha (near_orElse _ _ Hl)).
    now apply max0_cent. }
  set (d := Z.max 0 (a - l)) in *.
  assert (Hdb : (d <= b)%Z).
  { apply (cent_le_near d b (balance me)); [unfold d; lia | assumption |].
    now rewrite <- Hd. }
  assert (Hd0 : (0 <= d)%Z) by (unfold d; lia).
  assert (Hnd : Binary64.near diff d).
  { rewrite Hd. apply near_cent. destruct Hb as [_ Hb]. lia. }
  split; [exact Hd |]. split; [lia |]. split.
  - now apply toFixed2_sub_near.
  - apply toFixed2_add_near; [now apply near_orElse | assumption].
Qed.

Lemma handleBet_success_witness :
  r_written (Binary64.handleBet (browser "p2" false (3 # 2) "") db_betting) = true
  /\ exists me' gs',
       lookup "p2" (players (r_store (Binary64.handleBet (browser "p2" false (3 # 2) "")
                                        db_betting))) = Some me'
       /\ gameState (r_store (Binary64.handleBet (browser "p2" false (3 # 2) "") db_betting))
          = Some gs'
       /\ balance me' = Binary64.cent 850 /\ pot gs' = Binary64.cent 400
       /\ hasActed me' = true.
Proof.
  split; [reflexivity |].
  destruct (handleBet_success (browser "p2" false (3 # 2) "") db_betting _ _
              eq_refl eq_refl eq_refl eq_refl)
    as [me' [gs' [H1 [H2 [_ [_ [_ [H6 [_ [_ [_ [_ [_ [_ [_ [_ [_ Hc]]]]]]]]]]]]]]]]].
  assert (Hn : forall x n, Qabs (x - (n # 100)) <= 1 # 1000 -> (Z.abs n <= 10 ^ 14)%Z ->
                           Binary64.near x n) by (intros x n A B; now split).
  destruct (Hc 150%Z 50%Z 950%Z 300%Z) as [_ [_ [Hb Hp]]];
    try (apply Hn; vm_compute; discriminate).
  exists me', gs'. split; [exact H1 |]. split; [exact H2 |].
  split; [exact Hb |]. split; [exact Hp | exact H6].
Defined.

(** C4 as stated fails: a guest who joined with a budget of 1.005 and bets
    0.10 is left with 0.90; the balance has gone down by more than the
    0.10 that went into the pot. *)
Theorem handleBet_balance_not_by_diff :
  let c := browser "p1" false (Binary64.cent 10) "" in
  let db' := r_store (Binary64.handleBet c db_odd) in
  r_written (Binary64.handleBet c db_odd) = true
  /\ Binary64.betDiff c (mkPlayer "p1" "guest" (Binary64.round64 (1005 # 1000)) false false 0
                                  None None 0 false false None 0 None [])
     == Binary64.cent 10
  /\ option_map (fun p => Qred (balance p)) (lookup "p1" (players db'))
     = Some (Qred (Binary64.cent 90))
  /\ option_map (fun g => Qred (pot g)) (gameState db') = Some (Qred (Binary64.cent 10))
  /\ ~ Binary64.round64 (1005 # 1000) - Binary64.cent 90 == Binary64.cent 10
  /\ 1 # 10 < Binary64.round64 (1005 # 1000) - Binary64.cent 90.
Proof.
  cbv zeta. split; [vm_compute; reflexivity |].
  split; [vm_compute; reflexivity |].
  split; [vm_compute; reflexivity |].
  split; [vm_compute; reflexivity |].
  split; [vm_compute; discriminate | vm_compute; reflexivity].
Qed.

(** * The bot's move on binary64 amounts *)

Lemma botTurn64_cases (c : Client) (db : Store) (gs : GameState) (bot : Player) :
  gameState db = Some gs -> botMayAct c gs = true ->
  currentPlayerTurn gs <> "" ->
  lookup (currentPlayerTurn gs) (players db) = Some bot -> isBot bot = true ->
  let i := currentPlayerTurn gs in
  let cb := orElse (currentBet gs) 0 in
  let bal := orElse (balance bot) 0 in
  let next := orEmpty (getNextActivePlayerId (Some gs) (players db)) in
  Binary64.botTurn c db
  = if Qeq_bool cb 0 || Qle_bool cb (orElse (lastBet bot) 0) then
      state_update [S_currentPlayerTurn next]
        (db_update [(i, F_hasActed true); (i, F_lastBet cb)] db)
    else if Qlt_bool bal (Binary64.botDiff gs bot) then
      state_update [S_currentPlayerTurn next]
        (db_update [(i, F_folded true); (i, F_hasActed true)] db)
    else
      db_update
        [ (i, F_balance (Binary64.toFixed2 (Binary64.sub bal (Binary64.botDiff gs bot))));
          (i, F_lastBet cb);
          (i, F_hasActed true);
          (i, F_totalBetThisHand
                (Binary64.add (orElse (totalBetThisHand bot) 0) (Binary64.botDiff gs bot))) ]
        (state_update
           [ S_pot (Binary64.toFixed2 (Binary64.add (orElse (pot gs) 0)
                                                    (Binary64.botDiff gs bot)));
             S_currentPlayerTurn next ] db).
Proof.
  intros Hgs Hact Hne Hlk Hbot. unfold botMayAct in Hact.
  apply andb_true_iff in Hact as [Hact Hw]. apply andb_true_iff in Hact as [Hc Hph].
  apply negb_true_iff in Hw. apply String.eqb_neq in Hne.
  unfold Binary64.botTurn. rewrite Hgs, Hc, Hw, Hne, Hlk, Hbot.
  destruct (phase gs); try discriminate. reflexivity.
Qed.

Lemma owes_nothing_iff (cb l : Q) :
  Qeq_bool cb 0 || Qle_bool cb (orElse l 0) = true <-> cb == 0 \/ cb <= l.
Proof.
  rewrite orb_true_iff, Qeq_bool_iff, Qle_bool_iff, orElse_zero. reflexivity.
Qed.

(** X7. The bot's move, on the bot's turn. When nothing is owed (the
    table's bet is 0 or not above the bot's last bet) the bot checks: it
    has acted, its last bet is the table's bet, and no money moves. When
    what is owed exceeds its balance the bot folds, and no money moves.
    Otherwise it calls: its balance is written as balance minus what is
    owed, with two decimals, its last bet is the table's bet, its stake
    grows by what is owed and the pot is written as pot plus what is owed,
    with two decimals; for whole-cent amounts below a million millions
    exactly the cents owed leave the balance and enter the pot, and the
    balance stays at or above zero. The bot never raises and never changes
    another player; the turn goes to the next player in seat order who can
    still act. When the turn holder is not a bot nothing is written. *)
Theorem botTurn_effect (c : Client) (db : Store) (gs : GameState) (bot : Player)
    (Hgs : gameState db = Some gs)
    (Hact : botMayAct c gs = true)
    (Hturn : currentPlayerTurn gs <> "")
    (Hlk : lookup (currentPlayerTurn gs) (players db) = Some bot)
    (Hu : unique_ids (players db) = true) :
  let db' := Binary64.botTurn c db in
  let cb := orElse (currentBet gs) 0 in
  let owed := Binary64.botDiff gs bot in
  (isBot bot = false -> db' = db)
  /\ (isBot bot = true ->
      exists bot' gs',
        lookup (currentPlayerTurn gs) (players db') = Some bot'
        /\ gameState db' = Some gs'
        /\ owed = max0 (Binary64.toFixed2 (Binary64.sub cb (orElse (lastBet bot) 0)))
        /\ hasActed bot' = true
        /\ (cb == 0 \/ cb <= lastBet bot ->
            folded bot' = folded bot /\ lastBet bot' = cb
            /\ balance bot' = balance bot
            /\ totalBetThisHand bot' = totalBetThisHand bot /\ pot gs' = pot gs)
        /\ (~ cb == 0 -> lastBet bot < cb -> balance bot < owed ->
            folded bot' = true /\ lastBet bot' = lastBet bot
            /\ balance bot' = balance bot
            /\ totalBetThisHand bot' = totalBetThisHand bot /\ pot gs' = pot gs)
        /\ (~ cb == 0 -> lastBet bot < cb -> owed <= balance bot ->
            folded bot' = folded bot /\ lastBet bot' = cb
            /\ balance bot' = Binary64.toFixed2 (Binary64.sub (orElse (balance bot) 0) owed)
            /\ totalBetThisHand bot'
               = Binary64.add (orElse (totalBetThisHand bot) 0) owed
            /\ pot gs' = Binary64.toFixed2 (Binary64.add (orElse (pot gs) 0) owed)
            /\ forall a l b p : Z,
                 Binary64.near cb a -> Binary64.near (lastBet bot) l ->
                 Binary64.near (balance bot) b -> Binary64.near (pot gs) p ->
                 owed = Binary64.cent (Z.max 0 (a - l))
                 /\ (0 <= Z.max 0 (a - l) <= b)%Z
                 /\ balance bot' = Binary64.cent (b - Z.max 0 (a - l))
                 /\ pot gs' = Binary64.cent (p + Z.max 0 (a - l)))
        /\ username bot' = username bot /\ hand bot' = hand bot
        /\ choice bot' = choice bot /\ finalScore bot' = finalScore bot
        /\ position bot' = position bot
        /\ currentBet gs' = currentBet gs /\ phase gs' = phase gs
        /\ revealedCards gs' = revealedCards gs
        /\ ((currentPlayerTurn gs' = ""
             /\ (List.length (activePlayers (players db)) <= 1)%nat)
            \/ exists nxt, currentPlayerTurn gs' = id nxt
                           /\ nextInSeatOrder (players db) (currentPlayerTurn gs) nxt)
        /\ (forall j p, j <> currentPlayerTurn gs -> lookup j (players db) = Some p ->
              lookup j (players db') = Some p)).
Proof.
  intros db' cb owed. split.
  { intros Hb. unfold db', Binary64.botTurn. rewrite Hgs.
    destruct (negb (isConnected c) || _ || waitingForDealer gs); [reflexivity |].
    destruct (currentPlayerTurn gs =? "")%string; [reflexivity |].
    now rewrite Hlk, Hb. }
  intros Hb. pose proof (botTurn64_cases c db gs bot Hgs Hact Hturn Hlk Hb) as Hcase.
  cbv zeta in Hcase. pose proof (lookup_id _ _ _ Hlk) as Hid.
  assert (Hother : forall us, (forall u, In u us -> fst u = currentPlayerTurn gs) ->
            forall j p, j <> currentPlayerTurn gs -> lookup j (players db) = Some p ->
            lookup j (players (db_update us db)) = Some p).
  { intros us Hk j p Hne Hp. rewrite lookup_db_update, Hp. cbn [option_map]. f_equal.
    apply (keyed_other (currentPlayerTurn gs)); [assumption |].
    now rewrite (lookup_id _ _ _ Hp). }
  assert (Hnext : forall g,
            currentPlayerTurn g = orEmpty (getNextActivePlayerId (Some gs) (players db)) ->
            (currentPlayerTurn g = ""
             /\ (List.length (activePlayers (players db)) <= 1)%nat)
            \/ exists nxt, currentPlayerTurn g = id nxt
                           /\ nextInSeatOrder (players db) (currentPlayerTurn gs) nxt).
  { intros g Hg. pose proof (getNextActivePlayerId_order gs (players db) Hu) as Hord.
    destruct (getNextActivePlayerId (Some gs) (players db)) as [i |]; cbn [orEmpty] in Hg.
    - right. destruct Hord as [nxt [Hi Hnxt]]. exists nxt. split; [congruence | assumption].
    - left. now split. }
  pose proof (owes_nothing_iff cb (lastBet bot)) as Hnothing. fold cb in Hcase.
  unfold db'. rewrite Hcase. clear Hcase.
  destruct (Qeq_bool cb 0 || Qle_bool cb (orElse (lastBet bot) 0)) eqn:E1.
  - assert (Hn : cb == 0 \/ cb <= lastBet bot) by now apply Hnothing.
    eexists. eexists. split.
    { rewrite players_state_update, lookup_db_update, Hlk. cbn [option_map].
      self_updates. reflexivity. }
    split; [rewrite (state_fields _ _ gs) by apply Hgs; reflexivity |].
    split; [reflexivity |]. split; [now destruct bot |].
    split; [intros _; destruct bot, gs; repeat split; reflexivity |].
    split; [intros H0 Hlt _; exfalso; destruct Hn; [contradiction | lra] |].
    split; [intros H0 Hlt _; exfalso; destruct Hn; [contradiction | lra] |].
    do 5 (split; [now destruct bot |]).
    do 3 (split; [now destruct gs |]).
    split; [apply Hnext; now destruct gs |].
    intros j p Hne Hp. rewrite players_state_update. apply Hother; [| assumption..].
    intros u [<- | [<- | []]]; reflexivity.
  - assert (Hn : ~ (cb == 0 \/ cb <= lastBet bot)).
    { intros H. apply Hnothing in H. congruence. }
    destruct (Qlt_bool (orElse (balance bot) 0) (Binary64.botDiff gs bot)) eqn:E2.
    + apply Qlt_bool_true in E2. rewrite orElse_zero in E2. fold owed in E2.
      eexists. eexists. split.
      { rewrite players_state_update, lookup_db_update, Hlk. cbn [option_map].
        self_updates. reflexivity. }
      split; [rewrite (state_fields _ _ gs) by apply Hgs; reflexivity |].
      split; [reflexivity |]. split; [now destruct bot |].
      split; [intros H; contradiction |].
      split; [intros _ _ _; destruct bot, gs; repeat split; reflexivity |].
      split; [intros _ _ Hle; exfalso; lra |].
      do 5 (split; [now destruct bot |]).
      do 3 (split; [now destruct gs |]).
      split; [apply Hnext; now destruct gs |].
      intros j p Hne Hp. rewrite players_state_update. apply Hother; [| assumption..].
      intros u [<- | [<- | []]]; reflexivity.
    + apply Qlt_bool_false in E2. rewrite orElse_zero in E2. fold owed in E2.
      eexists. eexists. split.
      { rewrite lookup_db_update, players_state_update, Hlk. cbn [option_map].
        self_updates. reflexivity. }
      split; [rewrite gameState_db_update, (state_fields _ _ gs) by apply Hgs; reflexivity |].
      split; [reflexivity |]. split; [now destruct bot |].
      split; [intros H; contradiction |].
      split; [intros _ _ Hlt; exfalso; lra |].
      split.
      { intros _ _ _. fold owed.
        do 2 (split; [now destruct bot |]).
        assert (Hbal : forall x y z w,
                  balance (set_player_field (F_totalBetThisHand w)
                             (set_player_field (F_hasActed z)
                                (set_player_field (F_lastBet y)
                                   (set_player_field (F_balance x) bot)))) = x)
          by (intros; now destruct bot).
        assert (Hpot : forall x y,
                  pot (fold_left (fun g f => set_state_field f g)
                         [S_pot x; S_currentPlayerTurn y] gs) = x)
          by (intros; now destruct gs).
        rewrite Hbal, Hpot.
        split; [reflexivity |]. split; [now destruct bot |]. split; [reflexivity |].
        intros a l b p Ha Hl Hbn Hp.
        assert (Hal : (Z.abs (a - l) <= 2 * 10 ^ 14)%Z).
        { destruct Ha as [_ Ha], Hl as [_ Hl]. lia. }
        assert (Hd : owed = Binary64.cent (Z.max 0 (a - l))).
        { unfold owed, Binary64.botDiff. fold cb.
          rewrite (toFixed2_sub_near cb (orElse (lastBet bot) 0) a l Ha (near_orElse _ _ Hl)).
          now apply max0_cent. }
        set (d := Z.max 0 (a - l)) in *.
        assert (Hdb : (d <= b)%Z).
        { apply (cent_le_near d b (balance bot)); [unfold d; lia | assumption |].
          now rewrite <- Hd. }
        assert (Hd0 : (0 <= d)%Z) by (unfold d; lia).
        assert (Hnd : Binary64.near owed d).
        { rewrite Hd. apply near_cent. destruct Hbn as [_ Hbn]. lia. }
        split; [exact Hd |]. split; [lia |]. split.
        - apply toFixed2_sub_near; [now apply near_orElse | assumption].
        - apply toFixed2_add_near; [now apply near_orElse | assumption]. }
      do 5 (split; [now destruct bot |]).
      do 3 (split; [now destruct gs |]).
      split; [apply Hnext; now destruct gs |].
      intros j p Hne Hp. apply Hother; [| assumption..].
      intros u [<- | [<- | [<- | [<- | []]]]]; reflexivity.
Qed.

Lemma botTurn_effect_witness :
  botMayAct (browser "p1" true 0 "") (table betting 3 1 [card "9" "♥"] 4 "p2") = true
  /\ exists bot' gs',
       lookup "p2" (players (Binary64.botTurn (browser "p1" true 0 "") db_bot)) = Some bot'
       /\ gameState (Binary64.botTurn (browser "p1" true 0 "") db_bot) = Some gs'
       /\ balance bot' = Binary64.cent 900 /\ pot gs' = Binary64.cent 350.
Proof.
  split; [reflexivity |].
  destruct (proj2 (botTurn_effect (browser "p1" true 0 "") db_bot _ _ eq_refl eq_refl
                     ltac:(discriminate) eq_refl eq_refl) eq_refl)
    as [bot' [gs' [H1 [H2 [_ [_ [_ [_ [H7 _]]]]]]]]].
  assert (Hn : forall x n, Qabs (x - (n # 100)) <= 1 # 1000 -> (Z.abs n <= 10 ^ 14)%Z ->
                           Binary64.near x n) by (intros x n A B; now split).
  destruct H7 as [_ [_ [_ [_ [_ Hc]]]]];
    [vm_compute; discriminate | vm_compute; reflexivity | vm_compute; discriminate |].
  destruct (Hc 100%Z 50%Z 950%Z 300%Z) as [_ [_ [Hb Hp]]];
    try (apply Hn; vm_compute; discriminate).
  exists bot', gs'. split; [exact H1 |]. split; [exact H2 |]. now split.
Defined.

(** * The jackpot override on binary64 amounts *)

Lemma calculateWinners64_override (i : string) (now : Z) (db : Store) (gs : GameState)
    (w : Player) :
  gameState db = Some gs -> i <> "" -> lookup i (players db) = Some w ->
  fst (Binary64.calculateWinners (Some i) now db)
  = state_update [S_phase results; S_isFirstHand false]
      (mkStore (gameState db)
         (players (db_update
                     [(id w, F_balance (Binary64.toFixed2
                                          (Binary64.add (balance w) (orElse (pot gs) 0))))] db))
         (history db
          ++ [mkHistoryEntry [mkWinnerInfo (username w) (orElse (pot gs) 0) LasVegas]
                             (orElse (pot gs) 0) now])%list).
Proof.
  intros Hgs Hi Hw. unfold Binary64.calculateWinners. rewrite Hgs.
  destruct i as [| a r]; [contradiction |]. rewrite Hw. cbn [fst].
  rewrite gameState_db_update, history_db_update. now rewrite Hgs.
Qed.

(** X18. The jackpot override. Naming a player seated at the table gives
    that player the whole pot, whatever the phase and whether or not the
    player has folded or declared: the balance is written as balance plus
    pot with two decimals (for whole-cent amounts below a million millions,
    the whole-cent amount of the sum), no other seat changes, one Las Vegas
    record is appended to the history and the table moves to results. An
    empty name is no override: the normal settlement runs. A name that is
    at no seat pays nobody and appends nothing, yet the table still moves
    to results. The amounts are binary64 numbers, far from overflow. *)
Theorem calculateWinners_jackpot (i : string) (now : Z) (db : Store) (gs : GameState)
    (Hgs : gameState db = Some gs)
    (Hi : i <> "")
    (Hpot : Binary64.inRange (pot gs))
    (Hbal : Forall (fun p => Binary64.inRange (balance p)) (players db)) :
  let db' := fst (Binary64.calculateWinners (Some i) now db) in
  (forall w, lookup i (players db) = Some w ->
     lookup i (players db')
     = Some (withBalance (Binary64.toFixed2 (Binary64.add (balance w) (orElse (pot gs) 0))) w)
     /\ (forall b p : Z, Binary64.near (balance w) b -> Binary64.near (pot gs) p ->
           Binary64.toFixed2 (Binary64.add (balance w) (orElse (pot gs) 0))
           = Binary64.cent (b + p))
     /\ (forall j, j <> i -> lookup j (players db') = lookup j (players db))
     /\ history db'
        = (history db
           ++ [mkHistoryEntry [mkWinnerInfo (username w) (orElse (pot gs) 0) LasVegas]
                              (orElse (pot gs) 0) now])%list)
  /\ (lookup i (players db) = None ->
      players db' = players db /\ history db' = history db)
  /\ gameState db'
     = Some (set_state_field (S_isFirstHand false) (set_state_field (S_phase results) gs))
  /\ Binary64.calculateWinners (Some "") now db = Binary64.calculateWinners None now db.
Proof.
  intros db'. subst db'. split.
  { intros w Hw. rewrite (calculateWinners64_override i now db gs w Hgs Hi Hw).
    rewrite players_state_update. cbn [players history state_update].
    pose proof (lookup_id _ _ _ Hw) as Hid.
    split.
    { rewrite lookup_db_update, Hw. cbn [option_map]. f_equal.
      now rewrite one_update_self. }
    split.
    { intros b p Hb Hp. apply toFixed2_add_near; [assumption | now apply near_orElse]. }
    split; [| reflexivity].
    intros j Hj. rewrite lookup_db_update.
    destruct (lookup j (players db)) as [q |] eqn:Hq; [| reflexivity].
    cbn [option_map]. f_equal. apply apply_updates_other.
    intros u [<- | []]. cbn [fst]. rewrite Hid, (lookup_id _ _ _ Hq). congruence. }
  split.
  { intros Hn. unfold Binary64.calculateWinners. rewrite Hgs.
    destruct i as [| a r]; [contradiction |]. rewrite Hn. now split. }
  split; [| reflexivity].
  unfold Binary64.calculateWinners. rewrite Hgs. destruct i as [| a r]; [contradiction |].
  destruct (lookup (String a r) (players db)); cbn [fst].
  - rewrite (state_fields _ _ gs); [reflexivity |]. cbn [gameState].
    now rewrite gameState_db_update.
  - rewrite (state_fields _ _ gs); [reflexivity |]. now rewrite gameState_db_update.
Qed.

Lemma calculateWinners_jackpot_witness :
  exists w',
    lookup "p2" (players (fst (Binary64.calculateWinners (Some "p2") 0 db_staked))) = Some w'
    /\ balance w' = Binary64.cent 1100.
Proof.
  assert (Hpot : Binary64.inRange (3 # 2)) by (apply inRange_small; vm_compute; discriminate).
  assert (Hbal : Forall (fun p => Binary64.inRange (balance p)) (players db_staked)).
  { repeat constructor; apply inRange_small; vm_compute; discriminate. }
  destruct (proj1 (calculateWinners_jackpot "p2" 0 db_staked _ eq_refl ltac:(discriminate)
                     Hpot Hbal) _ eq_refl) as [H [Hc _]].
  eexists. split; [exact H |].
  assert (Hn : forall x n, Qabs (x - (n # 100)) <= 1 # 1000 -> (Z.abs n <= 10 ^ 14)%Z ->
                           Binary64.near x n) by (intros x n A B; now split).
  apply (Hc 950%Z 150%Z); apply Hn; vm_compute; discriminate.
Defined.

(** * Resetting a hand on binary64 amounts *)

Lemma resetPatches_keys (ps0 : list Player) (l : list string) :
  map fst (flat_map (fun i => match lookup i ps0 with
                              | Some player => [(i, Binary64.refunded player)]
                              | None => []
                              end) l)
  = filter (fun i => isSome (lookup i ps0)) l.
Proof.
  induction l as [| a l IH]; [reflexivity |]. cbn [flat_map filter].
  destruct (lookup a ps0); cbn [isSome app map fst]; now rewrite IH.
Qed.

Lemma resetPatches_id (ps : list Player) (u : Patch) (q : Player) :
  In u (Binary64.resetPatches ps) -> id (snd u q) = id q.
Proof.
  unfold Binary64.resetPatches. intros Hin. apply in_flat_map in Hin as [i [_ Hi]].
  destruct (lookup i ps); [| contradiction]. destruct Hi as [<- | []]. reflexivity.
Qed.

Lemma resetPatches_player (ps : list Player) (p : Player) :
  unique_ids ps = true -> In p ps ->
  apply_patches (Binary64.resetPatches ps) p = Binary64.refunded p p.
Proof.
  intros Hu Hin. apply apply_patches_hit.
  - unfold Binary64.resetPatches. rewrite resetPatches_keys. apply NoDup_filter.
    now apply unique_NoDup.
  - intros u q. apply resetPatches_id.
  - unfold Binary64.resetPatches. apply in_flat_map. exists (id p).
    split; [now apply in_map |]. rewrite (unique_lookup ps p Hu Hin). now left.
Qed.

(** X11. Resetting a hand returns to every player what that player has
    staked in it. With distinct keys: a player with a positive stake gets
    the balance written as balance plus stake, with two decimals; for a
    whole-cent balance and a stake that is a whole-cent amount up to a
    tenth of a cent (stakes are sums that were never rounded), both below a
    million millions, that is the whole-cent amount of balance plus stake;
    a player with no stake keeps the balance. Every round field is cleared
    and the hand is taken away; the table goes back to betting with an
    empty pot, no bet, no revealed card and no turn holder, and waits for
    the dealer. The amounts are binary64 numbers, far from overflow. *)
Theorem resetHand_refunds (db : Store) (gs : GameState)
    (Hgs : gameState db = Some gs)
    (Hu : unique_ids (players db) = true)
    (Hr : Forall (fun p => Binary64.inRange (balance p)
                           /\ Binary64.inRange (totalBetThisHand p)) (players db)) :
  let db' := fst (Binary64.resetHand db) in
  (forall p, In p (players db) ->
     exists q,
       lookup (id p) (players db') = Some q
       /\ (0 < totalBetThisHand p ->
           balance q = Binary64.toFixed2 (Binary64.add (balance p) (totalBetThisHand p)))
       /\ (totalBetThisHand p <= 0 -> balance q = balance p)
       /\ (forall b s : Z,
             Binary64.near (balance p) b -> Binary64.near (totalBetThisHand p) s ->
             0 < totalBetThisHand p ->
             (0 <= s)%Z /\ balance q = Binary64.cent (b + s))
       /\ totalBetThisHand q = 0 /\ lastBet q = 0
       /\ hasActed q = false /\ folded q = false
       /\ choice q = None /\ finalScore q = None
       /\ hand q = None /\ originalHand q = None /\ discardedCards q = []
       /\ username q = username p /\ position q = position p)
  /\ (exists gs',
        gameState db' = Some gs'
        /\ phase gs' = betting /\ pot gs' = 0 /\ currentBet gs' = 0
        /\ revealedCards gs' = [] /\ currentPlayerTurn gs' = ""
        /\ waitingForDealer gs' = true
        /\ dealerIndex gs' = dealerIndex gs /\ totalCards gs' = totalCards gs
        /\ handSize gs' = handSize gs)
  /\ keys (players db') = keys (players db)
  /\ history db' = history db.
Proof.
  intros db'. subst db'.
  assert (Hps : players (fst (Binary64.resetHand db))
                = map (apply_patches (Binary64.resetPatches (players db))) (players db)).
  { unfold Binary64.resetHand. rewrite Hgs. cbn [fst]. rewrite players_state_update.
    apply players_db_patch. }
  assert (Hst : gameState (fst (Binary64.resetHand db))
                = Some (mkGameState betting 0 0 [] (totalCards gs) (handSize gs) (adminId gs)
                                    (dealerIndex gs) "" true false)).
  { unfold Binary64.resetHand. rewrite Hgs. cbn [fst].
    rewrite (state_fields _ _ gs) by exact Hgs. now destruct gs. }
  split.
  { intros p Hp. exists (Binary64.refunded p p). split.
    - rewrite Hps, lookup_map by (intros q; apply apply_patches_id;
                                  intros u r; apply resetPatches_id).
      rewrite (unique_lookup _ p Hu Hp). cbn [option_map].
      now rewrite (resetPatches_player _ p Hu Hp).
    - pose proof (orElse_zero (totalBetThisHand p)) as Ho.
      assert (Hpos : 0 < totalBetThisHand p ->
                balance (Binary64.refunded p p)
                = Binary64.toFixed2 (Binary64.add (balance p) (orElse (totalBetThisHand p) 0))).
      { intros H. unfold Binary64.refunded. cbn [balance].
        assert (E : Qlt_bool 0 (orElse (totalBetThisHand p) 0) = true)
          by (apply Qlt_bool_true; lra).
        now rewrite E. }
      assert (Hsame : orElse (totalBetThisHand p) 0 <> totalBetThisHand p ->
                      ~ 0 < totalBetThisHand p).
      { unfold orElse. destruct (Qeq_bool (totalBetThisHand p) 0) eqn:E; [| congruence].
        apply Qeq_bool_iff in E. intros _. lra. }
      split.
      { intros H. rewrite (Hpos H). unfold orElse.
        destruct (Qeq_bool (totalBetThisHand p) 0) eqn:E; [| reflexivity].
        apply Qeq_bool_iff in E. lra. }
      split.
      { intros H. unfold Binary64.refunded. cbn [balance].
        assert (E : Qlt_bool 0 (orElse (totalBetThisHand p) 0) = false)
          by (apply Qlt_bool_false; lra).
        now rewrite E. }
      split.
      { intros b s Hb Hs H. split.
        - destruct Hs as [Hs _]. apply Qabs_Qle_condition in Hs as [S1 S2].
          rewrite cents_as_quotient in S1, S2.
          assert (Hq : forall z, z / 100 == z * (1 # 100)) by (intros z; field).
          rewrite Hq in S1, S2.
          destruct (Z_le_gt_dec 0 s) as [H0 | H0]; [assumption |]. exfalso.
          assert (Hz : inject_Z s <= - (1)).
          { change (- (1)) with (inject_Z (-1)). rewrite <- Zle_Qle. lia. }
          lra.
        - rewrite (Hpos H). apply toFixed2_add_near; [assumption | now apply near_orElse]. }
      repeat (split; [reflexivity |]). reflexivity. }
  split.
  { eexists. split; [exact Hst |]. repeat (split; [reflexivity |]). reflexivity. }
  split.
  { rewrite Hps. unfold keys. rewrite map_map. apply map_ext. intros q.
    apply apply_patches_id. intros u r. apply resetPatches_id. }
  unfold Binary64.resetHand. rewrite Hgs. reflexivity.
Qed.

Lemma resetHand_refunds_witness :
  unique_ids (players db_staked) = true
  /\ exists q, lookup "p2" (players (fst (Binary64.resetHand db_staked))) = Some q
               /\ balance q = Binary64.cent 1000.
Proof.
  assert (Hr : Forall (fun p => Binary64.inRange (balance p)
                                /\ Binary64.inRange (totalBetThisHand p))
                      (players db_staked)).
  { repeat constructor; apply inRange_small; vm_compute; discriminate. }
  split; [reflexivity |].
  destruct (resetHand_refunds db_staked _ eq_refl eq_refl Hr) as [H _].
  destruct (H (mkPlayer "p2" "bruno" (19 # 2) false false (1 # 2) None None 1 true true
                        (Some [card "2" "♥"; card "3" "♠"]) (1 # 2)
                        (Some [card "2" "♥"; card "3" "♠"]) [])
              (or_intror (or_introl eq_refl)))
    as [q [H1 [_ [_ [Hc _]]]]].
  assert (Hn : forall x n, Qabs (x - (n # 100)) <= 1 # 1000 -> (Z.abs n <= 10 ^ 14)%Z ->
                           Binary64.near x n) by (intros x n A B; now split).
  exists q. split; [exact H1 |].
  apply (proj2 (Hc 950%Z 50%Z ltac:(apply Hn; vm_compute; discriminate)
                  ltac:(apply Hn; vm_compute; discriminate)
                  ltac:(vm_compute; reflexivity))).
Defined.

(** * Money is conserved while the players bet *)

Lemma centsOf_near (x : Q) (n : Z) : Binary64.near x n -> centsOf x = n.
Proof.
  intros [H _]. unfold centsOf. apply round_half_away_near.
  apply Qabs_Qle_condition in H as [H1 H2]. rewrite cents_as_quotient in H1, H2.
  assert (Hq : inject_Z n / 100 == inject_Z n * (1 # 100)) by field.
  rewrite Hq in H1, H2. apply Qabs_Qlt_condition. split; lra.
Qed.

Lemma wholeCents_intro (x : Q) (n : Z) :
  Binary64.near x n -> (0 <= n)%Z -> wholeCents x.
Proof. intros H Hn. unfold wholeCents. rewrite (centsOf_near x n H). now split. Qed.

Lemma wholeCents_orElse (x : Q) : wholeCents x -> wholeCents (orElse x 0).
Proof.
  intros [H1 H2]. apply (wholeCents_intro _ (centsOf x)); [now apply near_orElse | assumption].
Qed.

Lemma centsOf_orElse (x : Q) : wholeCents x -> centsOf (orElse x 0) = centsOf x.
Proof. intros [H _]. apply centsOf_near. now apply near_orElse. Qed.

Lemma sumZ_map_same (F : Player -> Z) (f : Player -> Player) (ps : list Player) :
  (forall p, In p ps -> F (f p) = F p) -> sumZ F (map f ps) = sumZ F ps.
Proof.
  induction ps as [| q ps IH]; intros H; simpl; [reflexivity |].
  fold (sumZ F (map f ps)) (sumZ F ps).
  rewrite (H q (or_introl eq_refl)), IH; [reflexivity |].
  intros p Hp. apply H. now right.
Qed.

Lemma sumZ_map_one (F : Player -> Z) (f : Player -> Player) (ps : list Player)
    (i : string) (me : Player) :
  unique_ids ps = true -> lookup i ps = Some me ->
  (forall p, In p ps -> id p <> i -> F (f p) = F p) ->
  (sumZ F (map f ps) = sumZ F ps - F me + F (f me))%Z.
Proof.
  unfold unique_ids, keys, lookup.
  induction ps as [| q ps IH]; intros Hu Hlk Hoth; [discriminate |].
  simpl in Hu. apply andb_true_iff in Hu as [Hq Hu]. apply negb_true_iff in Hq.
  simpl in Hlk. simpl. destruct (id q =? i)%string eqn:E.
  - injection Hlk as <-. apply String.eqb_eq in E.
    assert (Hsame : sumZ F (map f ps) = sumZ F ps).
    { apply sumZ_map_same. intros p Hp. apply Hoth; [now right |]. intros Hid.
      assert (Hc : includes (id q) (map id ps) = true).
      { apply includes_In. rewrite E, <- Hid. now apply in_map. }
      congruence. }
    fold (sumZ F (map f ps)) (sumZ F ps). lia.
  - apply String.eqb_neq in E.
    rewrite (Hoth q (or_introl eq_refl) E).
    fold (sumZ F (map f ps)) (sumZ F ps).
    rewrite IH; auto; [lia |].
    intros p Hp. apply Hoth. now right.
Qed.

Lemma sumZ_member (F : Player -> Z) (ps : list Player) (q : Player) :
  (forall p, In p ps -> (0 <= F p)%Z) -> In q ps ->
  (F q <= sumZ F ps)%Z /\ (0 <= sumZ F ps)%Z.
Proof.
  induction ps as [| p ps IH]; intros Hpos Hin; [contradiction |].
  simpl. fold (sumZ F ps).
  assert (H0 : (0 <= sumZ F ps)%Z).
  { clear - Hpos. induction ps as [| r ps IH]; [simpl; lia |].
    simpl. fold (sumZ F ps).
    assert (0 <= F r)%Z by (apply Hpos; right; now left).
    assert (0 <= sumZ F ps)%Z.
    { apply IH. intros x [<- | Hx]; apply Hpos; [now left | right; now right]. }
    lia. }
  pose proof (Hpos p (or_introl eq_refl)) as Hp.
  destruct Hin as [<- | Hin]; [lia |].
  destruct (IH (fun x Hx => Hpos x (or_intror Hx)) Hin) as [H1 _]. lia.
Qed.

Lemma apply_updates_amounts (us : list Update) (p : Player) :
  (forall u, In u us -> fst u = id p -> touchesAmount u = false) ->
  balance (apply_updates us p) = balance p
  /\ lastBet (apply_updates us p) = lastBet p.
Proof.
  revert p. induction us as [| u us IH]; intros p H; [now split |].
  change (apply_updates (u :: us) p) with (apply_updates us (apply_update u p)).
  assert (Hstep : balance (apply_update u p) = balance p
                  /\ lastBet (apply_update u p) = lastBet p).
  { unfold apply_update. destruct (id p =? fst u)%string eqn:E; [| now split].
    apply String.eqb_eq in E. specialize (H u (or_introl eq_refl) (eq_sym E)).
    unfold touchesAmount in H. destruct p, (snd u); simpl in *; try discriminate; now split. }
  destruct Hstep as [Hb Ht]. rewrite <- Hb, <- Ht. apply IH.
  intros v Hv Hk. apply H; [now right |]. now rewrite apply_update_id in Hk.
Qed.

(** The pot and a balance together are within the money in play. *)
Lemma pot_room (db : Store) (gs : GameState) (i : string) (me : Player) :
  tableInCents db -> gameState db = Some gs -> lookup i (players db) = Some me ->
  (0 <= centsOf (balance me))%Z /\ (0 <= centsOf (pot gs))%Z
  /\ (centsOf (pot gs) + centsOf (balance me) <= totalCents db)%Z.
Proof.
  intros [Hp Hg] Hgs Hlk. rewrite Hgs in Hg. destruct Hg as [[_ Hpot] _].
  rewrite Forall_forall in Hp. apply lookup_In in Hlk.
  destruct (Hp me Hlk) as [[_ Hb] _].
  destruct (sumZ_member (fun p => centsOf (balance p)) (players db) me) as [H1 _];
    [intros p Hin; apply (Hp p Hin) | assumption |].
  unfold totalCents, tablePot. rewrite Hgs. cbn beta in H1. lia.
Qed.

Section CentsStep.

Variables db db' : Store.
Variables gs gs' : GameState.
Variable i : string.
Variable me : Player.
Variable us : list Update.
Variable d : Z.

Hypothesis Hu : unique_ids (players db) = true.
Hypothesis Hc : tableInCents db.
Hypothesis Hgs : gameState db = Some gs.
Hypothesis Hlk : lookup i (players db) = Some me.
Hypothesis Hps : players db' = map (apply_updates us) (players db).
Hypothesis Hgs' : gameState db' = Some gs'.
Hypothesis Hkeys : forall u, In u us -> touchesAmount u = true -> fst u = i.
Hypothesis Hd : (0 <= d <= centsOf (balance me))%Z.
Hypothesis Hbal : Binary64.near (balance (apply_updates us me)) (centsOf (balance me) - d).
Hypothesis Hlast : wholeCents (lastBet (apply_updates us me)).
Hypothesis Hpot : Binary64.near (pot gs') (centsOf (pot gs) + d).
Hypothesis Hcur : wholeCents (currentBet gs').

Lemma others_keep_amounts (p : Player) :
  id p <> i ->
  balance (apply_updates us p) = balance p /\ lastBet (apply_updates us p) = lastBet p.
Proof.
  intros Hne. apply apply_updates_amounts. intros u Hin Hk.
  destruct (touchesAmount u) eqn:E; [| reflexivity].
  exfalso. apply Hne. rewrite <- Hk. now apply Hkeys.
Qed.

Lemma cents_step :
  totalCents db' = totalCents db /\ tableInCents db' /\ unique_ids (players db') = true.
Proof.
  destruct (pot_room db gs i me Hc Hgs Hlk) as [Hb0 [Hp0 _]].
  split; [| split].
  - unfold totalCents, tablePot. rewrite Hps, Hgs, Hgs'.
    rewrite (sumZ_map_one _ _ _ i me Hu Hlk).
    + rewrite (centsOf_near _ _ Hbal), (centsOf_near _ _ Hpot). lia.
    + intros p _ Hne. now rewrite (proj1 (others_keep_amounts p Hne)).
  - destruct Hc as [Hpl _]. split.
    + rewrite Hps. apply Forall_map. rewrite Forall_forall in *. intros p Hin.
      destruct (string_dec (id p) i) as [E | E].
      * assert (p = me).
        { pose proof (unique_lookup _ _ Hu Hin) as H. rewrite E, Hlk in H. congruence. }
        subst p. split; [| exact Hlast].
        apply (wholeCents_intro _ _ Hbal). lia.
      * destruct (others_keep_amounts p E) as [-> ->]. now apply Hpl.
    + rewrite Hgs'. split; [| exact Hcur]. apply (wholeCents_intro _ _ Hpot). lia.
  - unfold unique_ids, keys. rewrite Hps, map_map.
    rewrite (map_ext _ id); [exact Hu |]. intros p. apply apply_updates_id.
Qed.

End CentsStep.

(** A bet that passes the table's minimum is between 0 and 2.00, in whole
    cents, whatever the input. *)
Lemma effectiveBet_near (c : Client) (m : Q) :
  - (1 # 1000) <= m -> m <= Binary64.effectiveBet c ->
  exists a, (0 <= a <= 200)%Z /\ Binary64.near (Binary64.effectiveBet c) a.
Proof.
  intros Hm. unfold Binary64.effectiveBet.
  destruct (Qlt_bool 2 (Binary64.toFixed2 (betAmount c))) eqn:E.
  { intros _. exists 200%Z. split; [lia |]. split; [vm_compute; discriminate | lia]. }
  apply Qlt_bool_false in E. revert E. unfold Binary64.toFixed2.
  assert (E21 : 10 ^ 21 == 1000000000000000000000) by reflexivity.
  destruct (Qle_bool (10 ^ 21) (Qabs (betAmount c))) eqn:E2.
  { intros E Hle. exfalso. apply Qle_bool_iff in E2. rewrite E21 in E2.
    assert (H : Qabs (betAmount c) <= 2) by (apply Qabs_Qle_condition; split; lra).
    lra. }
  apply Qle_bool_false in E2. rewrite E21 in E2.
  set (a := round_half_away (betAmount c * 100)).
  fold (Binary64.cent a). intros E Hle.
  destruct (round_half_away_error (betAmount c * 100)) as [R1 R2]. fold a in R1, R2.
  apply Qabs_Qlt_condition in E2 as [X1 X2].
  assert (Hq : inject_Z a / 100 == inject_Z a * (1 # 100)) by field.
  assert (Hbig : Qabs (Binary64.cent a - (a # 100)) <= 131072).
  { assert (P : (2 : Q) ^ (70 - 53) == 131072) by reflexivity.
    rewrite <- P. apply round64_error; [lia |].
    assert (P70 : (2 : Q) ^ 70 == 1180591620717411303424) by reflexivity.
    rewrite P70, cents_as_quotient, Hq. apply Qabs_Qle_condition. split; lra. }
  apply Qabs_Qle_condition in Hbig as [B1 B2]. rewrite cents_as_quotient, Hq in B1, B2.
  destruct (Z_le_gt_dec (Z.abs a) (2 * 10 ^ 14)) as [Hs | Hs].
  - pose proof (cent_error a Hs) as He. apply Qabs_Qle_condition in He as [E1 E3].
    rewrite cents_as_quotient, Hq in E1, E3.
    assert (Ha : (0 <= a <= 200)%Z).
    { split.
      - destruct (Z_le_gt_dec 0 a) as [H | H]; [assumption |]. exfalso.
        assert (Hz : inject_Z a <= - (1)).
        { change (- (1)) with (inject_Z (-1)). rewrite <- Zle_Qle. lia. }
        lra.
      - destruct (Z_le_gt_dec a 200) as [H | H]; [assumption |]. exfalso.
        assert (Hz : 201 <= inject_Z a).
        { change 201 with (inject_Z 201). rewrite <- Zle_Qle. lia. }
        lra. }
    exists a. split; [assumption |]. apply near_cent. lia.
  - exfalso. destruct (Z_le_gt_dec 0 a) as [H | H].
    + assert (Hz : 200000000000000 <= inject_Z a).
      { change 200000000000000 with (inject_Z 200000000000000). rewrite <- Zle_Qle. lia. }
      lra.
    + assert (Hz : inject_Z a <= - (200000000000000)).
      { change (- (200000000000000)) with (inject_Z (-200000000000000)).
        rewrite <- Zle_Qle. lia. }
      lra.
Qed.

Lemma wholeCents_low (x : Q) : wholeCents x -> - (1 # 1000) <= x.
Proof.
  intros [[H _] H0]. apply Qabs_Qle_condition in H as [H1 _].
  rewrite cents_as_quotient in H1.
  assert (Hq : inject_Z (centsOf x) / 100 == inject_Z (centsOf x) * (1 # 100)) by field.
  rewrite Hq in H1.
  assert (Hz : 0 <= inject_Z (centsOf x)).
  { change 0 with (inject_Z 0). now rewrite <- Zle_Qle. }
  lra.
Qed.

Lemma minBet_low (x : Q) :
  wholeCents x -> - (1 # 1000) <= orElse x (Binary64.round64 (1 # 10)).
Proof.
  intros H. unfold orElse. destruct (Qeq_bool x 0); [vm_compute; discriminate |].
  now apply wholeCents_low.
Qed.

Lemma handleBet64_refused (c : Client) (db : Store) :
  r_written (Binary64.handleBet c db) = false -> r_store (Binary64.handleBet c db) = db.
Proof.
  unfold Binary64.handleBet.
  destruct (gameState db) as [gs |]; [| reflexivity].
  destruct (currentUser c db) as [me |]; [| reflexivity].
  destruct (localId c) as [lid |]; [| reflexivity].
  destruct (waitingForDealer gs); [reflexivity |].
  destruct (negb (isAdminMode c) && negb (currentPlayerTurn gs =? lid)%string);
    [reflexivity |].
  match goal with
  | |- context [Qlt_bool ?v (orElse (currentBet gs) ?m)] =>
      destruct (Qlt_bool v (orElse (currentBet gs) m)); [reflexivity |]
  end.
  match goal with
  | |- context [Qlt_bool (balance me) ?d] =>
      destruct (Qlt_bool (balance me) d); [reflexivity | discriminate]
  end.
Qed.

Lemma seat_in_cents (db : Store) (i : string) (p : Player) :
  tableInCents db -> lookup i (players db) = Some p ->
  wholeCents (balance p) /\ wholeCents (lastBet p).
Proof.
  intros [H _] Hl. rewrite Forall_forall in H. apply H. now apply lookup_In in Hl.
Qed.

Section CentsActions.

Variable db : Store.
Hypothesis Hu : unique_ids (players db) = true.
Hypothesis Hc : tableInCents db.
Hypothesis Hb : (totalCents db <= 10 ^ 14)%Z.

Lemma cents_unchanged :
  totalCents db = totalCents db /\ tableInCents db /\ unique_ids (players db) = true.
Proof. split; [reflexivity | split; assumption]. Qed.

(** A step that writes no amount. *)
Lemma cents_free_step (db' : Store) (gs gs' : GameState) (i : string) (me : Player)
    (us : list Update) :
  gameState db = Some gs -> lookup i (players db) = Some me ->
  players db' = map (apply_updates us) (players db) ->
  gameState db' = Some gs' ->
  (forall u, In u us -> touchesAmount u = false) ->
  pot gs' = pot gs -> currentBet gs' = currentBet gs ->
  totalCents db' = totalCents db /\ tableInCents db' /\ unique_ids (players db') = true.
Proof.
  intros Hgs Hlk Hps Hgs' Hfree Hpot Hcur.
  destruct (seat_in_cents db i me Hc Hlk) as [Hbal Hlast].
  assert (Hg : wholeCents (pot gs) /\ wholeCents (currentBet gs)).
  { destruct Hc as [_ Hg]. now rewrite Hgs in Hg. }
  assert (Hme : balance (apply_updates us me) = balance me
                /\ lastBet (apply_updates us me) = lastBet me).
  { apply apply_updates_amounts. intros u Hin _. now apply Hfree. }
  apply (cents_step db db' gs gs' i me us 0 Hu Hc Hgs Hlk Hps Hgs').
  - intros u Hin Ht. rewrite (Hfree u Hin) in Ht. discriminate.
  - destruct Hbal as [_ H0]. lia.
  - rewrite (proj1 Hme), Z.sub_0_r. apply Hbal.
  - now rewrite (proj2 Hme).
  - rewrite Hpot, Z.add_0_r. apply Hg.
  - rewrite Hcur. apply Hg.
Qed.

(** A step that moves what is owed from the balance to the pot. *)
Lemma cents_pay_step (db' : Store) (gs gs' : GameState) (i : string) (me : Player)
    (us : list Update) (target : Q) (a : Z) :
  gameState db = Some gs -> lookup i (players db) = Some me ->
  players db' = map (apply_updates us) (players db) ->
  gameState db' = Some gs' ->
  (forall u, In u us -> touchesAmount u = true -> fst u = i) ->
  Binary64.near target a -> (0 <= a)%Z ->
  let diff := max0 (Binary64.toFixed2 (Binary64.sub target (orElse (lastBet me) 0))) in
  diff <= orElse (balance me) 0 ->
  balance (apply_updates us me)
  = Binary64.toFixed2 (Binary64.sub (orElse (balance me) 0) diff) ->
  lastBet (apply_updates us me) = target ->
  pot gs' = Binary64.toFixed2 (Binary64.add (orElse (pot gs) 0) diff) ->
  wholeCents (currentBet gs') ->
  totalCents db' = totalCents db /\ tableInCents db' /\ unique_ids (players db') = true.
Proof.
  intros Hgs Hlk Hps Hgs' Hkeys Ha Ha0 diff Hle Hbal' Hlast' Hpot' Hcur.
  destruct (seat_in_cents db i me Hc Hlk) as [[Hbal Hbal0] [Hlast Hlast0]].
  assert (Hg : wholeCents (pot gs) /\ wholeCents (currentBet gs)).
  { destruct Hc as [_ Hg]. now rewrite Hgs in Hg. }
  destruct Hg as [[Hpot Hpot0] _].
  destruct (pot_room db gs i me Hc Hgs Hlk) as [_ [_ Hroom]].
  set (b := centsOf (balance me)) in *. set (l := centsOf (lastBet me)) in *.
  set (p := centsOf (pot gs)) in *.
  assert (Hal : (Z.abs (a - l) <= 2 * 10 ^ 14)%Z).
  { destruct Ha as [_ Ha], Hlast as [_ Hl]. lia. }
  assert (Hd : diff = Binary64.cent (Z.max 0 (a - l))).
  { unfold diff.
    rewrite (toFixed2_sub_near target (orElse (lastBet me) 0) a l Ha (near_orElse _ _ Hlast)).
    now apply max0_cent. }
  set (d := Z.max 0 (a - l)) in *.
  assert (Hdb : (d <= b)%Z).
  { apply (cent_le_near d b (orElse (balance me) 0));
      [unfold d; lia | now apply near_orElse |].
    now rewrite <- Hd. }
  assert (Hd0 : (0 <= d)%Z) by (unfold d; lia).
  assert (Hnd : Binary64.near diff d).
  { rewrite Hd. apply near_cent. destruct Hbal as [_ Hbb]. fold b in Hbb. lia. }
  apply (cents_step db db' gs gs' i me us d Hu Hc Hgs Hlk Hps Hgs' Hkeys).
  - fold b. lia.
  - rewrite Hbal'. fold b.
    rewrite (toFixed2_sub_near _ _ b d (near_orElse _ _ Hbal) Hnd).
    apply near_cent. destruct Hbal as [_ Hbb]. fold b in Hbb. lia.
  - rewrite Hlast'. now apply (wholeCents_intro _ a).
  - rewrite Hpot'. fold p.
    rewrite (toFixed2_add_near _ _ p d (near_orElse _ _ Hpot) Hnd).
    apply near_cent. lia.
  - exact Hcur.
Qed.

Lemma handleBet64_cents (c : Client) :
  let db' := r_store (Binary64.handleBet c db) in
  totalCents db' = totalCents db /\ tableInCents db' /\ unique_ids (players db') = true.
Proof.
  cbv zeta.
  destruct (r_written (Binary64.handleBet c db)) eqn:Hw;
    [| rewrite handleBet64_refused by assumption; apply cents_unchanged].
  assert (Hex : exists gs me, gameState db = Some gs /\ currentUser c db = Some me).
  { revert Hw. unfold Binary64.handleBet. destruct (gameState db) as [gs |]; [| discriminate].
    destruct (currentUser c db) as [me |]; [| discriminate]. intros _. now exists gs, me. }
  destruct Hex as [gs [me [Hgs Hme]]].
  destruct (handleBet64_written c db gs me Hgs Hme Hw) as [_ [_ [Hmin [Hbal Hst]]]].
  destruct (currentUser_localId c db me Hme) as [_ Hlk].
  assert (Hg : wholeCents (pot gs) /\ wholeCents (currentBet gs)).
  { destruct Hc as [_ Hg]. now rewrite Hgs in Hg. }
  destruct (effectiveBet_near c _ (minBet_low _ (proj2 Hg)) Hmin) as [a [Ha0 Ha]].
  destruct (seat_in_cents db _ me Hc Hlk) as [Hmb _].
  rewrite Hst.
  eapply (cents_pay_step _ gs _ (id me) me (Binary64.betUpdates c db gs me)
            (Binary64.effectiveBet c) a Hgs Hlk).
  - rewrite players_db_update. reflexivity.
  - now apply betFields64_table.
  - intros u Hin Ht. unfold Binary64.betUpdates in Hin. apply in_app_or in Hin as [Hin | Hin].
    + destruct (Qlt_bool _ _); [| contradiction].
      apply in_map_iff in Hin as [k [<- _]]. discriminate.
    + simpl in Hin. intuition (subst; reflexivity).
  - exact Ha.
  - lia.
  - rewrite (orElse_zero (balance me)). exact Hbal.
  - rewrite betUpdates64_self. cbn [balance]. unfold Binary64.betDiff.
    apply (f_equal Binary64.toFixed2). unfold Binary64.sub. apply round64_eq.
    rewrite (orElse_zero (balance me)). reflexivity.
  - rewrite betUpdates64_self. reflexivity.
  - reflexivity.
  - cbn [currentBet]. now apply (wholeCents_intro _ a).
Qed.

End CentsActions.

Lemma step64_cents (a : Action) (db : Store) :
  unique_ids (players db) = true -> tableInCents db -> (totalCents db <= 10 ^ 14)%Z ->
  totalCents (Binary64.step a db) = totalCents db
  /\ tableInCents (Binary64.step a db)
  /\ unique_ids (players (Binary64.step a db)) = true.
Proof.
  intros Hu Hc Hb. destruct a as [c | c | c | c]; cbn [Binary64.step].
  - (* bet *)
    now apply handleBet64_cents.
  - (* check *)
    destruct (r_written (handleCheck c db)) eqn:Hw;
      [| rewrite handleCheck_refused by assumption; now apply cents_unchanged].
    assert (Hex : exists gs me, gameState db = Some gs /\ currentUser c db = Some me).
    { revert Hw. unfold handleCheck. destruct (gameState db) as [gs |]; [| discriminate].
      destruct (currentUser c db) as [me |]; [| discriminate]. intros _. now exists gs, me. }
    destruct Hex as [gs [me [Hgs Hme]]].
    destruct (handleCheck_written c db gs me Hgs Hme Hw) as [_ [_ [_ Hst]]].
    destruct (currentUser_localId c db me Hme) as [_ Hlk].
    rewrite Hst.
    eapply (cents_free_step db Hu Hc _ gs _ (id me) me [(id me, F_hasActed true)] Hgs Hlk).
    + rewrite players_state_update. apply players_db_update.
    + apply state_fields. rewrite gameState_db_update. exact Hgs.
    + intros u [<- | []]. reflexivity.
    + now destruct gs.
    + now destruct gs.
  - (* fold *)
    destruct (r_written (handleFold c db)) eqn:Hw;
      [| rewrite handleFold_refused by assumption; now apply cents_unchanged].
    assert (Hex : exists gs me, gameState db = Some gs /\ currentUser c db = Some me).
    { revert Hw. unfold handleFold. destruct (gameState db) as [gs |]; [| discriminate].
      destruct (currentUser c db) as [me |]; [| discriminate]. intros _. now exists gs, me. }
    destruct Hex as [gs [me [Hgs Hme]]].
    destruct (handleFold_written c db gs me Hgs Hme Hw) as [_ [_ Hst]].
    destruct (currentUser_localId c db me Hme) as [_ Hlk].
    rewrite Hst.
    eapply (cents_free_step db Hu Hc _ gs _ (id me) me
              [(id me, F_folded true); (id me, F_hasActed true)] Hgs Hlk).
    + rewrite players_state_update. apply players_db_update.
    + apply state_fields. rewrite gameState_db_update. exact Hgs.
    + intros u [<- | [<- | []]]; reflexivity.
    + now destruct gs.
    + now destruct gs.
  - (* the bot's move *)
    destruct (gameState db) as [gs |] eqn:Hgs;
      [| unfold Binary64.botTurn; rewrite Hgs; now apply cents_unchanged].
    destruct (botMayAct c gs) eqn:Hact.
    2: { assert (E : Binary64.botTurn c db = db).
         { unfold Binary64.botTurn. rewrite Hgs. unfold botMayAct in Hact.
           destruct (isConnected c); [| reflexivity].
           destruct (waitingForDealer gs); [now rewrite orb_true_r |].
           destruct (phase gs); try reflexivity. discriminate. }
         rewrite E. now apply cents_unchanged. }
    destruct (currentPlayerTurn gs =? "")%string eqn:Et.
    { assert (E : Binary64.botTurn c db = db).
      { unfold Binary64.botTurn. rewrite Hgs, Et.
        now destruct (negb (isConnected c) || _ || waitingForDealer gs). }
      rewrite E. now apply cents_unchanged. }
    apply String.eqb_neq in Et.
    destruct (lookup (currentPlayerTurn gs) (players db)) as [bot |] eqn:Hlk.
    2: { assert (E : Binary64.botTurn c db = db).
         { unfold Binary64.botTurn. rewrite Hgs, Hlk.
           destruct (negb (isConnected c) || _ || waitingForDealer gs); [reflexivity |].
           now destruct (currentPlayerTurn gs =? "")%string. }
         rewrite E. now apply cents_unchanged. }
    destruct (isBot bot) eqn:Hbot.
    2: { assert (E : Binary64.botTurn c db = db).
         { unfold Binary64.botTurn. rewrite Hgs, Hlk, Hbot.
           destruct (negb (isConnected c) || _ || waitingForDealer gs); [reflexivity |].
           now destruct (currentPlayerTurn gs =? "")%string. }
         rewrite E. now apply cents_unchanged. }
    pose proof (botTurn64_cases c db gs bot Hgs Hact Et Hlk Hbot) as Hcase.
    cbv zeta in Hcase. rewrite Hcase. clear Hcase.
    pose proof (lookup_id _ _ _ Hlk) as Hid.
    assert (Hg : wholeCents (pot gs) /\ wholeCents (currentBet gs)).
    { destruct Hc as [_ Hg]. now rewrite Hgs in Hg. }
    destruct (seat_in_cents db _ bot Hc Hlk) as [Hbb Hbl].
    pose proof (wholeCents_orElse _ (proj2 Hg)) as Hcb.
    destruct (Qeq_bool _ 0 || Qle_bool _ _) eqn:Eowe.
    + (* check: the last bet becomes the table's bet *)
      apply (cents_step db _ gs
               (set_state_field
                  (S_currentPlayerTurn (orEmpty (getNextActivePlayerId (Some gs) (players db))))
                  gs)
               (currentPlayerTurn gs) bot
               [ (currentPlayerTurn gs, F_hasActed true);
                 (currentPlayerTurn gs, F_lastBet (orElse (currentBet gs) 0)) ] 0 Hu Hc Hgs Hlk).
      * rewrite players_state_update. apply players_db_update.
      * rewrite (state_fields _ _ gs) by (rewrite gameState_db_update; exact Hgs).
        reflexivity.
      * intros u [<- | [<- | []]] _; reflexivity.
      * destruct Hbb as [_ H0]. lia.
      * self_updates. destruct bot; cbn. rewrite Z.sub_0_r. apply Hbb.
      * self_updates. destruct bot; cbn. exact Hcb.
      * destruct gs; cbn. rewrite Z.add_0_r. apply Hg.
      * destruct gs; cbn. apply Hg.
    + destruct (Qlt_bool _ _) eqn:Efold.
      * eapply (cents_free_step db Hu Hc _ gs _ (currentPlayerTurn gs) bot
                  [ (currentPlayerTurn gs, F_folded true);
                    (currentPlayerTurn gs, F_hasActed true) ] Hgs Hlk).
        -- rewrite players_state_update. apply players_db_update.
        -- apply state_fields. rewrite gameState_db_update. exact Hgs.
        -- intros u [<- | [<- | []]]; reflexivity.
        -- now destruct gs.
        -- now destruct gs.
      * apply Qlt_bool_false in Efold.
        eapply (cents_pay_step db Hu Hc Hb _ gs _ (currentPlayerTurn gs) bot _
                  (orElse (currentBet gs) 0) (centsOf (currentBet gs)) Hgs Hlk).
        -- rewrite players_db_update. reflexivity.
        -- rewrite gameState_db_update. apply state_fields. exact Hgs.
        -- intros u Hin _. simpl in Hin. intuition (subst; reflexivity).
        -- apply near_orElse. apply Hg.
        -- apply Hg.
        -- exact Efold.
        -- self_updates. destruct bot; reflexivity.
        -- self_updates. destruct bot; reflexivity.
        -- destruct gs; reflexivity.
        -- destruct gs; cbn. apply Hg.
Qed.

(** X8. While the players bet, check and fold and the bots move, no money
    appears or disappears. The amounts are binary64 numbers and every
    handler rounds what it writes to two decimals. With distinct player
    keys, and balances, last bets, the pot and the table's bet all
    non-negative whole cents (up to a tenth of a cent), the money in play
    at most a million millions: through any sequence of such actions,
    whatever the amounts typed in, the cents of the balances plus the
    cents of the pot stay the same, and all those amounts stay
    non-negative whole cents. *)
Theorem betting_conserves_chips (acts : list Action) (db : Store)
    (Hu : unique_ids (players db) = true)
    (Hc : tableInCents db)
    (Hb : (totalCents db <= 10 ^ 14)%Z) :
  totalCents (Binary64.run acts db) = totalCents db
  /\ tableInCents (Binary64.run acts db)
  /\ unique_ids (players (Binary64.run acts db)) = true.
Proof.
  unfold Binary64.run. revert db Hu Hc Hb.
  induction acts as [| a acts IH]; intros db Hu Hc Hb.
  - split; [reflexivity | split; assumption].
  - cbn [fold_left].
    destruct (step64_cents a db Hu Hc Hb) as [H1 [H2 H3]].
    destruct (IH (Binary64.step a db) H3 H2 ltac:(lia)) as [H4 [H5 H6]].
    split; [lia |]. split; assumption.
Qed.

Lemma betting_conserves_chips_witness :
  tableInCents db_betting
  /\ totalCents (Binary64.run [ Bet (browser "p2" false (3 # 2) "");
                                Check (browser "p1" true 0 "") ] db_betting)
     = totalCents db_betting.
Proof.
  assert (Hw : forall x, Qabs (x - (centsOf x # 100)) <= 1 # 1000 ->
                         (Z.abs (centsOf x) <= 10 ^ 14)%Z -> (0 <= centsOf x)%Z ->
                         wholeCents x)
    by (intros x A B C; now repeat split).
  assert (Hc : tableInCents db_betting).
  { split; [repeat (constructor; [split |]); [.. | constructor] | split];
      apply Hw; vm_compute; discriminate. }
  split; [exact Hc |].
  assert (Hb : (totalCents db_betting <= 10 ^ 14)%Z) by (vm_compute; discriminate).
  exact (proj1 (betting_conserves_chips
                  [ Bet (browser "p2" false (3 # 2) ""); Check (browser "p1" true 0 "") ]
                  db_betting eq_refl Hc Hb)).
Defined.
